(** * H2O content-structure engine: a shallow embedding of [web/main/models.py]

    The development follows the Django models of the repository:
    - [MaterializedPathTreeMixin] / [ContentNode] / [Casebook]: the content
      tree stored as ordinal paths, its loading, repair and moves;
    - [ContentAnnotation] / [AnnotatedModel]: annotation offsets and their
      reconciliation when a resource's text is saved;
    - [Casebook]: the life-cycle table, draft merging and cloning.

    Database tables are lists of rows (records); a model instance is the
    record of its row; Python exceptions are values of [exn]. *)

From stdpp Require Import gmap strings list sorting.
From Stdlib Require Import ZArith Lia.

Local Open Scope Z_scope.

(** ** Exceptions and results *)

Inductive exn : Type :=
| ValueError (msg : string)
| KeyError
| IndexError
| AttributeError
| DoesNotExist
| MultipleObjectsReturned.

Inductive result (A : Type) : Type :=
| Ok (a : A)
| Raise (e : exn).
Arguments Ok {A} a.
Arguments Raise {A} e.

Definition bind {A B : Type} (r : result A) (k : A -> result B) : result B :=
  match r with
  | Ok a => k a
  | Raise e => Raise e
  end.

Definition is_ok {A : Type} (r : result A) : bool :=
  match r with Ok _ => true | Raise _ => false end.

(** Python list helpers. [l[-1]] raises IndexError on the empty list. *)
Definition py_last (l : list Z) : result Z :=
  match last l with
  | Some x => Ok x
  | None => Raise IndexError
  end.

(** [max(l or [0])]. *)
Definition py_max_or_0 (l : list Z) : Z :=
  match l with
  | [] => 0
  | x :: l' => foldr Z.max x l'
  end.

(** [l[i]] for a Python integer index: negative indices count from the end,
    anything outside [-len, len) raises IndexError. *)
Definition py_index {A : Type} (l : list A) (i : Z) : result A :=
  let j := if i <? 0 then i + Z.of_nat (length l) else i in
  if j <? 0 then Raise IndexError
  else match l !! Z.to_nat j with
       | Some x => Ok x
       | None => Raise IndexError
       end.

(** [l.insert(i, x)]: the index is clamped to [0, len], negative indices count
    from the end. *)
Definition py_insert_index {A : Type} (l : list A) (i : Z) : nat :=
  let j := if i <? 0 then Z.max 0 (i + Z.of_nat (length l)) else i in
  Nat.min (Z.to_nat j) (length l).

Definition py_insert {A : Type} (l : list A) (i : Z) (x : A) : list A :=
  take (py_insert_index l i) l ++ x :: drop (py_insert_index l i) l.

(** [Model.objects.get(...)] on the rows that satisfy the lookup. *)
Definition objects_get {A : Type} (rows : list A) : result A :=
  match rows with
  | [] => Raise DoesNotExist
  | [x] => Ok x
  | _ => Raise MultipleObjectsReturned
  end.

(** [os.path.commonprefix] on two lists: the longest common prefix. *)
Fixpoint commonprefix (a b : list Z) : list Z :=
  match a, b with
  | x :: a', y :: b' => if bool_decide (x = y) then x :: commonprefix a' b' else []
  | _, _ => []
  end.

(** [a[:len(b)] == b] *)
Definition starts_with (a b : list Z) : bool :=
  bool_decide (take (length b) a = b).

(** ** ContentNode rows and the materialized-path tree *)

Module ContentNode.

Record t : Type := mk {
  id : Z;
  casebook_id : option Z;
  ordinals : list Z;
  display_ordinals : list Z;
  does_display_ordinals : bool;
  provenance : list Z;
  resource_type : option string;
  resource_id : option Z;
}.

#[export] Instance t_eq_dec : EqDecision t.
Proof. solve_decision. Defined.

Definition set_ordinals (n : t) (o d : list Z) : t :=
  mk (id n) (casebook_id n) o d (does_display_ordinals n) (provenance n)
     (resource_type n) (resource_id n).

(** [is_legacy_casebook_node]: [not self.ordinals]. *)
Definition is_legacy_casebook_node (n : t) : bool :=
  bool_decide (ordinals n = []).

(** [is_resource]: [self.resource_id is not None]. *)
Definition is_resource (n : t) : bool :=
  match resource_id n with Some _ => true | None => false end.

(** [content_tree__is_descendant_of]. *)
Definition content_tree__is_descendant_of (n parent : t) : bool :=
  starts_with (ordinals n) (ordinals parent).

(** A loaded node: the row together with [_content_tree__children]. *)
Unset Elimination Schemes.
Inductive Tree : Type :=
| Node (row : t) (children : list Tree).
Set Elimination Schemes.

Definition row (x : Tree) : t := match x with Node r _ => r end.
Definition children (x : Tree) : list Tree := match x with Node _ cs => cs end.

(** The generator [content_tree__update_ordinals] run on a loaded node
    [self]. [self_ordinals] and [self_display_ordinals] are [self.ordinals]
    and [self.display_ordinals] as they are when the generator starts (the
    caller may just have rewritten them); the loop is the one over
    [enumerate(self.content_tree__children)]. Returns the children as they
    are after the pass and the rows the generator yields, in order. *)
Fixpoint update_ordinals_from (self_ordinals self_display_ordinals : list Z)
    (self : Tree) {struct self} : list Tree * list t :=
  match self with
  | Node _ cs =>
    (fix loop (i current_display_ordinal : Z) (cs : list Tree) {struct cs}
       : list Tree * list t :=
       match cs with
       | [] => ([], [])
       | child :: rest =>
           let node := row child in
           let correct_ordinals := self_ordinals ++ [i + 1] in
           let current_display_ordinal :=
             if does_display_ordinals node
             then current_display_ordinal + 1 else current_display_ordinal in
           let current_display_ordinals :=
             self_display_ordinals ++ [current_display_ordinal] in
           let changed :=
             negb (bool_decide (ordinals node = correct_ordinals))
             || bool_decide (display_ordinals node = [])
             || negb (bool_decide (display_ordinals node = current_display_ordinals)) in
           let node' :=
             if changed
             then set_ordinals node correct_ordinals
                    (self_display_ordinals ++ [current_display_ordinal])
             else node in
           let '(gcs', below) :=
             update_ordinals_from (ordinals node') (display_ordinals node') child in
           let '(rest', after) := loop (i + 1) current_display_ordinal rest in
           (Node node' gcs' :: rest',
            (if changed then [node'] else []) ++ below ++ after)
       end) 0 0 cs
  end.

Definition content_tree__update_ordinals (self : Tree) : list Tree * list t :=
  update_ordinals_from (ordinals (row self)) (display_ordinals (row self)) self.

(** [content_tree__store] of a node: [[self] + list(update_ordinals())] is
    handed to [bulk_update_with_history]. Returns the children after the
    pass and the rows written. *)
Definition store_rows (self : Tree) : list Tree * list t :=
  let '(cs', yielded) := content_tree__update_ordinals self in
  (cs', row self :: yielded).

(** [content_tree__descendants]: children, each followed by its own
    children. *)
Definition content_tree__descendants (self : Tree) : list Tree :=
  flat_map (fun child => child :: children child) (children self).

(** The [while ordinals:] walk shared by both [content_tree__get_descendant]
    methods: [node = node.content_tree__children[ordinals.pop(0) - 1]].
    [cs] are the children of the current node and [pos] its position below
    the starting node; the result is the position of the node reached (the
    empty position is the starting node itself). *)
Fixpoint walk (cs : list Tree) (pos : list nat) (ords : list Z) : result (list nat) :=
  match ords with
  | [] => Ok pos
  | o :: rest =>
      match py_index (imap (fun i c => (i, c)) cs) (o - 1) with
      | Ok (i, c) => walk (children c) (pos ++ [i]) rest
      | Raise e => Raise e
      end
  end.

(** The loaded node at a position below [self]. *)
Fixpoint subtree_at (self : Tree) (p : list nat) : option Tree :=
  match p with
  | [] => Some self
  | i :: p' =>
      match children self !! i with
      | Some c => subtree_at c p'
      | None => None
      end
  end.

(** [content_tree__get_descendant] of a loaded node, as a position below
    it. *)
Definition content_tree__get_descendant (self : Tree) (ords : list Z)
  : result (list nat) :=
  if negb (starts_with ords (ordinals (row self)))
  then Raise (ValueError "Ordinal value is not a descendant of self")
  else walk (children self) [] (drop (length (ordinals (row self))) ords).

(** [[f(x) for x in l]] where [f] may raise. *)
Fixpoint map_result {A B : Type} (f : A -> result B) (l : list A) : result (list B) :=
  match l with
  | [] => Ok []
  | x :: l' =>
      match f x with
      | Ok y => match map_result f l' with
                | Ok ys => Ok (y :: ys)
                | Raise e => Raise e
                end
      | Raise e => Raise e
      end
  end.

(** [content_tree__get_next_available_child_ordinals], after the load. *)
Definition content_tree__get_next_available_child_ordinals (self : Tree)
  : result (list Z * list Z) :=
  let prefix := ordinals (row self) in
  match map_result (fun x => py_last (ordinals (row x))) (children self) with
  | Raise e => Raise e
  | Ok all_last =>
      let next_ordinal := prefix ++ [py_max_or_0 all_last + 1] in
      match map_result (fun x => py_last (ordinals (row x)))
              (filter (fun x => does_display_ordinals (row x) = true) (children self)) with
      | Raise e => Raise e
      | Ok shown_last =>
          let next_display_ordinal := prefix ++ [py_max_or_0 shown_last + 1] in
          Ok (next_ordinal, next_display_ordinal)
      end
  end.

(** *** Positions in a forest under construction

    While a tree is being loaded, a Python object is identified by its
    position: the list of child indices leading to it. The empty position
    is the owner of the forest itself. *)

Fixpoint children_at (forest : list Tree) (p : list nat) : list Tree :=
  match p with
  | [] => forest
  | i :: p' =>
      match forest !! i with
      | Some x => children_at (children x) p'
      | None => []
      end
  end.

Fixpoint row_at (forest : list Tree) (p : list nat) : option t :=
  match p with
  | [] => None
  | i :: p' =>
      match forest !! i with
      | Some x => match p' with
                  | [] => Some (row x)
                  | _ => row_at (children x) p'
                  end
      | None => None
      end
  end.

(** [parent._content_tree__children.append(x)] for the object at [p]. *)
Fixpoint append_at (forest : list Tree) (p : list nat) (x : Tree) : list Tree :=
  match p with
  | [] => forest ++ [x]
  | i :: p' =>
      match forest !! i with
      | Some c => <[i := Node (row c) (append_at (children c) p' x)]> forest
      | None => forest
      end
  end.

(** Postgres array comparison, used by [ordering = ["ordinals"]]. *)
Fixpoint ordinals_leb (a b : list Z) : bool :=
  match a, b with
  | [], _ => true
  | _ :: _, [] => false
  | x :: a', y :: b' => (x <? y) || ((x =? y) && ordinals_leb a' b')
  end.

Definition by_ordinals (x y : t) : Prop := ordinals_leb (ordinals x) (ordinals y) = true.

#[export] Instance by_ordinals_dec (x y : t) : Decision (by_ordinals x y).
Proof. unfold by_ordinals. apply _. Defined.

Definition order_by_ordinals (rows : list t) : list t := merge_sort by_ordinals rows.

(** [self.contents]: the rows of the same casebook whose first ordinals
    are [self.ordinals], [self] excluded, in the model's default order. *)
Definition contents (table : list t) (self : t) : list t :=
  order_by_ordinals
    (filter (fun n => casebook_id n = casebook_id self
                      /\ starts_with (ordinals n) (ordinals self) = true
                      /\ id n <> id self) table).

(** State of the loop of [content_tree__load]: the objects seen so far
    (a forest: [self] is root 0, a node attached to nothing would be a
    further root), the stack [parents] (top first), [parent], [last_child]. *)
Record load_state : Type := mk_load_state {
  forest : list Tree;
  parents : list (option (list nat));
  parent : option (list nat);
  last_child : option (list nat);
}.

(** [while not node.content_tree__is_descendant_of(parent): parent = parents.pop()] *)
Fixpoint pop_parents (forest : list Tree) (node : t) (parent : option (list nat))
    (parents : list (option (list nat))) {struct parents}
  : result (list nat * list (option (list nat))) :=
  match parent with
  | None => Raise AttributeError
  | Some p =>
      match row_at forest p with
      | None => Raise AttributeError
      | Some pr =>
          if content_tree__is_descendant_of node pr then Ok (p, parents)
          else match parents with
               | [] => Raise IndexError
               | top :: below => pop_parents forest node top below
               end
      end
  end.

Definition load_step (st : load_state) (node : t) : result load_state :=
  let under_last :=
    match last_child st with
    | Some lc => match row_at (forest st) lc with
                 | Some lr => content_tree__is_descendant_of node lr
                 | None => false
                 end
    | None => false
    end in
  let moved : result (option (list nat) * list (option (list nat))) :=
    if under_last then Ok (last_child st, parent st :: parents st)
    else match parent st with
         | Some _ =>
             match pop_parents (forest st) node (parent st) (parents st) with
             | Ok (p, ps) => Ok (Some p, ps)
             | Raise e => Raise e
             end
         | None => Ok (None, parents st)
         end in
  match moved with
  | Raise e => Raise e
  | Ok (parent', parents') =>
      match parent' with
      | Some p =>
          Ok (mk_load_state (append_at (forest st) p (Node node []))
                parents' parent'
                (Some (p ++ [length (children_at (forest st) p)])))
      | None =>
          Ok (mk_load_state (forest st ++ [Node node []])
                parents' None (Some [length (forest st)]))
      end
  end.

Fixpoint load_loop (st : load_state) (nodes : list t) : result load_state :=
  match nodes with
  | [] => Ok st
  | node :: rest =>
      match load_step st node with
      | Ok st' => load_loop st' rest
      | Raise e => Raise e
      end
  end.

(** [content_tree__load]: the loaded [self]. *)
Definition content_tree__load (table : list t) (self : t) : result Tree :=
  match load_loop (mk_load_state [] [] None None) (self :: contents table self) with
  | Ok st => match forest st with
             | x :: _ => Ok x
             | [] => Raise AttributeError
             end
  | Raise e => Raise e
  end.

(** [bulk_update_with_history(rows, ContentNode, ["ordinals",
    "display_ordinals"])]: every object handed over overwrites these two
    columns of the row with its primary key (the SQL is one
    [CASE WHEN pk = ... THEN ...] per column, so the first object with a
    given primary key is the one that counts). *)
Definition bulk_update_ordinals (table : list t) (rows : list t) : list t :=
  (fun old =>
     match find (fun r => bool_decide (id r = id old)) rows with
     | Some r => set_ordinals old (ordinals r) (display_ordinals r)
     | None => old
     end) <$> table.

(** [content_tree__store]: the rows written and the table afterwards. *)
Definition content_tree__store (table : list t) (self : Tree)
  : Tree * list t * list t :=
  let '(cs', to_update) := store_rows self in
  (Node (row self) cs', to_update, bulk_update_ordinals table to_update).

(** [content_tree__repair]: load, then store. *)
Definition content_tree__repair (table : list t) (self : t)
  : result (Tree * list t * list t) :=
  match content_tree__load table self with
  | Ok loaded => Ok (content_tree__store table loaded)
  | Raise e => Raise e
  end.

(** *** Vocabulary for the statements *)

(** Induction on loaded trees. *)
Definition Tree_ind (P : Tree -> Prop)
    (step : forall r cs, Forall P cs -> P (Node r cs)) : forall x, P x :=
  fix go (x : Tree) : P x :=
    match x with
    | Node r cs =>
        step r cs
          ((fix go_list (l : list Tree) : Forall P l :=
              match l with
              | [] => Forall_nil_2 P
              | y :: l' => Forall_cons_2 P y l' (go y) (go_list l')
              end) cs)
    end.

(** The rows of a loaded tree, parents before children, siblings in
    display order. *)
Fixpoint rows (x : Tree) : list t :=
  match x with
  | Node r cs => r :: flat_map rows cs
  end.

Definition forest_rows (forest : list Tree) : list t := flat_map rows forest.

(** The loop of [update_ordinals_from] from the [i]-th child on. *)
Fixpoint update_ordinals_loop (self_ordinals self_display_ordinals : list Z)
    (i current_display_ordinal : Z) (cs : list Tree) : list Tree * list t :=
  match cs with
  | [] => ([], [])
  | child :: rest =>
      let node := row child in
      let correct_ordinals := self_ordinals ++ [i + 1] in
      let current_display_ordinal :=
        if does_display_ordinals node
        then current_display_ordinal + 1 else current_display_ordinal in
      let current_display_ordinals :=
        self_display_ordinals ++ [current_display_ordinal] in
      let changed :=
        negb (bool_decide (ordinals node = correct_ordinals))
        || bool_decide (display_ordinals node = [])
        || negb (bool_decide (display_ordinals node = current_display_ordinals)) in
      let node' :=
        if changed
        then set_ordinals node correct_ordinals
               (self_display_ordinals ++ [current_display_ordinal])
        else node in
      let '(gcs', below) :=
        update_ordinals_from (ordinals node') (display_ordinals node') child in
      let '(rest', after) :=
        update_ordinals_loop self_ordinals self_display_ordinals
          (i + 1) current_display_ordinal rest in
      (Node node' gcs' :: rest',
       (if changed then [node'] else []) ++ below ++ after)
  end.

(** The path invariant below a node with ordinals [o], for its children
    from index [i] on: the child at index [j] has ordinals [o ++ [j + 1]],
    and so on below it. *)
Inductive ordered_from (o : list Z) : Z -> list Tree -> Prop :=
| ordered_nil i : ordered_from o i []
| ordered_cons i r gcs rest :
    ordinals r = o ++ [i + 1] ->
    ordered_from (ordinals r) 0 gcs ->
    ordered_from o (i + 1) rest ->
    ordered_from o i (Node r gcs :: rest).

(** [m] is the maximum of [l], or 0 when [l] is empty. *)
Definition max_or_0 (l : list Z) (m : Z) : Prop :=
  (l = [] /\ m = 0) \/ (m ∈ l /\ forall x, x ∈ l -> x <= m).

(** Strictly before, in the order of the ordinals. *)
Definition row_lt (x y : t) : Prop :=
  ordinals_leb (ordinals x) (ordinals y) = true /\ ordinals x <> ordinals y.

(** The rows of [after] that differ from the row at the same place in
    [before]. *)
Definition changed_rows (before after : list t) : list t :=
  omap (fun p : t * t => if decide (p.1 = p.2) then None else Some p.2)
       (zip before after).

(** A position that leads to an object of the forest (the empty position
    is its owner). *)
Fixpoint valid_pos (forest : list Tree) (p : list nat) : Prop :=
  match p with
  | [] => True
  | i :: p' =>
      match forest !! i with
      | Some c => valid_pos (children c) p'
      | None => False
      end
  end.


(** The local variables of the loop body of [content_tree__update_ordinals],
    as functions of the child's row: the display counter after the child,
    the test of the [if], and the row after the iteration. *)
Definition next_display_ordinal (current_display_ordinal : Z) (node : t) : Z :=
  if does_display_ordinals node
  then current_display_ordinal + 1 else current_display_ordinal.

Definition needs_update (correct_ordinals current_display_ordinals : list Z) (node : t)
  : bool :=
  negb (bool_decide (ordinals node = correct_ordinals))
  || bool_decide (display_ordinals node = [])
  || negb (bool_decide (display_ordinals node = current_display_ordinals)).

Definition updated_row (correct_ordinals current_display_ordinals : list Z) (node : t) : t :=
  if needs_update correct_ordinals current_display_ordinals node
  then set_ordinals node correct_ordinals current_display_ordinals
  else node.

(** The number of the trees whose root displays its ordinals. *)
Definition shown (cs : list Tree) : Z :=
  Z.of_nat (length (filter (fun c => does_display_ordinals (row c) = true) cs)).

(** The ordinals that lead from a node to the object at position [p]
    below it, when the path invariant holds. *)
Definition path_ordinals (p : list nat) : list Z := (fun i => Z.of_nat i + 1) <$> p.

(** The invariant of the display ordinals below a node with display
    ordinals [sd], for its children from the one after which the counter
    is [d]: a child has [sd] followed by the counter after it. *)
Inductive displayed_from (sd : list Z) : Z -> list Tree -> Prop :=
| displayed_nil d : displayed_from sd d []
| displayed_cons d r gcs rest :
    display_ordinals r = sd ++ [next_display_ordinal d r] ->
    displayed_from (display_ordinals r) 0 gcs ->
    displayed_from sd (next_display_ordinal d r) rest ->
    displayed_from sd d (Node r gcs :: rest).

(** While loading the tree of a casebook, every position kept in the
    dictionary is the position of a node of the forest built so far. *)
Definition positions_valid (st : gmap (list Z) (list nat) * list Tree) : Prop :=
  forall key pos, st.1 !! key = Some pos -> valid_pos st.2 pos.

(** The pass only rewrites the two ordinal columns. *)
Definition same_but_ordinals (r r' : t) : Prop :=
  r' = set_ordinals r (ordinals r') (display_ordinals r').

(** The rows after the pass are the rows before it with new ordinals, in
    the same order; the rows yielded are those that changed. *)
Definition pass_spec (before after : list Tree) (yielded : list t) : Prop :=
  Forall2 same_but_ordinals (forest_rows before) (forest_rows after)
  /\ yielded = changed_rows (forest_rows before) (forest_rows after).

End ContentNode.

(** ** Annotations *)

Module ContentAnnotation.

Record t : Type := mk {
  id : Z;
  kind : string;
  content : option string;
  global_start_offset : option Z;
  global_end_offset : option Z;
  resource : Z;   (* primary key of the owning ContentNode *)
}.

#[export] Instance t_eq_dec : EqDecision t.
Proof. solve_decision. Defined.

Definition set_offsets (a : t) (s e : option Z) : t :=
  mk (id a) (kind a) (content a) s e (resource a).

(** The sentinel written for an annotation whose text has gone. *)
Definition is_invalid (a : t) : Prop :=
  global_start_offset a = Some (-1) /\ global_end_offset a = Some (-1).

#[export] Instance is_invalid_dec (a : t) : Decision (is_invalid a).
Proof. unfold is_invalid. apply _. Defined.

(** [ContentAnnotationQuerySet.valid]:
    [self.exclude(global_start_offset=-1, global_end_offset=-1)]. *)
Definition valid (queryset : list t) : list t :=
  filter (fun a => ~ is_invalid a) queryset.

(** What [update_annotations] uses of [main.differ.AnnotationUpdater], whose
    source is not part of this development: the object built from the two
    texts answers [get_first_delta_offset()] and [adjust_offset(offset)].
    The offset handed to [adjust_offset] comes from a nullable column, and
    the call may raise. *)
Record AnnotationUpdater : Type := mk_updater {
  get_first_delta_offset : Z;
  adjust_offset : option Z -> result Z;
}.

(** [queryset.filter(global_end_offset__gte=x)]: a NULL offset never
    satisfies the comparison. *)
Definition end_offset_gte (x : Z) (a : t) : bool :=
  match global_end_offset a with
  | Some e => x <=? e
  | None => false
  end.

(** The body of the [for annotation in annotation_query] loop: [None] for
    [continue], [Some a'] when the changed annotation is appended to
    [to_update]. *)
Definition update_one (updater : AnnotationUpdater) (annotation : t)
  : result (option t) :=
  match adjust_offset updater (global_start_offset annotation) with
  | Raise e => Raise e
  | Ok new_start =>
      match adjust_offset updater (global_end_offset annotation) with
      | Raise e => Raise e
      | Ok new_end =>
          if bool_decide (Some new_start = global_start_offset annotation)
             && bool_decide (Some new_end = global_end_offset annotation)
          then Ok None
          else if bool_decide (new_start = new_end)
               then Ok (Some (set_offsets annotation (Some (-1)) (Some (-1))))
               else Ok (Some (set_offsets annotation (Some new_start) (Some new_end)))
      end
  end.

Fixpoint collect_updates (updater : AnnotationUpdater) (annotation_query : list t)
  : result (list t) :=
  match annotation_query with
  | [] => Ok []
  | annotation :: rest =>
      match update_one updater annotation with
      | Raise e => Raise e
      | Ok changed =>
          match collect_updates updater rest with
          | Raise e => Raise e
          | Ok to_update =>
              Ok (match changed with Some a' => a' :: to_update | None => to_update end)
          end
      end
  end.

(** [bulk_update_with_history(to_update, ContentAnnotation,
    ["global_start_offset", "global_end_offset"])]. *)
Definition bulk_update_offsets (table : list t) (rows : list t) : list t :=
  (fun old =>
     match find (fun r => bool_decide (id r = id old)) rows with
     | Some r => set_offsets old (global_start_offset r) (global_end_offset r)
     | None => old
     end) <$> table.

Section update_annotations.
(** [text_from_html] (lxml) and the constructor of [AnnotationUpdater]
    are external to the modelled file. *)
Variable text_from_html : string -> string.
Variable make_updater : string -> string -> AnnotationUpdater.

(** [update_annotations(queryset, before_html, after_html)], run against
    the annotation [table]. Returns the list [to_update] and the table
    after the bulk update; when the method raises nothing is written. *)
Definition update_annotations (table : list t) (queryset : list t)
    (before_html after_html : string) : result (list t * list t) :=
  let before := text_from_html before_html in
  let after := text_from_html after_html in
  if bool_decide (before = after) then Ok ([], table)
  else
    let updater := make_updater before after in
    let annotation_query :=
      filter (fun a => end_offset_gte (get_first_delta_offset updater) a = true) queryset in
    match collect_updates updater annotation_query with
    | Raise e => Raise e
    | Ok to_update =>
        Ok (to_update,
            match to_update with
            | [] => table
            | _ => bulk_update_offsets table to_update
            end)
    end.
End update_annotations.

End ContentAnnotation.

(** ** [EditTrackedModel]: which fields have changed since the last save *)

Module EditTrackedModel.
Section fields.
(** The values of the fields. *)
Context {V : Type} `{EqDecision V}.

(** An instance: the class attribute [tracked_fields], the primary key, the
    fields present in [self.__dict__] (a deferred field that was never
    fetched or assigned is absent), and [original_state]. *)
Record t : Type := mk {
  tracked_fields : list string;
  pk : option Z;
  dict : gmap string V;
  original_state : gmap string V;
}.

(** [reset_original_state]:
    [{k: getattr(self, k) for k in self.tracked_fields if k in self.__dict__}] *)
Definition reset_original_state (self : t) : t :=
  mk (tracked_fields self) (pk self) (dict self)
     (filter (fun kv : string * V => kv.1 ∈ tracked_fields self) (dict self)).

(** [setattr(self, field_name, v)] *)
Definition setattr (self : t) (field_name : string) (v : V) : t :=
  mk (tracked_fields self) (pk self) (<[field_name := v]> (dict self))
     (original_state self).

(** [not self.pk] *)
Definition unsaved (self : t) : bool :=
  match pk self with
  | Some k => bool_decide (k = 0)
  | None => true
  end.

(** [has_changed(field_name)] *)
Definition has_changed (self : t) (field_name : string) : result bool :=
  if negb (bool_decide (field_name ∈ tracked_fields self))
  then Raise (ValueError "is not in tracked_fields")
  else if unsaved self then Ok true
  else match dict self !! field_name with
       | None => Ok false
       | Some current =>
           match original_state self !! field_name with
           | None => Ok true
           | Some original => Ok (negb (bool_decide (original = current)))
           end
       end.
End fields.
Arguments t V : clear implicits.
End EditTrackedModel.

(** ** Annotated resources: TextBlock and LegalDocument *)

Module AnnotatedModel.

(** An in-memory instance of an annotated resource: its class name, primary
    key, the current [content] ([None]: the field is deferred and was never
    assigned) and [original_state["content"]] ([None]: no entry). *)
Record t : Type := mk {
  class_name : string;
  pk : option Z;
  content : option string;
  original_content : option string;
}.

(** [has_changed("content")] of [EditTrackedModel]. *)
Definition has_changed_content (self : t) : bool :=
  match pk self with
  | None => true
  | Some k =>
      if bool_decide (k = 0) then true
      else match content self with
           | None => false
           | Some c =>
               match original_content self with
               | None => true
               | Some o => negb (bool_decide (o = c))
               end
           end
  end.

Definition pk_truthy (self : t) : bool :=
  match pk self with
  | Some k => negb (bool_decide (k = 0))
  | None => false
  end.

(** [related_annotations]: valid annotations of the nodes that wrap this
    resource. *)
Definition related_annotations (nodes : list ContentNode.t)
    (annotations : list ContentAnnotation.t) (self : t) : list ContentAnnotation.t :=
  filter (fun a =>
            existsb (fun n =>
                       bool_decide (ContentNode.id n = ContentAnnotation.resource a
                                    /\ ContentNode.resource_id n = pk self
                                    /\ ContentNode.resource_type n = Some (class_name self)))
                    nodes = true)
         (ContentAnnotation.valid annotations).

Section save.
Variable text_from_html : string -> string.
Variable make_updater : string -> string -> ContentAnnotation.AnnotationUpdater.

(** [AnnotatedModel.save], as far as the annotation table goes: the
    reconciliation pass, then [super().save()] (which writes the
    resource's own row and refreshes [original_state]). *)
Definition save (nodes : list ContentNode.t) (annotations : list ContentAnnotation.t)
    (self : t) : result (t * list ContentAnnotation.t) :=
  let saved := mk (class_name self) (pk self) (content self) (content self) in
  if pk_truthy self && has_changed_content self then
    match original_content self, content self with
    | Some before_html, Some after_html =>
        match ContentAnnotation.update_annotations text_from_html make_updater
                annotations (related_annotations nodes annotations self)
                before_html after_html with
        | Ok (_, annotations') => Ok (saved, annotations')
        | Raise e => Raise e
        end
    | _, _ => Raise KeyError
    end
  else Ok (saved, annotations).

(** A sequence of saves of (possibly different) resource instances; it
    stops at the first one that raises. Returns the annotation table
    reached. *)
Fixpoint saves (nodes : list ContentNode.t) (annotations : list ContentAnnotation.t)
    (instances : list t) : result unit * list ContentAnnotation.t :=
  match instances with
  | [] => (Ok tt, annotations)
  | self :: rest =>
      match save nodes annotations self with
      | Ok (_, annotations') => saves nodes annotations' rest
      | Raise e => (Raise e, annotations)
      end
  end.
End save.

End AnnotatedModel.

(** ** Resource bodies, edit log, collaborators

    The columns that the modelled methods never read or write (timestamps,
    search metadata, ...) are left out of the rows. *)

Module TextBlock.
Record t : Type := mk {
  id : Z;
  name : string;
  description : option string;
  content : string;
  doc_class : option string;
}.
#[export] Instance t_eq_dec : EqDecision t.
Proof. solve_decision. Defined.
End TextBlock.

Module Link.
Record t : Type := mk {
  id : Z;
  name : option string;
  description : option string;
  url : string;
  public : option bool;
}.
#[export] Instance t_eq_dec : EqDecision t.
Proof. solve_decision. Defined.
End Link.

Module LegalDocument.
Record t : Type := mk {
  id : Z;
  name : option string;
  content : string;
}.
#[export] Instance t_eq_dec : EqDecision t.
Proof. solve_decision. Defined.
End LegalDocument.

Module CasebookEditLog.

Module ChangeType.
Inductive t : Type := REMOVED | ADDED | EDITED | ANNOTATED | ORIGINAL_PUBLISH.
Definition value (c : t) : string :=
  match c with
  | REMOVED => "Removed"
  | ADDED => "Added"
  | EDITED => "Edited"
  | ANNOTATED => "Annotated"
  | ORIGINAL_PUBLISH => "First"
  end.
End ChangeType.

Record t : Type := mk {
  id : option Z;          (* None until the row is created *)
  casebook : Z;
  change : string;
  content : option Z;     (* the ContentNode the entry points at *)
}.
#[export] Instance t_eq_dec : EqDecision t.
Proof. solve_decision. Defined.
End CasebookEditLog.

Module ContentCollaborator.
Record t : Type := mk {
  id : Z;
  has_attribution : bool;
  can_edit : bool;
  user : Z;
  casebook : option Z;
}.
#[export] Instance t_eq_dec : EqDecision t.
Proof. solve_decision. Defined.
End ContentCollaborator.

(** The body a resource node wraps, as [prefetch_resources] hands it over. *)
Inductive Body : Type :=
| TextBlockBody (b : TextBlock.t)
| LinkBody (b : Link.t)
| LegalDocumentBody (b : LegalDocument.t).

(** [body.url]: only links have one. *)
Definition body_url (b : option Body) : result string :=
  match b with
  | Some (LinkBody l) => Ok (Link.url l)
  | _ => Raise AttributeError
  end.

(** [body.content]: text blocks and legal documents have one. *)
Definition body_content (b : option Body) : result string :=
  match b with
  | Some (TextBlockBody t) => Ok (TextBlock.content t)
  | Some (LegalDocumentBody d) => Ok (LegalDocument.content d)
  | _ => Raise AttributeError
  end.

(** The HTML cleansing steps of [cleanse_html_field], which live outside
    the modelled file. *)
Record Cleanser : Type := mk_cleanser {
  normalize_newlines : string -> string;
  sanitize : string -> string;
  strip_trailing_block_level_whitespace : string -> string;
}.

(** One primary key past the largest in use: the model's stand-in for the
    value the database sequence hands out. *)
Definition next_id (ids : list Z) : Z := foldr Z.max 0 ids + 1.

(** ** Casebooks *)

Module LifeCycle.

Inductive t : Type :=
| PRIVATELY_EDITING
| NEWLY_CLONED
| DRAFT
| PUBLISHED
| ARCHIVED
| REVISING
| PREVIOUS_SAVE.

#[export] Instance t_eq_dec : EqDecision t.
Proof. solve_decision. Defined.

Definition value (s : t) : string :=
  match s with
  | PRIVATELY_EDITING => "Fresh"
  | NEWLY_CLONED => "Clone"
  | DRAFT => "Draft"
  | PUBLISHED => "Public"
  | ARCHIVED => "Archived"
  | REVISING => "Revising"
  | PREVIOUS_SAVE => "Previous"
  end.

Definition all : list t :=
  [PRIVATELY_EDITING; NEWLY_CLONED; DRAFT; PUBLISHED; ARCHIVED; REVISING; PREVIOUS_SAVE].

End LifeCycle.

Module Casebook.

Import LifeCycle.

Record t : Type := mk {
  id : Z;
  title : string;
  subtitle : option string;
  headnote : option string;
  description : option string;
  state : string;
  draft : option Z;            (* draft_id *)
  provenance : list Z;
  old_casebook : option Z;
  common_title : option Z;
}.

#[export] Instance t_eq_dec : EqDecision t.
Proof. solve_decision. Defined.

(** *** The content tree below a casebook *)

(** [self.contents.order_by("ordinals").all()] *)
Definition contents (table : list ContentNode.t) (self : t) : list ContentNode.t :=
  ContentNode.order_by_ordinals
    (filter (fun n => ContentNode.casebook_id n = Some (id self)) table).

(** The [while parent_key and parent_key not in ordinal_to_node_map] loop.
    [rev_parent_ords] is [parent_ords] reversed, so that [pop()] is the
    tail; the result is the position of the parent found, the empty
    position standing for the casebook. The dictionary is keyed by
    [".".join(map(str, ordinals))], which is one-to-one on lists of
    integers: the model keys it by the list itself. *)
Fixpoint find_parent (ordinal_to_node_map : gmap (list Z) (list nat))
    (rev_parent_ords : list Z) : list nat :=
  match rev_parent_ords with
  | [] => []
  | _ :: shorter =>
      match ordinal_to_node_map !! reverse rev_parent_ords with
      | Some pos => pos
      | None => find_parent ordinal_to_node_map shorter
      end
  end.

(** One iteration of the loop of [content_tree__load]. The node is entered
    in the dictionary under its own ordinals; its parent is looked up under
    strictly shorter keys. *)
Definition load_step (st : gmap (list Z) (list nat) * list ContentNode.Tree)
    (content_node : ContentNode.t) : gmap (list Z) (list nat) * list ContentNode.Tree :=
  let '(ordinal_to_node_map, top_level_children) := st in
  let ords := ContentNode.ordinals content_node in
  let parent := find_parent ordinal_to_node_map
                  (reverse (take (length ords - 1) ords)) in
  let pos := parent ++ [length (ContentNode.children_at top_level_children parent)] in
  (<[ords := pos]> ordinal_to_node_map,
   ContentNode.append_at top_level_children parent (ContentNode.Node content_node [])).

(** [content_tree__load]: the top-level children of the casebook. *)
Definition content_tree__load (table : list ContentNode.t) (self : t)
  : list ContentNode.Tree :=
  (foldl load_step (∅, []) (contents table self)).2.

(** [content_tree__update_ordinals] of the casebook: the top-level loop;
    below it the generator of the nodes takes over. *)
Fixpoint update_ordinals_loop (i current_display_ordinal : Z)
    (cs : list ContentNode.Tree) : list ContentNode.Tree * list ContentNode.t :=
  match cs with
  | [] => ([], [])
  | child :: rest =>
      let node := ContentNode.row child in
      let correct_ordinals := [i + 1] in
      let current_display_ordinal :=
        if ContentNode.does_display_ordinals node
        then current_display_ordinal + 1 else current_display_ordinal in
      let changed :=
        negb (bool_decide (ContentNode.ordinals node = correct_ordinals))
        || bool_decide (ContentNode.display_ordinals node = [])
        || negb (bool_decide (last (ContentNode.display_ordinals node)
                              = Some current_display_ordinal)) in
      let node' :=
        if changed
        then ContentNode.set_ordinals node correct_ordinals [current_display_ordinal]
        else node in
      let '(gcs', below) :=
        ContentNode.update_ordinals_from (ContentNode.ordinals node')
          (ContentNode.display_ordinals node') child in
      let '(rest', after) := update_ordinals_loop (i + 1) current_display_ordinal rest in
      (ContentNode.Node node' gcs' :: rest',
       (if changed then [node'] else []) ++ below ++ after)
  end.

Definition content_tree__update_ordinals (top_level_children : list ContentNode.Tree)
  : list ContentNode.Tree * list ContentNode.t :=
  update_ordinals_loop 0 0 top_level_children.

(** [content_tree__store]: the children afterwards, the rows written and
    the table afterwards. *)
Definition content_tree__store (table : list ContentNode.t)
    (top_level_children : list ContentNode.Tree)
  : list ContentNode.Tree * list ContentNode.t * list ContentNode.t :=
  let '(cs', contents) := content_tree__update_ordinals top_level_children in
  (cs', contents, ContentNode.bulk_update_ordinals table contents).

(** [content_tree__repair] *)
Definition content_tree__repair (table : list ContentNode.t) (self : t)
  : list ContentNode.Tree * list ContentNode.t * list ContentNode.t :=
  content_tree__store table (content_tree__load table self).

(** [content_tree__get_descendant]: the position reached, the empty
    position being the casebook. *)
Definition content_tree__get_descendant (top_level_children : list ContentNode.Tree)
    (ords : list Z) : result (list nat) :=
  ContentNode.walk top_level_children [] ords.

(** [content_tree__get_next_available_child_ordinals], after the load. *)
Definition content_tree__get_next_available_child_ordinals
    (top_level_children : list ContentNode.Tree) : result (list Z * list Z) :=
  match ContentNode.map_result (fun x => py_last (ContentNode.ordinals (ContentNode.row x)))
          top_level_children with
  | Raise e => Raise e
  | Ok all_last =>
      match ContentNode.map_result
              (fun x => py_last (ContentNode.display_ordinals (ContentNode.row x)))
              top_level_children with
      | Raise e => Raise e
      | Ok all_display_last =>
          Ok ([py_max_or_0 all_last + 1], [py_max_or_0 all_display_last + 1])
      end
  end.

(** The test of the [if] in the loop body of the casebook's
    [content_tree__update_ordinals], and the row after the iteration. *)
Definition needs_update (i current_display_ordinal : Z) (node : ContentNode.t) : bool :=
  negb (bool_decide (ContentNode.ordinals node = [i + 1]))
  || bool_decide (ContentNode.display_ordinals node = [])
  || negb (bool_decide (last (ContentNode.display_ordinals node)
                        = Some current_display_ordinal)).

Definition updated_row (i current_display_ordinal : Z) (node : ContentNode.t)
  : ContentNode.t :=
  if needs_update i current_display_ordinal node
  then ContentNode.set_ordinals node [i + 1] [current_display_ordinal]
  else node.

(** *** The database *)

Record DB : Type := mk_db {
  casebooks : list t;
  content_nodes : list ContentNode.t;
  annotations : list ContentAnnotation.t;
  text_blocks : list TextBlock.t;
  links : list Link.t;
  legal_documents : list LegalDocument.t;
  edit_log : list CasebookEditLog.t;
  collaborators : list ContentCollaborator.t;
}.

Definition with_casebooks (db : DB) (cs : list t) : DB :=
  mk_db cs (content_nodes db) (annotations db) (text_blocks db) (links db)
    (legal_documents db) (edit_log db) (collaborators db).

(** *** Life cycle *)

(** The argument of [can_transition_to] and [transition_to]: a member of
    [LifeCycle] or a plain string;
    [(hasattr(target, "value") and target.value) or target]. *)
Inductive target : Type :=
| Member (s : LifeCycle.t)
| Value (s : string).

Definition target_value (x : target) : string :=
  match x with
  | Member s => value s
  | Value s => s
  end.

Definition transition_options : list (string * string * bool) :=
  [ (value PRIVATELY_EDITING, value NEWLY_CLONED, false);
    (value PRIVATELY_EDITING, value DRAFT, false);
    (value PRIVATELY_EDITING, value PUBLISHED, true);
    (value PRIVATELY_EDITING, value REVISING, false);
    (value PRIVATELY_EDITING, value ARCHIVED, true);
    (value PRIVATELY_EDITING, value PREVIOUS_SAVE, true);
    (value NEWLY_CLONED, value PRIVATELY_EDITING, true);
    (value NEWLY_CLONED, value DRAFT, false);
    (value NEWLY_CLONED, value PUBLISHED, true);
    (value NEWLY_CLONED, value REVISING, false);
    (value NEWLY_CLONED, value ARCHIVED, true);
    (value NEWLY_CLONED, value PREVIOUS_SAVE, false);
    (value DRAFT, value PRIVATELY_EDITING, false);
    (value DRAFT, value NEWLY_CLONED, false);
    (value DRAFT, value PUBLISHED, true);
    (value DRAFT, value REVISING, false);
    (value DRAFT, value ARCHIVED, false);
    (value DRAFT, value PREVIOUS_SAVE, true);
    (value PUBLISHED, value PRIVATELY_EDITING, true);
    (value PUBLISHED, value NEWLY_CLONED, false);
    (value PUBLISHED, value DRAFT, false);
    (value PUBLISHED, value REVISING, true);
    (value PUBLISHED, value ARCHIVED, false);
    (value PUBLISHED, value PREVIOUS_SAVE, false);
    (value REVISING, value PRIVATELY_EDITING, true);
    (value REVISING, value NEWLY_CLONED, false);
    (value REVISING, value DRAFT, false);
    (value REVISING, value PUBLISHED, true);
    (value REVISING, value ARCHIVED, false);
    (value REVISING, value PREVIOUS_SAVE, false);
    (value ARCHIVED, value PRIVATELY_EDITING, true);
    (value ARCHIVED, value NEWLY_CLONED, false);
    (value ARCHIVED, value DRAFT, false);
    (value ARCHIVED, value PUBLISHED, false);
    (value ARCHIVED, value REVISING, false);
    (value ARCHIVED, value PREVIOUS_SAVE, false);
    (value PREVIOUS_SAVE, value PRIVATELY_EDITING, false);
    (value PREVIOUS_SAVE, value NEWLY_CLONED, false);
    (value PREVIOUS_SAVE, value DRAFT, false);
    (value PREVIOUS_SAVE, value PUBLISHED, false);
    (value PREVIOUS_SAVE, value REVISING, false);
    (value PREVIOUS_SAVE, value ARCHIVED, false) ].

(** [transition_options[(current, target)]] *)
Definition transition_option (current target_value : string) : result bool :=
  match find (fun e : string * string * bool =>
                bool_decide (e.1.1 = current /\ e.1.2 = target_value))
             transition_options with
  | Some e => Ok e.2
  | None => Raise KeyError
  end.

Definition can_transition_to (self : t) (tgt : target) : result bool :=
  let target_value := target_value tgt in
  if bool_decide (state self = target_value) then Ok false
  else transition_option (state self) target_value.

Definition is_draft (self : t) : bool :=
  bool_decide (state self = value DRAFT).

(** *** Saving a casebook *)

(** [run_if_field_changed] of [cleanse_html_field] on the headnote.
    [original] is [original_state["headnote"]]; the instance has a primary
    key iff [is_saved]. *)
Definition run_if_field_changed (func : string -> string) (is_saved : bool)
    (original value : option string) : option string :=
  match value with
  | Some v =>
      if negb (bool_decide (v = ""%string))
         && (negb is_saved || negb (bool_decide (original = value)))
      then Some (func v) else value
  | None => None
  end.

(** [cleanse_html_field(self, "headnote", True)] *)
Definition cleanse_headnote (cl : Cleanser) (is_saved : bool)
    (original value : option string) : option string :=
  let v1 := run_if_field_changed (normalize_newlines cl) is_saved original value in
  let v2 := run_if_field_changed (sanitize cl) is_saved original v1 in
  run_if_field_changed (strip_trailing_block_level_whitespace cl) is_saved original v2.

Definition set_headnote (c : t) (h : option string) : t :=
  mk (id c) (title c) (subtitle c) h (description c) (state c) (draft c)
     (provenance c) (old_casebook c) (common_title c).

Definition set_state (c : t) (st : string) : t :=
  mk (id c) (title c) (subtitle c) (headnote c) (description c) st (draft c)
     (provenance c) (old_casebook c) (common_title c).

(** The row with the primary key of [row] is overwritten; when there is
    none the row is inserted. *)
Definition write_row (table : list t) (row : t) : list t :=
  if existsb (fun c => bool_decide (id c = id row)) table
  then (fun c => if bool_decide (id c = id row) then row else c) <$> table
  else table ++ [row].

(** [save()] of an instance that has a primary key and whose
    [original_state["headnote"]] is [original]: the headnote is cleansed,
    the row written. Returns the instance as it is afterwards. *)
Definition save (cl : Cleanser) (db : DB) (original : option string) (self : t) : t * DB :=
  let self' := set_headnote self (cleanse_headnote cl true original (headnote self)) in
  (self', with_casebooks db (write_row (casebooks db) self')).

(** *** Merging a draft *)

(** [node.resource] after [prefetch_resources()]. *)
Definition resource_of (db : DB) (n : ContentNode.t) : option Body :=
  match ContentNode.resource_id n with
  | Some k =>
      if bool_decide (k = 0) then None
      else if bool_decide (ContentNode.resource_type n = Some "TextBlock"%string)
      then TextBlockBody <$> find (fun b => bool_decide (TextBlock.id b = k)) (text_blocks db)
      else if bool_decide (ContentNode.resource_type n = Some "Link"%string)
      then LinkBody <$> find (fun b => bool_decide (Link.id b = k)) (links db)
      else if bool_decide (ContentNode.resource_type n = Some "LegalDocument"%string)
      then LegalDocumentBody
             <$> find (fun b => bool_decide (LegalDocument.id b = k)) (legal_documents db)
      else None
  | None => None
  end.

(** [node.annotations.all()] *)
Definition annotations_of (db : DB) (n : ContentNode.t) : list ContentAnnotation.t :=
  filter (fun a => ContentAnnotation.resource a = ContentNode.id n) (annotations db).

(** [{(x.global_start_offset, x.global_end_offset, x.content) for x in ...}] *)
Definition annotation_set (db : DB) (n : ContentNode.t)
  : list (option Z * option Z * option string) :=
  (fun x => (ContentAnnotation.global_start_offset x,
             ContentAnnotation.global_end_offset x,
             ContentAnnotation.content x)) <$> annotations_of db n.

(** Equality of two sets given by their elements. *)
Definition same_set {A : Type} `{EqDecision A} (l1 l2 : list A) : bool :=
  forallb (fun x => bool_decide (x ∈ l2)) l1 && forallb (fun x => bool_decide (x ∈ l1)) l2.

Definition set_casebook_provenance (n : ContentNode.t) (c : option Z) (p : list Z)
  : ContentNode.t :=
  ContentNode.mk (ContentNode.id n) c (ContentNode.ordinals n)
    (ContentNode.display_ordinals n) (ContentNode.does_display_ordinals n) p
    (ContentNode.resource_type n) (ContentNode.resource_id n).

Definition edit (parent : t) (content : ContentNode.t) (change : CasebookEditLog.ChangeType.t)
  : CasebookEditLog.t :=
  CasebookEditLog.mk None (id parent) (CasebookEditLog.ChangeType.value change)
    (Some (ContentNode.id content)).

(** The state of the two loops of [merge_draft]: [swap_map],
    [significant_edits], and the nodes processed so far as they are after
    their iteration. *)
Record merge_state : Type := mk_merge_state {
  swap_map : gmap Z ContentNode.t;
  significant_edits : list CasebookEditLog.t;
  processed : list ContentNode.t;
}.

(** The body of [for content_node in to_publish]. *)
Definition publish_step (parent : t) (st : merge_state) (content_node : ContentNode.t)
  : merge_state :=
  match last (ContentNode.provenance content_node) with
  | Some previous_cn =>
      let content_node' :=
        set_casebook_provenance content_node (Some (id parent))
          (removelast (ContentNode.provenance content_node)) in
      mk_merge_state (<[previous_cn := content_node']> (swap_map st))
        (significant_edits st) (processed st ++ [content_node'])
  | None =>
      let content_node' :=
        set_casebook_provenance content_node (Some (id parent))
          (ContentNode.provenance content_node) in
      mk_merge_state (swap_map st)
        (if ContentNode.is_resource content_node
         then significant_edits st ++ [edit parent content_node CasebookEditLog.ChangeType.ADDED]
         else significant_edits st)
        (processed st ++ [content_node'])
  end.

(** The test that decides an "Edited" entry; reading [.url] or [.content]
    of a body that has none raises. *)
Definition body_changed (db : DB) (original content_node : ContentNode.t) : result bool :=
  if bool_decide (ContentNode.resource_type original = Some "Link"%string)
  then match body_url (resource_of db original) with
       | Raise e => Raise e
       | Ok u1 => match body_url (resource_of db content_node) with
                  | Raise e => Raise e
                  | Ok u2 => Ok (negb (bool_decide (u1 = u2)))
                  end
       end
  else match body_content (resource_of db original) with
       | Raise e => Raise e
       | Ok c1 => match body_content (resource_of db content_node) with
                  | Raise e => Raise e
                  | Ok c2 => Ok (negb (bool_decide (c1 = c2)))
                  end
       end.

(** The body of [for content_node in to_retire]. *)
Definition retire_step (db : DB) (parent draft : t) (st : merge_state)
    (content_node : ContentNode.t) : result merge_state :=
  match swap_map st !! ContentNode.id content_node with
  | Some original =>
      let content_node' :=
        set_casebook_provenance content_node (Some (id draft))
          (ContentNode.provenance content_node ++ [ContentNode.id original]) in
      let popped := delete (ContentNode.id content_node) (swap_map st) in
      if ContentNode.is_resource original then
        match body_changed db original content_node with
        | Raise e => Raise e
        | Ok edited =>
            let edits1 :=
              if edited
              then significant_edits st
                     ++ [edit parent original CasebookEditLog.ChangeType.EDITED]
              else significant_edits st in
            let edits2 :=
              if same_set (annotation_set db original) (annotation_set db content_node)
              then edits1
              else edits1 ++ [edit parent original CasebookEditLog.ChangeType.ANNOTATED] in
            Ok (mk_merge_state popped edits2 (processed st ++ [content_node']))
        end
      else Ok (mk_merge_state popped (significant_edits st) (processed st ++ [content_node']))
  | None =>
      let content_node' :=
        set_casebook_provenance content_node (Some (id draft))
          (ContentNode.provenance content_node) in
      Ok (mk_merge_state (swap_map st)
            (significant_edits st
               ++ [edit parent content_node CasebookEditLog.ChangeType.REMOVED])
            (processed st ++ [content_node']))
  end.

Fixpoint retire_loop (db : DB) (parent draft : t) (st : merge_state)
    (to_retire : list ContentNode.t) : result merge_state :=
  match to_retire with
  | [] => Ok st
  | content_node :: rest =>
      match retire_step db parent draft st content_node with
      | Ok st' => retire_loop db parent draft st' rest
      | Raise e => Raise e
      end
  end.

(** The two loops over the content nodes: the objects handed to the bulk
    update ([to_publish + to_retire]) and [significant_edits]. *)
Definition merge_content_nodes (db : DB) (parent draft : t)
  : result (list ContentNode.t * list CasebookEditLog.t) :=
  let to_publish := contents (content_nodes db) draft in
  let to_retire := contents (content_nodes db) parent in
  let published := foldl (publish_step parent) (mk_merge_state ∅ [] []) to_publish in
  match retire_loop db parent draft
          (mk_merge_state (swap_map published) (significant_edits published) [])
          to_retire with
  | Ok retired =>
      Ok (processed published ++ processed retired, significant_edits retired)
  | Raise e => Raise e
  end.

(** [bulk_update_with_history(rows, ContentNode, ["casebook_id",
    "provenance"])] *)
Definition bulk_update_casebook_provenance (table rows : list ContentNode.t)
  : list ContentNode.t :=
  (fun old =>
     match find (fun r => bool_decide (ContentNode.id r = ContentNode.id old)) rows with
     | Some r => set_casebook_provenance old (ContentNode.casebook_id r)
                   (ContentNode.provenance r)
     | None => old
     end) <$> table.

(** [CasebookEditLog.objects.bulk_create(entries)] *)
Definition bulk_create_edits (table entries : list CasebookEditLog.t)
  : list CasebookEditLog.t :=
  let first := next_id (omap CasebookEditLog.id table) in
  table ++ imap (fun k e =>
                   CasebookEditLog.mk (Some (first + Z.of_nat k))
                     (CasebookEditLog.casebook e) (CasebookEditLog.change e)
                     (CasebookEditLog.content e)) entries.

(** [self.draft_of]: the cached instance when the draft was reached
    through [parent.draft], otherwise the casebook whose [draft] is
    [self]. *)
Definition draft_of (db : DB) (self : t) (cached : option t) : result t :=
  match cached with
  | Some parent => Ok parent
  | None => objects_get (filter (fun c => draft c = Some (id self)) (casebooks db))
  end.

(** [merge_draft], decorated with [transaction.atomic]: when it raises the
    database is as before. Returns the instances [draft] and [parent] as
    they are afterwards. Instances are taken as loaded from their rows:
    [original_state["headnote"]] is the headnote they come with. *)
Definition merge_draft (cl : Cleanser) (db : DB) (self : t) (cached_draft_of : option t)
  : result (t * t) * DB :=
  let draft := self in
  if negb (is_draft self)
  then (Raise (ValueError "Only draft casebooks may be merged"), db)
  else
    match draft_of db self cached_draft_of with
    | Raise e => (Raise e, db)
    | Ok parent =>
        (* swap the fields, set the states, clear the relations *)
        let draft1 :=
          mk (id draft) (title parent) (subtitle parent) (headnote parent)
             (description parent) (value PREVIOUS_SAVE) None
             (provenance draft) (old_casebook draft) (common_title draft) in
        let parent1 :=
          mk (id parent) (title draft) (subtitle draft) (headnote draft)
             (description draft) (value PUBLISHED) None
             (provenance parent) (old_casebook parent) (common_title parent) in
        (* content nodes *)
        match merge_content_nodes db parent draft with
        | Raise e => (Raise e, db)
        | Ok (rows, significant_edits) =>
            let db1 :=
              mk_db (casebooks db)
                (bulk_update_casebook_provenance (content_nodes db) rows)
                (annotations db) (text_blocks db) (links db) (legal_documents db)
                (bulk_create_edits (edit_log db) significant_edits)
                (collaborators db) in
            let '(draft2, db2) := save cl db1 (headnote draft) draft1 in
            let '(parent2, db3) := save cl db2 (headnote parent) parent1 in
            (Ok (draft2, parent2), db3)
        end
    end.

(** [transition_to]. Returns the outcome ([self] as it is on return, or
    the exception) and the database afterwards. *)
Definition transition_to (cl : Cleanser) (db : DB) (self : t) (desired_state : target)
  : result t * DB :=
  let target_state := target_value desired_state in
  match can_transition_to self (Value target_state) with
  | Raise e => (Raise e, db)
  | Ok false => (Raise (ValueError "Cannot transition to desired state"), db)
  | Ok true =>
      if bool_decide (target_state = value PUBLISHED) then
        match draft self with
        | Some draft_id =>
            (* has_draft: [self.draft] is fetched; it remembers [self] *)
            match objects_get (filter (fun c => id c = draft_id) (casebooks db)) with
            | Raise e => (Raise e, db)
            | Ok the_draft =>
                match merge_draft cl db the_draft (Some self) with
                | (Ok (_, parent'), db') => (Ok parent', db')
                | (Raise e, db') => (Raise e, db')
                end
            end
        | None =>
            if is_draft self then
              match merge_draft cl db self None with
              | (Ok (draft', _), db') => (Ok draft', db')
              | (Raise e, db') => (Raise e, db')
              end
            else
              let '(self', db') := save cl db (headnote self) (set_state self target_state) in
              (Ok self', db')
        end
      else
        let '(self', db') := save cl db (headnote self) (set_state self target_state) in
        (Ok self', db')
  end.

(** *** Cloning *)

Definition truthy_id (k : option Z) : bool :=
  match k with
  | Some k => negb (bool_decide (k = 0))
  | None => false
  end.

(** What [collect_cloning_nodes] gathers. A copied body or annotation is
    paired with the index, in [cloned_content_nodes], of the copied node it
    belongs to (in Python: with that object). *)
Record cloning : Type := mk_cloning {
  cloned_text_blocks : list (TextBlock.t * nat);
  cloned_links : list (Link.t * nat);
  cloned_content_nodes : list ContentNode.t;
  cloned_annotations : list (ContentAnnotation.t * nat);
}.

(** Modelled from the spec: [clone_model_instance] (main/utils.py, not part
    of the modelled file) "creates a copy" of an instance, with the given
    fields replaced and no primary key. The primary key of an unsaved copy
    is not represented: the [id] field of its record means nothing until
    [bulk_create] or [save] has set it. Bodies, annotations, collaborators
    and the casebook itself are copied in the same way further down. Here:
    [clone_model_instance(old_content_node, old_casebook=None,
    provenance=old_content_node.provenance + [old_content_node.id],
    casebook=self)] *)
Definition clone_content_node (self : t) (old_content_node : ContentNode.t)
  : ContentNode.t :=
  ContentNode.mk (ContentNode.id old_content_node) (Some (id self))
    (ContentNode.ordinals old_content_node)
    (ContentNode.display_ordinals old_content_node)
    (ContentNode.does_display_ordinals old_content_node)
    (ContentNode.provenance old_content_node ++ [ContentNode.id old_content_node])
    (ContentNode.resource_type old_content_node)
    (ContentNode.resource_id old_content_node).

(** Whether the body of the node is to be copied:
    [resource_id and resource_type not in {"Case", "LegalDocument"}]. *)
Definition copies_body (old_content_node : ContentNode.t) : bool :=
  truthy_id (ContentNode.resource_id old_content_node)
  && negb (bool_decide (ContentNode.resource_type old_content_node = Some "Case"%string
                        \/ ContentNode.resource_type old_content_node
                           = Some "LegalDocument"%string)).

(** The body of the loop of [collect_cloning_nodes]. *)
Definition collect_step (db : DB) (self : t) (acc : cloning)
    (old_content_node : ContentNode.t) : result cloning :=
  let index := length (cloned_content_nodes acc) in
  let cloned_content_nodes' :=
    cloned_content_nodes acc ++ [clone_content_node self old_content_node] in
  let cloned_annotations' :=
    cloned_annotations acc
    ++ ((fun old_annotation => (old_annotation, index))
          <$> annotations_of db old_content_node) in
  if copies_body old_content_node then
    match resource_of db old_content_node with
    | Some (TextBlockBody b) =>
        Ok (mk_cloning (cloned_text_blocks acc ++ [(b, index)]) (cloned_links acc)
              cloned_content_nodes' cloned_annotations')
    | Some (LinkBody b) =>
        Ok (mk_cloning (cloned_text_blocks acc) (cloned_links acc ++ [(b, index)])
              cloned_content_nodes' cloned_annotations')
    | Some (LegalDocumentBody _) => Raise KeyError
    | None => Raise AttributeError
    end
  else Ok (mk_cloning (cloned_text_blocks acc) (cloned_links acc)
             cloned_content_nodes' cloned_annotations').

Fixpoint collect_loop (db : DB) (self : t) (acc : cloning) (nodes : list ContentNode.t)
  : result cloning :=
  match nodes with
  | [] => Ok acc
  | old_content_node :: rest =>
      match collect_step db self acc old_content_node with
      | Ok acc' => collect_loop db self acc' rest
      | Raise e => Raise e
      end
  end.

Definition collect_cloning_nodes (db : DB) (self : t) (nodes : list ContentNode.t)
  : result cloning :=
  collect_loop db self (mk_cloning [] [] [] []) nodes.

Definition set_text_block_id (b : TextBlock.t) (k : Z) : TextBlock.t :=
  TextBlock.mk k (TextBlock.name b) (TextBlock.description b) (TextBlock.content b)
    (TextBlock.doc_class b).

Definition set_link_id (b : Link.t) (k : Z) : Link.t :=
  Link.mk k (Link.name b) (Link.description b) (Link.url b) (Link.public b).

Definition set_node_id (n : ContentNode.t) (k : Z) : ContentNode.t :=
  ContentNode.mk k (ContentNode.casebook_id n) (ContentNode.ordinals n)
    (ContentNode.display_ordinals n) (ContentNode.does_display_ordinals n)
    (ContentNode.provenance n) (ContentNode.resource_type n) (ContentNode.resource_id n).

Definition set_resource_id (k : Z) (n : ContentNode.t) : ContentNode.t :=
  ContentNode.mk (ContentNode.id n) (ContentNode.casebook_id n) (ContentNode.ordinals n)
    (ContentNode.display_ordinals n) (ContentNode.does_display_ordinals n)
    (ContentNode.provenance n) (ContentNode.resource_type n) (Some k).

(** [for cloned_resource, cloned_content_node in resources:
      cloned_content_node.resource_id = cloned_resource.id] *)
Definition parent_resources (nodes : list ContentNode.t) (resources : list (Z * nat))
  : list ContentNode.t :=
  foldl (fun ns r => alter (set_resource_id r.1) r.2 ns) nodes resources.

(** [clone_nodes(nodes)] (with [append=False]), called on the new casebook
    [self]: the database afterwards. *)
Definition clone_nodes (db : DB) (self : t) (nodes : list ContentNode.t) : result DB :=
  match collect_cloning_nodes db self nodes with
  | Raise e => Raise e
  | Ok acc =>
      (* save_and_parent_cloned_resources: TextBlocks, then Links *)
      let first_text_block := next_id (TextBlock.id <$> text_blocks db) in
      let new_text_blocks :=
        imap (fun j r => (set_text_block_id r.1 (first_text_block + Z.of_nat j), r.2))
             (cloned_text_blocks acc) in
      let nodes1 :=
        parent_resources (cloned_content_nodes acc)
          ((fun r => (TextBlock.id r.1, r.2)) <$> new_text_blocks) in
      let first_link := next_id (Link.id <$> links db) in
      let new_links :=
        imap (fun j r => (set_link_id r.1 (first_link + Z.of_nat j), r.2))
             (cloned_links acc) in
      let nodes2 :=
        parent_resources nodes1 ((fun r => (Link.id r.1, r.2)) <$> new_links) in
      (* save ContentNodes *)
      let first_node := next_id (ContentNode.id <$> content_nodes db) in
      let new_nodes := imap (fun k n => set_node_id n (first_node + Z.of_nat k)) nodes2 in
      (* save_and_parent_cloned_annotations *)
      let first_annotation := next_id (ContentAnnotation.id <$> annotations db) in
      let new_annotations :=
        imap (fun j r =>
                ContentAnnotation.mk (first_annotation + Z.of_nat j)
                  (ContentAnnotation.kind r.1) (ContentAnnotation.content r.1)
                  (ContentAnnotation.global_start_offset r.1)
                  (ContentAnnotation.global_end_offset r.1)
                  (default 0 (ContentNode.id <$> new_nodes !! r.2)))
             (cloned_annotations acc) in
      Ok (mk_db (casebooks db)
            (content_nodes db ++ new_nodes)
            (annotations db ++ new_annotations)
            (text_blocks db ++ new_text_blocks.*1)
            (links db ++ new_links.*1)
            (legal_documents db) (edit_log db) (collaborators db))
  end.

(** [clone(current_user, draft_mode)], decorated with
    [transaction.atomic]. Returns the new casebook and the database
    afterwards. *)
Definition clone (cl : Cleanser) (db : DB) (self : t) (current_user : option Z)
    (draft_mode : bool) : result t * DB :=
  (* clone casebook *)
  let cloned_casebook :=
    mk (next_id (id <$> casebooks db)) (title self) (subtitle self)
       (cleanse_headnote cl false None (headnote self)) (description self)
       (if draft_mode then value DRAFT else value NEWLY_CLONED)
       None (provenance self ++ [id self]) None None in
  let db1 := with_casebooks db (casebooks db ++ [cloned_casebook]) in
  let first_collaborator := next_id (ContentCollaborator.id <$> collaborators db) in
  let db2 :=
    if draft_mode then
      let copies :=
        imap (fun j c =>
                ContentCollaborator.mk (first_collaborator + Z.of_nat j)
                  (ContentCollaborator.has_attribution c) (ContentCollaborator.can_edit c)
                  (ContentCollaborator.user c) (Some (id cloned_casebook)))
             (filter (fun c => ContentCollaborator.casebook c = Some (id self))
                     (collaborators db)) in
      let self' :=
        mk (id self) (title self) (subtitle self) (headnote self) (description self)
           (state self) (Some (id cloned_casebook)) (provenance self)
           (old_casebook self) (common_title self) in
      (save cl
         (mk_db (casebooks db1) (content_nodes db) (annotations db) (text_blocks db)
            (links db) (legal_documents db) (edit_log db) (collaborators db ++ copies))
         (headnote self) self').2
    else
      match current_user with
      | Some user =>
          mk_db (casebooks db1) (content_nodes db) (annotations db) (text_blocks db)
            (links db) (legal_documents db) (edit_log db)
            (collaborators db
             ++ [ContentCollaborator.mk first_collaborator true true user
                   (Some (id cloned_casebook))])
      | None => db1
      end in
  match clone_nodes db2 cloned_casebook (contents (content_nodes db2) self) with
  | Ok db3 => (Ok cloned_casebook, db3)
  | Raise e => (Raise e, db)
  end.

(** Vocabulary for the statements about cloning: the body that the loop
    copies for a node, if any, and the lists the loop builds from the
    [index]-th node on. *)
Definition text_block_to_copy (db : DB) (old : ContentNode.t) : option TextBlock.t :=
  if copies_body old
  then match resource_of db old with
       | Some (TextBlockBody b) => Some b
       | _ => None
       end
  else None.

Definition link_to_copy (db : DB) (old : ContentNode.t) : option Link.t :=
  if copies_body old
  then match resource_of db old with
       | Some (LinkBody b) => Some b
       | _ => None
       end
  else None.

Fixpoint body_copies {B : Type} (to_copy : ContentNode.t -> option B) (index : nat)
    (nodes : list ContentNode.t) : list (B * nat) :=
  match nodes with
  | [] => []
  | old :: rest =>
      match to_copy old with
      | Some b => (b, index) :: body_copies to_copy (S index) rest
      | None => body_copies to_copy (S index) rest
      end
  end.

Definition text_block_copies (db : DB) : nat -> list ContentNode.t -> list (TextBlock.t * nat) :=
  body_copies (text_block_to_copy db).

Definition link_copies (db : DB) : nat -> list ContentNode.t -> list (Link.t * nat) :=
  body_copies (link_to_copy db).

(** The annotations of the nodes, node after node, each with the index of
    its node. *)
Fixpoint copies_of_annotations
    (annotations_of : ContentNode.t -> list ContentAnnotation.t) (index : nat)
    (nodes : list ContentNode.t) : list (ContentAnnotation.t * nat) :=
  match nodes with
  | [] => []
  | old :: rest =>
      ((fun a => (a, index)) <$> annotations_of old)
      ++ copies_of_annotations annotations_of (S index) rest
  end.

Definition annotation_copies (db : DB)
  : nat -> list ContentNode.t -> list (ContentAnnotation.t * nat) :=
  copies_of_annotations (annotations_of db).

(** [a'] is a copy of the annotation [a] attached to the node [k]. *)
Definition annotation_copied_to (a : ContentAnnotation.t) (k : Z)
    (a' : ContentAnnotation.t) : Prop :=
  ContentAnnotation.kind a' = ContentAnnotation.kind a
  /\ ContentAnnotation.content a' = ContentAnnotation.content a
  /\ ContentAnnotation.global_start_offset a' = ContentAnnotation.global_start_offset a
  /\ ContentAnnotation.global_end_offset a' = ContentAnnotation.global_end_offset a
  /\ ContentAnnotation.resource a' = k.

(** [new] is, in the database [db'], the copy made for the casebook [self]
    of the node [old] of [db]: same place in the tree, the provenance of
    [old] with its id appended, an id of its own; a body that is not
    copied keeps its row (a legal document is found again under the same
    id), a text block or a link is a new row with the same fields. *)
Definition cloned_from (db db' : DB) (self : t) (old new : ContentNode.t) : Prop :=
  ContentNode.provenance new = ContentNode.provenance old ++ [ContentNode.id old]
  /\ ContentNode.casebook_id new = Some (id self)
  /\ ContentNode.ordinals new = ContentNode.ordinals old
  /\ ContentNode.resource_type new = ContentNode.resource_type old
  /\ ~ (ContentNode.id new ∈ (ContentNode.id <$> content_nodes db))
  /\ (copies_body old = false ->
      ContentNode.resource_id new = ContentNode.resource_id old)
  /\ (forall b, resource_of db old = Some (LegalDocumentBody b) ->
                ContentNode.resource_id new = ContentNode.resource_id old
                /\ resource_of db' new = Some (LegalDocumentBody b))
  /\ (forall b, resource_of db old = Some (TextBlockBody b) ->
                exists k, ~ (k ∈ (TextBlock.id <$> text_blocks db))
                          /\ resource_of db' new
                             = Some (TextBlockBody (set_text_block_id b k)))
  /\ (forall b, resource_of db old = Some (LinkBody b) ->
                exists k, ~ (k ∈ (Link.id <$> links db))
                          /\ resource_of db' new = Some (LinkBody (set_link_id b k))).

(** Every node whose body is to be copied has one in the tables. *)
Definition bodies_found (db : DB) (nodes : list ContentNode.t) : bool :=
  forallb (fun old => negb (copies_body old)
                      || match resource_of db old with Some _ => true | None => false end)
          nodes.

(** *** Other methods of the casebook *)

(** [is_public] *)
Definition is_public (self : t) : bool :=
  bool_decide (state self = value PUBLISHED \/ state self = value REVISING).

(** [has_draft]: [bool(self.draft)] *)
Definition has_draft (self : t) : bool :=
  match draft self with
  | Some _ => true
  | None => false
  end.

(** [has_collaborator(user)] *)
Definition has_collaborator (db : DB) (self : t) (user : Z) : bool :=
  existsb (fun c => bool_decide (ContentCollaborator.user c = user))
    (filter (fun c => ContentCollaborator.can_edit c = true)
       (filter (fun c => ContentCollaborator.casebook c = Some (id self))
          (collaborators db))).

(** [version_tree__parent] *)
Definition version_tree__parent (db : DB) (self : t) : result (option t) :=
  match last (provenance self) with
  | None => Ok None
  | Some k =>
      match objects_get (filter (fun c => id c = k) (casebooks db)) with
      | Ok c => Ok (Some c)
      | Raise e => Raise e
      end
  end.

(** [version_tree__descendants]: [filter(provenance__contains=[self.id])] *)
Definition version_tree__descendants (db : DB) (self : t) : list t :=
  filter (fun c => id self ∈ provenance c) (casebooks db).

(** [make_draft] *)
Definition make_draft (cl : Cleanser) (db : DB) (self : t) : result t * DB :=
  match transition_to cl db self (Member REVISING) with
  | (Raise e, db') => (Raise e, db')
  | (Ok self1, db1) =>
      let '(self2, db2) := save cl db1 (headnote self1) self1 in
      clone cl db2 self2 None true
  end.

(** What the merge makes of a node of the draft: it goes to the parent and
    loses the last entry of its provenance, if it has one. *)
Definition published_row (parent : t) (n : ContentNode.t) : ContentNode.t :=
  set_casebook_provenance n (Some (id parent)) (removelast (ContentNode.provenance n)).

(** What the merge makes of a node of the parent: it goes to the draft, and
    the node that replaces it, if there is one, is entered in its
    provenance. *)
Definition retired_row (draft : t) (n n' : ContentNode.t) : Prop :=
  exists p,
    n' = set_casebook_provenance n (Some (id draft)) p
    /\ (p = ContentNode.provenance n \/ exists k, p = ContentNode.provenance n ++ [k]).

(** A headnote that the cleansing steps leave as it is. *)
Definition cleansed (cl : Cleanser) (h : option string) : Prop :=
  match h with
  | Some v => normalize_newlines cl v = v /\ sanitize cl v = v
              /\ strip_trailing_block_level_whitespace cl v = v
  | None => True
  end.

(** [draft'] and [parent'] are what a merge makes of [draft] and
    [parent]: the states, the cleared draft reference, and the swapped
    title, subtitle, description and headnote. *)
Definition merged (draft parent draft' parent' : t) : Prop :=
  state draft' = value PREVIOUS_SAVE
  /\ state parent' = value PUBLISHED
  /\ Casebook.draft parent' = None
  /\ title draft' = title parent /\ title parent' = title draft
  /\ subtitle draft' = subtitle parent /\ subtitle parent' = subtitle draft
  /\ description draft' = description parent /\ description parent' = description draft
  /\ headnote draft' = headnote parent /\ headnote parent' = headnote draft.

(** The one row of the casebook table with primary key [k] is [c]. *)
Definition stored (db : DB) (k : Z) (c : t) : Prop :=
  objects_get (filter (fun x => id x = k) (casebooks db)) = Ok c.

End Casebook.

(** ** Moving a node: [MaterializedPathTreeMixin.content_tree__move_to] *)

Module ContentTree.

Import ContentNode.

(** The object returned by [content_tree__get_same_tree_node_from_ordinals]
    once loaded: the casebook with its top-level children, or a node. *)
Inductive Loaded : Type :=
| LoadedCasebook (c : Casebook.t) (top_level_children : list Tree)
| LoadedNode (n : Tree).

Definition loaded_children (l : Loaded) : list Tree :=
  match l with
  | LoadedCasebook _ cs => cs
  | LoadedNode n => children n
  end.

Definition with_children (l : Loaded) (cs : list Tree) : Loaded :=
  match l with
  | LoadedCasebook c _ => LoadedCasebook c cs
  | LoadedNode n => LoadedNode (Node (row n) cs)
  end.

(** [content_tree__get_same_tree_node_from_ordinals], followed by
    [content_tree__load()] on the result. *)
Definition get_same_tree_node_from_ordinals_loaded
    (casebooks : list Casebook.t) (table : list t) (self : t) (ords : list Z)
  : result Loaded :=
  match ords with
  | [] =>
      match objects_get (filter (fun c => Some (Casebook.id c) = casebook_id self) casebooks) with
      | Ok c => Ok (LoadedCasebook c (Casebook.content_tree__load table c))
      | Raise e => Raise e
      end
  | _ =>
      match objects_get (filter (fun n => ordinals n = ords
                                          /\ casebook_id n = casebook_id self) table) with
      | Ok n => match content_tree__load table n with
                | Ok loaded => Ok (LoadedNode loaded)
                | Raise e => Raise e
                end
      | Raise e => Raise e
      end
  end.

(** [common_parent_node.content_tree__get_descendant(ordinals)], as a
    position below the common parent. *)
Definition get_descendant (l : Loaded) (ords : list Z) : result (list nat) :=
  match l with
  | LoadedCasebook _ cs => Casebook.content_tree__get_descendant cs ords
  | LoadedNode n => ContentNode.content_tree__get_descendant n ords
  end.

(** [is_resource] of the object at a position: [False] for a casebook. *)
Definition is_resource_at (l : Loaded) (p : list nat) : bool :=
  match row_at (loaded_children l) p with
  | Some r => is_resource r
  | None => match l with
            | LoadedCasebook _ _ => false
            | LoadedNode n => is_resource (row n)
            end
  end.

(** [parent.content_tree__children.remove(node)] for the node at the
    non-empty position [p]; primary keys being unique, the first child
    equal to the node is the node itself. *)
Fixpoint remove_at (forest : list Tree) (p : list nat) : list Tree :=
  match p with
  | [] => forest
  | i :: p' =>
      match p' with
      | [] => delete i forest
      | _ => match forest !! i with
             | Some c => <[i := Node (row c) (remove_at (children c) p')]> forest
             | None => forest
             end
      end
  end.

(** [new_parent.content_tree__children.insert(index, x)] for the object at
    position [p]. *)
Fixpoint insert_at (forest : list Tree) (p : list nat) (index : Z) (x : Tree)
  : list Tree :=
  match p with
  | [] => py_insert forest index x
  | i :: p' =>
      match forest !! i with
      | Some c => <[i := Node (row c) (insert_at (children c) p' index x)]> forest
      | None => forest
      end
  end.

(** Where the object that was at position [q] is once the node at [p] has
    been removed; [None] when it was the removed node or below it. *)
Fixpoint position_after_removal (p q : list nat) : option (list nat) :=
  match p, q with
  | i :: p', j :: q' =>
      match p' with
      | [] => if bool_decide (j = i) then None
              else if bool_decide (i < j)%nat then Some (pred j :: q')
              else Some q
      | _ => if bool_decide (j = i)
             then (fun r => i :: r) <$> position_after_removal p' q'
             else Some q
      end
  | _, _ => Some q
  end.

(** [common_parent_node.content_tree__store()] *)
Definition store (table : list t) (l : Loaded) : Loaded * list t :=
  match l with
  | LoadedCasebook c cs =>
      let '(cs', _, table') := Casebook.content_tree__store table cs in
      (LoadedCasebook c cs', table')
  | LoadedNode n =>
      let '(n', _, table') := ContentNode.content_tree__store table n in
      (LoadedNode n', table')
  end.

(** [content_tree__move_to(self, new_ordinals)]. The result pairs the
    outcome (the instance [self] as it is on return, or the exception) with
    the ContentNode table afterwards. (The state of [self] in memory after
    an exception is not part of the model.) *)
Definition content_tree__move_to (casebooks : list Casebook.t) (table : list t)
    (self : t) (new_ordinals : list Z) : result t * list t :=
  (* check rules *)
  if bool_decide (new_ordinals = ordinals self) then (Ok self, table)
  else if bool_decide (length new_ordinals < 1)%nat
  then (Raise (ValueError "Cannot move node to root"), table)
  else if is_legacy_casebook_node self
  then (Raise (ValueError "Cannot move legacy casebook node"), table)
  else if starts_with new_ordinals (ordinals self)
  then (Raise (ValueError "Cannot move a node inside itself"), table)
  else
    (* find common grandparent node for old and new location *)
    let old_ordinals := ordinals self in
    let new_parent_ordinals := take (length new_ordinals - 1) new_ordinals in
    let common_prefix := commonprefix old_ordinals new_parent_ordinals in
    match get_same_tree_node_from_ordinals_loaded casebooks table self common_prefix with
    | Raise e => (Raise e, table)
    | Ok common_parent_node =>
        (* find new parent *)
        match get_descendant common_parent_node new_parent_ordinals with
        | Raise IndexError =>
            (Raise (ValueError "Invalid new ordinals; parent does not exist"), table)
        | Raise e => (Raise e, table)
        | Ok new_parent =>
            if is_resource_at common_parent_node new_parent
            then (Raise (ValueError "Cannot add descendant of Resource"), table)
            else
              (* remove node from existing location *)
              match get_descendant common_parent_node old_ordinals with
              | Raise e => (Raise e, table)
              | Ok moved_pos =>
                  match moved_pos, row_at (loaded_children common_parent_node) moved_pos,
                        ContentNode.children_at (loaded_children common_parent_node) moved_pos with
                  | _ :: _, Some moved_row, moved_children =>
                      if negb (bool_decide (id moved_row = id self))
                      then (Raise (ValueError "Unexpected element found at ordinal"), table)
                      else
                        let moved_node := Node moved_row moved_children in
                        let removed :=
                          remove_at (loaded_children common_parent_node) moved_pos in
                        (* add node to new location *)
                        match position_after_removal moved_pos new_parent with
                        | Some new_parent' =>
                            let index :=
                              default 0 (last new_ordinals) - 1 in
                            let target :=
                              new_parent'
                              ++ [py_insert_index
                                    (ContentNode.children_at removed new_parent') index] in
                            let inserted := insert_at removed new_parent' index moved_node in
                            (* save results *)
                            let '(stored, table') :=
                              store table (with_children common_parent_node inserted) in
                            (* self.ordinals = moved_node.ordinals: the node is
                               now at [target] *)
                            let moved_ordinals :=
                              match row_at (loaded_children stored) target with
                              | Some r => ordinals r
                              | None => ordinals moved_row
                              end in
                            (Ok (set_ordinals self moved_ordinals (display_ordinals self)),
                             table')
                        | None =>
                            (* the new parent is the moved node or below it:
                               the node leaves the loaded tree *)
                            let '(_, table') :=
                              store table (with_children common_parent_node removed) in
                            (Ok (set_ordinals self (ordinals moved_row) (display_ordinals self)),
                             table')
                        end
                  | _, _, _ =>
                      match common_parent_node with
                      | LoadedCasebook _ _ =>
                          (Raise (ValueError "Unexpected element found at ordinal"), table)
                      | LoadedNode n =>
                          if negb (bool_decide (id (row n) = id self))
                          then (Raise (ValueError "Unexpected element found at ordinal"), table)
                          else (Raise AttributeError, table)
                      end
                  end
              end
        end
    end.

End ContentTree.

(** ** Deleting a content node: [ContentNode.delete] *)

Module Deletion.

Import Casebook.

(** [ContentNode.type] *)
Definition type (self : ContentNode.t) : string :=
  match ContentNode.resource_type self with
  | None => "section"
  | Some rt =>
      if bool_decide (rt = ""%string \/ rt = "Section"%string) then "section"
      else if bool_decide (rt = "Temp"%string) then "temp"
      else "resource"
  end.

(** [self.resource_type in ["", "Section", None]] *)
Definition is_section_like (self : ContentNode.t) : bool :=
  bool_decide (ContentNode.resource_type self = None
               \/ ContentNode.resource_type self = Some ""%string
               \/ ContentNode.resource_type self = Some "Section"%string).

(** [CasebookEditLog.content] has [on_delete=SET_NULL]: an entry that
    points at a deleted node loses its pointer. *)
Definition forget_content (ids : list Z) (e : CasebookEditLog.t) : CasebookEditLog.t :=
  match CasebookEditLog.content e with
  | Some k =>
      if bool_decide (k ∈ ids)
      then CasebookEditLog.mk (CasebookEditLog.id e) (CasebookEditLog.casebook e)
             (CasebookEditLog.change e) None
      else e
  | None => e
  end.

(** Deleting content nodes, by [QuerySet.delete()] or [Model.delete()]: the
    rows go, the annotations on them go with them
    ([ContentAnnotation.resource]: [on_delete=CASCADE]), and the edit-log
    entries that point at them lose their pointer. ([ContentNode.copy_of],
    which is set to null likewise, is not a column of the rows here.) *)
Definition delete_nodes (db : DB) (ids : list Z) : DB :=
  mk_db (casebooks db)
    (filter (fun n => ContentNode.id n ∉ ids) (content_nodes db))
    (filter (fun a => ContentAnnotation.resource a ∉ ids) (annotations db))
    (text_blocks db) (links db) (legal_documents db)
    (forget_content ids <$> edit_log db)
    (collaborators db).

(** The loop of [_delete_related_links_and_text_blocks]: the ids collected
    under [Link] and under [TextBlock]. [type(resource._resource)] is looked
    up in a dictionary that has these two classes only. *)
Fixpoint collect_to_delete (db : DB) (nodes : list ContentNode.t)
  : result (list Z * list Z) :=
  match nodes with
  | [] => Ok ([], [])
  | resource :: rest =>
      let listed :=
        truthy_id (ContentNode.resource_id resource)
        && bool_decide (ContentNode.resource_type resource = Some "Link"%string
                        \/ ContentNode.resource_type resource = Some "TextBlock"%string) in
      let here : result (list Z * list Z) :=
        if listed then
          match resource_of db resource, ContentNode.resource_id resource with
          | Some (LinkBody _), Some k => Ok ([k], [])
          | Some (TextBlockBody _), Some k => Ok ([], [k])
          | _, _ => Raise KeyError
          end
        else Ok ([], []) in
      match here with
      | Raise e => Raise e
      | Ok (l1, t1) =>
          match collect_to_delete db rest with
          | Raise e => Raise e
          | Ok (l2, t2) => Ok (l1 ++ l2, t1 ++ t2)
          end
      end
  end.

(** [_delete_related_links_and_text_blocks], past its guard
    [if self.type != "section": raise NotImplementedError]: [delete] calls
    it for a node whose type is "section" only. *)
Definition _delete_related_links_and_text_blocks (db : DB) (self : ContentNode.t)
  : result DB :=
  match collect_to_delete db (ContentNode.contents (content_nodes db) self) with
  | Raise e => Raise e
  | Ok (link_ids, text_block_ids) =>
      Ok (mk_db (casebooks db) (content_nodes db) (annotations db)
            (filter (fun b => TextBlock.id b ∉ text_block_ids) (text_blocks db))
            (filter (fun b => Link.id b ∉ link_ids) (links db))
            (legal_documents db) (edit_log db) (collaborators db))
  end.

(** [self.resource.delete()] for a node of type TextBlock or Link, on an
    instance whose resource has not been prefetched. *)
Definition delete_resource (db : DB) (self : ContentNode.t) : result DB :=
  match ContentNode.resource_id self with
  | Some k =>
      if bool_decide (k = 0) then Raise AttributeError
      else if bool_decide (ContentNode.resource_type self = Some "TextBlock"%string)
      then match objects_get (filter (fun b => TextBlock.id b = k) (text_blocks db)) with
           | Ok _ =>
               Ok (mk_db (casebooks db) (content_nodes db) (annotations db)
                     (filter (fun b => TextBlock.id b <> k) (text_blocks db))
                     (links db) (legal_documents db) (edit_log db) (collaborators db))
           | Raise e => Raise e
           end
      else match objects_get (filter (fun b => Link.id b = k) (links db)) with
           | Ok _ =>
               Ok (mk_db (casebooks db) (content_nodes db) (annotations db)
                     (text_blocks db)
                     (filter (fun b => Link.id b <> k) (links db))
                     (legal_documents db) (edit_log db) (collaborators db))
           | Raise e => Raise e
           end
  | None => Raise AttributeError
  end.

(** The parent found by [delete]: a node, or [self.casebook] (which is
    [None] for a node without casebook). *)
Inductive Parent : Type :=
| ParentNode (n : ContentNode.t)
| ParentCasebook (c : option t).

(** [self.casebook] *)
Definition casebook_of (db : DB) (self : ContentNode.t) : result (option t) :=
  match ContentNode.casebook_id self with
  | None => Ok None
  | Some k =>
      match objects_get (filter (fun c => id c = k) (casebooks db)) with
      | Ok c => Ok (Some c)
      | Raise e => Raise e
      end
  end.

Definition find_parent (db : DB) (self : ContentNode.t) : result Parent :=
  let ordinals_of_parent := removelast (ContentNode.ordinals self) in
  match casebook_of db self with
  | Raise e => Raise e
  | Ok c =>
      match ordinals_of_parent with
      | [] => Ok (ParentCasebook c)
      | _ =>
          match objects_get
                  (filter (fun n => ContentNode.casebook_id n = id <$> c
                                    /\ ContentNode.ordinals n = ordinals_of_parent)
                          (content_nodes db)) with
          | Ok n => Ok (ParentNode n)
          | Raise e => Raise e
          end
      end
  end.

(** [parent.content_tree__repair()] *)
Definition repair_parent (db : DB) (parent : Parent) : result unit * DB :=
  let with_nodes table :=
    mk_db (casebooks db) table (annotations db) (text_blocks db) (links db)
      (legal_documents db) (edit_log db) (collaborators db) in
  match parent with
  | ParentNode n =>
      match ContentNode.content_tree__repair (content_nodes db) n with
      | Ok (_, _, table) => (Ok tt, with_nodes table)
      | Raise e => (Raise e, db)
      end
  | ParentCasebook (Some c) =>
      (Ok tt, with_nodes (content_tree__repair (content_nodes db) c).2)
  | ParentCasebook None => (Raise AttributeError, db)
  end.

(** [delete()]: the outcome and the database afterwards. The method is not
    run in a transaction of its own: what has been deleted when a later
    step raises stays deleted. (The row counts that it returns are not
    represented.) *)
Definition delete (db : DB) (self : ContentNode.t) : result unit * DB :=
  (* Find this node's parent *)
  match find_parent db self with
  | Raise e => (Raise e, db)
  | Ok parent =>
      (* Delete this node's children, and any related links and textblocks *)
      let children_deleted : result DB :=
        if is_section_like self then
          match _delete_related_links_and_text_blocks db self with
          | Ok db1 =>
              Ok (delete_nodes db1
                    (ContentNode.id <$> ContentNode.contents (content_nodes db1) self))
          | Raise e => Raise e
          end
        else if bool_decide (ContentNode.resource_type self = Some "TextBlock"%string
                             \/ ContentNode.resource_type self = Some "Link"%string)
        then delete_resource db self
        else Ok db in
      match children_deleted with
      | Raise e => (Raise e, db)
      | Ok db2 =>
          (* Delete this node *)
          let db3 := delete_nodes db2 [ContentNode.id self] in
          (* Update the ordinals of the content tree *)
          repair_parent db3 parent
      end
  end.

(** The primary keys of the rows that [delete] removes. *)
Definition removed_ids (db : DB) (self : ContentNode.t) : list Z :=
  ContentNode.id self
  :: (if is_section_like self
      then ContentNode.id <$> ContentNode.contents (content_nodes db) self
      else []).

(** The rows that [delete] removes: the node, and what is below it when it
    is a section. *)
Definition removed_rows (db : DB) (self : ContentNode.t) : list ContentNode.t :=
  self :: (if is_section_like self then ContentNode.contents (content_nodes db) self
           else []).

(** The [resource_id]s of the nodes of [nodes] whose [resource_type] is
    [rt], zero left out. *)
Definition body_ids (rt : string) (nodes : list ContentNode.t) : list Z :=
  omap (fun n =>
          if truthy_id (ContentNode.resource_id n)
             && bool_decide (ContentNode.resource_type n = Some rt)
          then ContentNode.resource_id n else None) nodes.

End Deletion.

(** * Theorems *)

(** ** Annotation reconciliation *)

Section annotation_facts.
Import ContentAnnotation.

Lemma update_one_id updater q r :
  update_one updater q = Ok (Some r) -> id r = id q.
Proof.
  unfold update_one.
  destruct (adjust_offset updater (global_start_offset q)); [|discriminate].
  destruct (adjust_offset updater (global_end_offset q)); [|discriminate].
  repeat case_match; intros [= <-]; reflexivity.
Qed.

Lemma collect_updates_spec updater l us :
  collect_updates updater l = Ok us ->
  forall r, r ∈ us <-> exists q, q ∈ l /\ update_one updater q = Ok (Some r).
Proof.
  revert us. induction l as [|q l IH]; simpl; intros us H r.
  - injection H as <-. split; [intros Hr; inversion Hr|].
    intros (q & Hq & _). inversion Hq.
  - destruct (update_one updater q) as [changed|] eqn:Hq; [|discriminate].
    destruct (collect_updates updater l) as [us0|]; [|discriminate].
    injection H as <-. specialize (IH us0 eq_refl r).
    destruct changed as [a'|].
    + rewrite elem_of_cons, IH. split.
      * intros [->|(q' & Hq' & Hu)]; [exists q|exists q']; rewrite elem_of_cons; auto.
      * intros (q' & Hq' & Hu). apply elem_of_cons in Hq' as [->|Hq'].
        -- left. congruence.
        -- right. eauto.
    + rewrite IH. split.
      * intros (q' & Hq' & Hu). exists q'. rewrite elem_of_cons. auto.
      * intros (q' & Hq' & Hu). apply elem_of_cons in Hq' as [->|Hq'].
        -- congruence.
        -- eauto.
Qed.

Lemma bulk_update_offsets_ids table rows :
  id <$> bulk_update_offsets table rows = id <$> table.
Proof.
  unfold bulk_update_offsets. rewrite <- list_fmap_compose. apply list_fmap_ext.
  intros _ old _. simpl. destruct (find _ rows); reflexivity.
Qed.

Lemma NoDup_id_inj (table : list t) a b :
  NoDup (id <$> table) -> a ∈ table -> b ∈ table -> id a = id b -> a = b.
Proof.
  induction table as [|x table IH]; simpl; intros Hnd Ha Hb Hid.
  - inversion Ha.
  - apply NoDup_cons in Hnd as [Hx Hnd].
    apply elem_of_cons in Ha as [->|Ha]; apply elem_of_cons in Hb as [->|Hb]; auto.
    + exfalso. apply Hx. rewrite Hid. apply list_elem_of_fmap. eauto.
    + exfalso. apply Hx. rewrite <- Hid. apply list_elem_of_fmap. eauto.
Qed.

(** A row that no object of [rows] shares its primary key with is left
    alone by the bulk update. *)
Lemma bulk_update_offsets_untouched table rows a i :
  table !! i = Some a ->
  (forall r, r ∈ rows -> id r <> id a) ->
  bulk_update_offsets table rows !! i = Some a.
Proof.
  intros Hi Hfresh. unfold bulk_update_offsets.
  rewrite list_lookup_fmap, Hi. simpl.
  destruct (find _ rows) as [r|] eqn:Hf; [|reflexivity].
  apply find_some in Hf as [Hin Hid]. apply bool_decide_eq_true in Hid.
  exfalso. apply (Hfresh r); [|exact Hid]. by apply list_elem_of_In.
Qed.

(** The object that decides the new offsets of row [a] is the (only)
    object of [rows] with its primary key. *)
Lemma bulk_update_offsets_hit table rows a r :
  a ∈ table -> r ∈ rows ->
  id r = id a ->
  (forall r', r' ∈ rows -> id r' = id a -> r' = r) ->
  set_offsets a (global_start_offset r) (global_end_offset r)
    ∈ bulk_update_offsets table rows.
Proof.
  intros Ha Hr Hid Huniq. unfold bulk_update_offsets.
  apply list_elem_of_fmap. exists a. split; [|exact Ha].
  destruct (find _ rows) as [r'|] eqn:Hf.
  - apply find_some in Hf as [Hin Hid']. apply bool_decide_eq_true in Hid'.
    rewrite (Huniq r'); [reflexivity| by apply list_elem_of_In | exact Hid'].
  - exfalso. apply list_elem_of_In in Hr.
    pose proof (find_none _ _ Hf r Hr) as Hn. simpl in Hn.
    apply bool_decide_eq_false in Hn. contradiction.
Qed.

End annotation_facts.

Section annotation_claims.
Import ContentAnnotation.

(** Claim C4, as stated, does not hold: an annotation whose start and end
    already coincide and are not moved by the edit is skipped by the
    "unchanged" test, which comes before the "deleted" test, and keeps its
    offsets. Here the text "abc" becomes "xbc"; every offset of the old text
    keeps its value, and the annotation sits at (2, 2). *)
Lemma C4_counterexample :
  ~ (forall (text_from_html : string -> string)
            (make_updater : string -> string -> AnnotationUpdater)
            (table : list t) (before_html after_html : string) (a : t) (s : Z)
            (to_update table' : list t),
        a ∈ table ->
        text_from_html before_html <> text_from_html after_html ->
        let updater := make_updater (text_from_html before_html)
                                    (text_from_html after_html) in
        end_offset_gte (get_first_delta_offset updater) a = true ->
        adjust_offset updater (global_start_offset a) = Ok s ->
        adjust_offset updater (global_end_offset a) = Ok s ->
        update_annotations text_from_html make_updater table table
          before_html after_html = Ok (to_update, table') ->
        exists a', a' ∈ table' /\ id a' = id a
                   /\ global_start_offset a' = Some (-1)
                   /\ global_end_offset a' = Some (-1)).
Proof.
  intros H.
  pose (a := mk 1 "highlight" None (Some 2) (Some 2) 7).
  pose (upd := mk_updater 0 (fun o => match o with
                                      | Some x => Ok x
                                      | None => Raise AttributeError
                                      end)).
  destruct (H (fun x => x) (fun _ _ => upd) [a] "abc"%string "xbc"%string a 2 [] [a])
    as (a' & Hin & _ & Hs & _).
  - apply list_elem_of_singleton. reflexivity.
  - discriminate.
  - reflexivity.
  - reflexivity.
  - reflexivity.
  - reflexivity.
  - apply list_elem_of_singleton in Hin. subst a'. discriminate Hs.
Qed.

(** Claim C4, amended: an annotation processed by [update_annotations]
    whose adjusted start and end coincide, and are not both equal to the
    offsets it already has, is stored with the offsets (-1, -1); and
    [valid()] keeps exactly the annotations whose offsets are not both -1. *)
Theorem C4_deletion_sentinel :
  (forall (text_from_html : string -> string)
          (make_updater : string -> string -> AnnotationUpdater)
          (table queryset : list t) (before_html after_html : string) (a : t) (s : Z)
          (to_update table' : list t),
      NoDup (id <$> table) ->
      (forall q, q ∈ queryset -> q ∈ table) ->
      a ∈ queryset ->
      text_from_html before_html <> text_from_html after_html ->
      let updater := make_updater (text_from_html before_html)
                                  (text_from_html after_html) in
      end_offset_gte (get_first_delta_offset updater) a = true ->
      adjust_offset updater (global_start_offset a) = Ok s ->
      adjust_offset updater (global_end_offset a) = Ok s ->
      ~ (global_start_offset a = Some s /\ global_end_offset a = Some s) ->
      update_annotations text_from_html make_updater table queryset
        before_html after_html = Ok (to_update, table') ->
      set_offsets a (Some (-1)) (Some (-1)) ∈ to_update
      /\ set_offsets a (Some (-1)) (Some (-1)) ∈ table')
  /\ (forall (queryset : list t) (a : t),
        a ∈ valid queryset <->
        a ∈ queryset
        /\ ~ (global_start_offset a = Some (-1) /\ global_end_offset a = Some (-1))).
Proof.
  split.
  - intros tfh mku table queryset before after a s to_update table'
      Hnd Hsub Ha Hdiff updater Hgte Hs He Hne Hrun.
    unfold update_annotations in Hrun.
    rewrite bool_decide_eq_false_2 in Hrun by exact Hdiff.
    fold updater in Hrun.
    destruct (collect_updates updater _) as [us|] eqn:Hc; [|discriminate].
    injection Hrun as <- <-.
    pose proof (collect_updates_spec _ _ _ Hc) as Hspec.
    assert (Hone : update_one updater a
                   = Ok (Some (set_offsets a (Some (-1)) (Some (-1))))).
    { unfold update_one. rewrite Hs, He.
      destruct (bool_decide (Some s = global_start_offset a)) eqn:E1;
        destruct (bool_decide (Some s = global_end_offset a)) eqn:E2; simpl;
        try (rewrite bool_decide_eq_true_2 by reflexivity; reflexivity).
      apply bool_decide_eq_true in E1, E2. exfalso. apply Hne. split; congruence. }
    assert (Hin : set_offsets a (Some (-1)) (Some (-1)) ∈ us).
    { apply Hspec. exists a. split; [|exact Hone].
      apply list_elem_of_filter. split; [exact Hgte|exact Ha]. }
    split; [exact Hin|].
    destruct us as [|u us']; [inversion Hin|].
    change (set_offsets a (Some (-1)) (Some (-1)))
      with (set_offsets a
              (global_start_offset (set_offsets a (Some (-1)) (Some (-1))))
              (global_end_offset (set_offsets a (Some (-1)) (Some (-1))))).
    apply bulk_update_offsets_hit; [by apply Hsub|exact Hin|reflexivity|].
    intros r' Hr' Hid. apply Hspec in Hr' as (q & Hq & Hu).
    apply list_elem_of_filter in Hq as [_ Hq].
    pose proof (update_one_id _ _ _ Hu) as Hidq.
    assert (q = a) as ->.
    { apply (NoDup_id_inj table); auto. congruence. }
    congruence.
  - intros queryset a. unfold valid, is_invalid.
    rewrite list_elem_of_filter. tauto.
Qed.

Lemma C4_deletion_sentinel_witness :
  let a := mk 1 "highlight" None (Some 2) (Some 3) 7 in
  let upd := mk_updater 0 (fun o => match o with
                                    | Some x => Ok (if x <? 2 then x else 2)
                                    | None => Raise AttributeError
                                    end) in
  set_offsets a (Some (-1)) (Some (-1)) ∈ [set_offsets a (Some (-1)) (Some (-1))]
  /\ set_offsets a (Some (-1)) (Some (-1)) ∈ [set_offsets a (Some (-1)) (Some (-1))].
Proof.
  intros a upd.
  apply (proj1 C4_deletion_sentinel (fun x => x) (fun _ _ => upd) [a] [a]
           "abc"%string "ab"%string a 2).
  - simpl. apply NoDup_cons. split; [intros H; inversion H|apply NoDup_nil_2].
  - intros q Hq. exact Hq.
  - apply list_elem_of_singleton. reflexivity.
  - discriminate.
  - reflexivity.
  - reflexivity.
  - reflexivity.
  - intros [_ H]. discriminate H.
  - reflexivity.
Defined.

(** One save leaves every sentinel row where and as it is, and keeps the
    primary keys of the table. *)
Lemma save_keeps_invalid text_from_html make_updater nodes annotations self a i :
  NoDup (id <$> annotations) ->
  annotations !! i = Some a ->
  is_invalid a ->
  match AnnotatedModel.save text_from_html make_updater nodes annotations self with
  | Ok (_, annotations') =>
      annotations' !! i = Some a /\ id <$> annotations' = id <$> annotations
  | Raise _ => True
  end.
Proof.
  intros Hnd Hi Hinv. unfold AnnotatedModel.save.
  destruct (_ && _); [|auto].
  destruct (AnnotatedModel.original_content self) as [before|]; [|exact I].
  destruct (AnnotatedModel.content self) as [after|]; [|exact I].
  unfold update_annotations.
  destruct (bool_decide _); [auto|].
  set (updater := make_updater _ _).
  destruct (collect_updates updater _) as [us|] eqn:Hc; [|exact I].
  destruct us as [|u us']; [auto|].
  split; [|apply bulk_update_offsets_ids].
  apply bulk_update_offsets_untouched; [exact Hi|].
  intros r Hr Hid.
  apply (collect_updates_spec _ _ _ Hc) in Hr as (q & Hq & Hu).
  apply list_elem_of_filter in Hq as [_ Hq].
  unfold AnnotatedModel.related_annotations in Hq.
  apply list_elem_of_filter in Hq as [_ Hq].
  unfold valid in Hq. apply list_elem_of_filter in Hq as [Hvalid Hq].
  pose proof (update_one_id _ _ _ Hu) as Hidq.
  assert (q = a) as ->.
  { apply (NoDup_id_inj annotations); auto.
    - eapply list_elem_of_lookup_2; eauto.
    - congruence. }
  contradiction.
Qed.

(** Claim C10: once an annotation carries the offsets (-1, -1), no later
    save of a resource's text changes its row: the pass only sees the
    [valid()] annotations. *)
Theorem C10_invalidation_is_permanent
    (text_from_html : string -> string)
    (make_updater : string -> string -> AnnotationUpdater)
    (nodes : list ContentNode.t) (instances : list AnnotatedModel.t)
    (annotations : list t) (a : t) (i : nat) :
  NoDup (id <$> annotations) ->
  annotations !! i = Some a ->
  global_start_offset a = Some (-1) ->
  global_end_offset a = Some (-1) ->
  (AnnotatedModel.saves text_from_html make_updater nodes annotations instances).2 !! i
  = Some a.
Proof.
  intros Hnd Hi Hs He. revert annotations Hnd Hi.
  induction instances as [|self rest IH]; intros annotations Hnd Hi; simpl.
  - exact Hi.
  - pose proof (save_keeps_invalid text_from_html make_updater nodes annotations self
                  a i Hnd Hi (conj Hs He)) as Hsave.
    destruct (AnnotatedModel.save _ _ _ _ _) as [[self' annotations']|e].
    + destruct Hsave as [Hi' Hids]. apply IH; [rewrite Hids; exact Hnd|exact Hi'].
    + exact Hi.
Qed.

Lemma C10_invalidation_is_permanent_witness :
  let dead := mk 1 "note" None (Some (-1)) (Some (-1)) 7 in
  let live := mk 2 "highlight" None (Some 1) (Some 3) 7 in
  let upd := mk_updater 0 (fun o => match o with
                                    | Some x => Ok (x + 1)
                                    | None => Raise AttributeError
                                    end) in
  let node := ContentNode.mk 7 (Some 1) [1] [1] true [] (Some "TextBlock"%string) (Some 4) in
  let block := AnnotatedModel.mk "TextBlock" (Some 4) (Some "xabc"%string)
                 (Some "abc"%string) in
  (AnnotatedModel.saves (fun x => x) (fun _ _ => upd) [node] [dead; live] [block]).2
    !! 0%nat = Some dead.
Proof.
  intros dead live upd node block.
  apply (C10_invalidation_is_permanent (fun x => x) (fun _ _ => upd) [node] [block]
           [dead; live] dead 0).
  - simpl. apply NoDup_cons. split.
    + intros H. apply list_elem_of_singleton in H. discriminate H.
    + apply NoDup_cons. split; [intros H; inversion H|apply NoDup_nil_2].
  - reflexivity.
  - reflexivity.
  - reflexivity.
Defined.

End annotation_claims.

(** ** The content tree *)

Section tree_facts.
Import ContentNode.

Lemma update_ordinals_from_unfold so sd r cs :
  update_ordinals_from so sd (Node r cs) = update_ordinals_loop so sd 0 0 cs.
Proof.
  simpl. generalize 0 at 2 4. generalize 0.
  induction cs as [|c cs IH]; intros i d; [reflexivity|].
  simpl. rewrite IH. reflexivity.
Qed.

Lemma py_max_or_0_spec l : max_or_0 l (py_max_or_0 l).
Proof.
  destruct l as [|x l]; [left; auto|right]. simpl.
  induction l as [|y l [IHin IHle]]; simpl.
  - split; [apply list_elem_of_here|].
    intros z Hz. apply list_elem_of_singleton in Hz. lia.
  - split.
    + destruct (Z.max_spec y (foldr Z.max x l)) as [[_ ->]|[_ ->]].
      * apply elem_of_cons in IHin as [->|Hin].
        -- apply list_elem_of_here.
        -- do 2 apply list_elem_of_further. exact Hin.
      * apply list_elem_of_further, list_elem_of_here.
    + intros z Hz. apply elem_of_cons in Hz as [->|Hz].
      * specialize (IHle x (list_elem_of_here _ _)). lia.
      * apply elem_of_cons in Hz as [->|Hz]; [lia|].
        specialize (IHle z (list_elem_of_further _ _ _ Hz)). lia.
Qed.

Lemma map_result_last_ordinals (f : t -> list Z) (cs : list Tree) :
  (forall c, c ∈ cs -> f (row c) <> []) ->
  exists l, map_result (fun x => py_last (f (row x))) cs = Ok l
            /\ Forall2 (fun c z => last (f (row c)) = Some z) cs l.
Proof.
  induction cs as [|c cs IH]; intros H.
  - exists []. split; [reflexivity|constructor].
  - destruct IH as (l & Hl & HF).
    { intros c' Hc'. apply H. by apply list_elem_of_further. }
    destruct (last (f (row c))) as [z|] eqn:Hz.
    + exists (z :: l). cbn [map_result]. rewrite Hl.
      unfold py_last. rewrite Hz.
      split; [reflexivity|constructor; auto].
    + apply last_None in Hz. exfalso. eapply H; [apply list_elem_of_here|exact Hz].
Qed.

Lemma Forall2_last_fmap (f : t -> list Z) (cs : list Tree) l :
  Forall2 (fun c z => last (f (row c)) = Some z) cs l ->
  l = (fun c => default 0 (last (f (row c)))) <$> cs.
Proof.
  induction 1 as [|c z cs l Hz _ IH]; [reflexivity|].
  simpl. rewrite Hz, IH. reflexivity.
Qed.

Lemma elem_of_flat_map {A B : Type} (f : A -> list B) (l : list A) (y : B) :
  y ∈ flat_map f l <-> exists x, x ∈ l /\ y ∈ f x.
Proof.
  rewrite list_elem_of_In, in_flat_map. split.
  - intros (x & Hx & Hy). exists x. by rewrite !list_elem_of_In.
  - intros (x & Hx & Hy). exists x. by rewrite <- !list_elem_of_In.
Qed.

Lemma subtree_at_row_in (self : Tree) p x :
  subtree_at self p = Some x -> row x ∈ rows self.
Proof.
  revert self. induction p as [|i p IH]; intros [r cs]; simpl.
  - intros [= <-]. apply list_elem_of_here.
  - destruct (cs !! i) as [c|] eqn:Hc; [|discriminate].
    intros H. apply list_elem_of_further, elem_of_flat_map.
    exists c. split; [eapply list_elem_of_lookup_2; eauto|auto].
Qed.

(** Rows of different children carry different primary keys when the
    primary keys below a node are pairwise distinct. *)
Lemma NoDup_flat_map_lookup (cs : list Tree) i j a b u v :
  NoDup (id <$> flat_map rows cs) ->
  i <> j -> cs !! i = Some a -> cs !! j = Some b ->
  u ∈ rows a -> v ∈ rows b -> id u <> id v.
Proof.
  revert i j. induction cs as [|c cs IH]; intros i j Hnd Hij Ha Hb Hu Hv; [done|].
  simpl in Hnd. rewrite fmap_app in Hnd. apply NoDup_app in Hnd as (Hc & Hdisj & Hcs).
  assert (Hin : forall k y w, cs !! k = Some y -> w ∈ rows y ->
                              id w ∈ id <$> flat_map rows cs).
  { intros k y w Hk Hw. apply list_elem_of_fmap. exists w. split; [done|].
    apply elem_of_flat_map. exists y. split; [eapply list_elem_of_lookup_2; eauto|done]. }
  destruct i as [|i], j as [|j]; simpl in Ha, Hb; try done.
  - injection Ha as <-. intros Heq.
    apply (Hdisj (id u)); [apply list_elem_of_fmap; eauto|].
    rewrite Heq. eapply Hin; eauto.
  - injection Hb as <-. intros Heq.
    apply (Hdisj (id v)); [apply list_elem_of_fmap; eauto|].
    rewrite <- Heq. eapply Hin; eauto.
  - eapply (IH i j); eauto.
Qed.

Lemma NoDup_flat_map_child (cs : list Tree) i c :
  NoDup (id <$> flat_map rows cs) -> cs !! i = Some c -> NoDup (id <$> rows c).
Proof.
  revert i. induction cs as [|c' cs IH]; intros i Hnd Hi; [done|].
  simpl in Hnd. rewrite fmap_app in Hnd. apply NoDup_app in Hnd as (Hc & _ & Hcs).
  destruct i as [|i]; simpl in Hi.
  - by injection Hi as <-.
  - eapply IH; eauto.
Qed.

(** Two different positions of a tree with pairwise distinct primary keys
    hold nodes with different primary keys. *)
Lemma distinct_positions_distinct_ids (self : Tree) :
  NoDup (id <$> rows self) ->
  forall p q x y,
    p <> q -> subtree_at self p = Some x -> subtree_at self q = Some y ->
    id (row x) <> id (row y).
Proof.
  induction self as [r cs IH] using Tree_ind. intros Hnd p q x y Hpq Hx Hy.
  simpl in Hnd. apply NoDup_cons in Hnd as [Hr Hcs].
  assert (Hbelow : forall i p' c z, cs !! i = Some c -> subtree_at c p' = Some z ->
                                    id (row z) <> id r).
  { intros i p' c z Hc Hz Heq. apply Hr. rewrite <- Heq.
    apply list_elem_of_fmap. exists (row z). split; [done|].
    apply elem_of_flat_map. exists c.
    split; [eapply list_elem_of_lookup_2; eauto|eapply subtree_at_row_in; eauto]. }
  destruct p as [|i p], q as [|j q]; simpl in Hx, Hy; try done.
  - injection Hx as <-. destruct (cs !! j) as [c|] eqn:Hc; [|done].
    intros Heq. eapply Hbelow; eauto.
  - injection Hy as <-. destruct (cs !! i) as [c|] eqn:Hc; [|done].
    eapply Hbelow; eauto.
  - destruct (cs !! i) as [a|] eqn:Ha; [|done].
    destruct (cs !! j) as [b|] eqn:Hb; [|done].
    destruct (decide (i = j)) as [->|Hij].
    + assert (a = b) as -> by congruence.
      rewrite Forall_forall in IH.
      eapply (IH b); [eapply list_elem_of_lookup_2; eauto| |
                      |exact Hx|exact Hy].
      * eapply NoDup_flat_map_child; eauto.
      * congruence.
    + eapply NoDup_flat_map_lookup; eauto using subtree_at_row_in.
Qed.

(** *** The pass leaves the path invariant behind *)

Lemma update_ordinals_loop_ordered so sd cs :
  Forall (fun c => forall so sd, ordered_from so 0 (update_ordinals_from so sd c).1) cs ->
  forall i d, ordered_from so i (update_ordinals_loop so sd i d cs).1.
Proof.
  induction 1 as [|c cs Hc _ IH]; intros i d; simpl; [constructor|].
  set (d' := if does_display_ordinals (row c) then d + 1 else d).
  set (changed := _ || _ || _).
  set (node' := if changed then _ else row c).
  specialize (Hc (ordinals node') (display_ordinals node')).
  destruct (update_ordinals_from _ _ c) as [gcs' below].
  specialize (IH (i + 1) d').
  destruct (update_ordinals_loop so sd (i + 1) d' cs) as [rest' after].
  simpl in *. constructor; [|exact Hc|exact IH].
  subst node'. destruct changed eqn:Hch; [reflexivity|].
  subst changed. apply orb_false_iff in Hch as [Hch _].
  apply orb_false_iff in Hch as [Hch _].
  apply negb_false_iff, bool_decide_eq_true in Hch. exact Hch.
Qed.

Lemma update_ordinals_from_ordered (x : Tree) :
  forall so sd, ordered_from so 0 (update_ordinals_from so sd x).1.
Proof.
  induction x as [r cs IH] using Tree_ind. intros so sd.
  rewrite update_ordinals_from_unfold. by apply update_ordinals_loop_ordered.
Qed.

Lemma casebook_update_ordinals_loop_ordered cs :
  forall i d, ordered_from [] i (Casebook.update_ordinals_loop i d cs).1.
Proof.
  induction cs as [|c cs IH]; intros i d; simpl; [constructor|].
  set (d' := if does_display_ordinals (row c) then d + 1 else d).
  set (changed := _ || _ || _).
  set (node' := if changed then _ else row c).
  pose proof (update_ordinals_from_ordered c (ordinals node') (display_ordinals node')) as Hc.
  destruct (update_ordinals_from _ _ c) as [gcs' below].
  specialize (IH (i + 1) d').
  destruct (Casebook.update_ordinals_loop (i + 1) d' cs) as [rest' after].
  simpl in *. constructor; [|exact Hc|exact IH].
  subst node'. destruct changed eqn:Hch; [reflexivity|].
  subst changed. apply orb_false_iff in Hch as [Hch _].
  apply orb_false_iff in Hch as [Hch _].
  apply negb_false_iff, bool_decide_eq_true in Hch. exact Hch.
Qed.

Lemma ordered_from_lookup o i cs :
  ordered_from o i cs ->
  forall j c, cs !! j = Some c ->
    ordinals (row c) = o ++ [i + Z.of_nat j + 1]
    /\ ordered_from (ordinals (row c)) 0 (children c).
Proof.
  induction 1 as [|o i r gcs rest Hr Hg _ Hrest IH]; intros j c Hj; [done|].
  destruct j as [|j]; simpl in Hj.
  - injection Hj as <-. simpl. split; [|exact Hg].
    rewrite Hr. do 2 f_equal. lia.
  - destruct (IH j c Hj) as [-> Hc]. split; [|exact Hc].
    do 2 f_equal. lia.
Qed.


(** *** The order of the ordinals *)

Lemma ordinals_leb_refl a : ordinals_leb a a = true.
Proof.
  induction a as [|x a IH]; simpl; [done|].
  rewrite Z.eqb_refl, IH. by rewrite orb_true_r.
Qed.

Lemma ordinals_leb_total a b : ordinals_leb a b = true \/ ordinals_leb b a = true.
Proof.
  revert b. induction a as [|x a IH]; intros [|y b]; simpl; auto.
  destruct (Z.ltb_spec x y); simpl; auto.
  destruct (Z.ltb_spec y x); simpl; auto.
  assert (x = y) as -> by lia. rewrite Z.eqb_refl. simpl. apply IH.
Qed.

Lemma ordinals_leb_cons x a y b :
  ordinals_leb (x :: a) (y :: b) = true <-> x < y \/ (x = y /\ ordinals_leb a b = true).
Proof.
  simpl. rewrite orb_true_iff, andb_true_iff, Z.ltb_lt, Z.eqb_eq. tauto.
Qed.

Lemma ordinals_leb_trans a b c :
  ordinals_leb a b = true -> ordinals_leb b c = true -> ordinals_leb a c = true.
Proof.
  revert b c. induction a as [|x a IH]; intros [|y b] [|z c]; try done.
  rewrite !ordinals_leb_cons. intros [?|[-> ?]] [?|[-> ?]]; eauto with lia.
Qed.

Lemma ordinals_leb_antisym a b :
  ordinals_leb a b = true -> ordinals_leb b a = true -> a = b.
Proof.
  revert b. induction a as [|x a IH]; intros [|y b]; try done.
  rewrite !ordinals_leb_cons. intros [?|[-> ?]] [?|[? ?]]; try lia.
  f_equal. by apply IH.
Qed.

#[local] Instance by_ordinals_total : Total by_ordinals.
Proof. intros x y. apply ordinals_leb_total. Qed.

#[local] Instance by_ordinals_trans : Transitive by_ordinals.
Proof. intros x y z. apply ordinals_leb_trans. Qed.

(** An extension comes after what it extends. *)
Lemma row_lt_extension (o tail : list Z) j x y :
  ordinals x = o -> ordinals y = o ++ j :: tail -> row_lt x y.
Proof.
  intros Hx Hy. unfold row_lt. rewrite Hy, Hx. clear Hx Hy. split.
  - induction o as [|z o IH]; [done|].
    simpl. rewrite Z.eqb_refl, IH. by rewrite orb_true_r.
  - intros Heq. apply (f_equal length) in Heq. rewrite length_app in Heq.
    simpl in Heq. lia.
Qed.

(** Branches of a node come in the order of their ordinal. *)
Lemma row_lt_branch (o t1 t2 : list Z) j1 j2 x y :
  j1 < j2 -> ordinals x = o ++ j1 :: t1 -> ordinals y = o ++ j2 :: t2 -> row_lt x y.
Proof.
  intros Hlt Hx Hy. unfold row_lt. rewrite Hx, Hy. clear Hx Hy. split.
  - induction o as [|z o IH]; simpl.
    + apply Z.ltb_lt in Hlt. by rewrite Hlt.
    + rewrite Z.eqb_refl, IH. by rewrite orb_true_r.
  - intros Heq. apply app_inv_head in Heq. injection Heq as Heq _. lia.
Qed.

Lemma ordered_from_rows_shape o i forest :
  ordered_from o i forest ->
  forall x, x ∈ forest_rows forest -> exists j tail, i + 1 <= j /\ ordinals x = o ++ j :: tail.
Proof.
  induction 1 as [|o i r gcs rest Hr _ IHg _ IHrest]; intros x Hx.
  { inversion Hx. }
  unfold forest_rows in Hx. simpl in Hx.
  apply elem_of_cons in Hx as [->|Hx].
  - exists (i + 1), []. split; [lia|exact Hr].
  - apply elem_of_app in Hx as [Hx|Hx].
    + destruct (IHg x Hx) as (j & tail & _ & Hj).
      exists (i + 1), (j :: tail). split; [lia|].
      rewrite Hj, Hr, <- app_assoc. reflexivity.
    + destruct (IHrest x Hx) as (j & tail & Hle & Hj).
      exists j, tail. split; [lia|exact Hj].
Qed.

(** In a forest with the path invariant, the rows read parents first and
    siblings in order are strictly increasing. *)
Lemma ordered_from_rows_sorted o i forest :
  ordered_from o i forest -> StronglySorted row_lt (forest_rows forest).
Proof.
  induction 1 as [|o i r gcs rest Hr Hg IHg Hrest IHrest]; [constructor|].
  unfold forest_rows. simpl. fold (forest_rows gcs) (forest_rows rest).
  apply StronglySorted_cons. split.
  - apply Forall_app. split; apply Forall_forall; intros y Hy.
    + destruct (ordered_from_rows_shape _ _ _ Hg y Hy) as (j & tail & _ & Hj).
      apply (row_lt_extension (ordinals r) tail j); [reflexivity|exact Hj].
    + destruct (ordered_from_rows_shape _ _ _ Hrest y Hy) as (j & tail & Hle & Hj).
      eapply (row_lt_branch o [] tail (i + 1) j); eauto. lia.
  - apply StronglySorted_app_2; [|exact IHg|exact IHrest].
    intros x y Hx Hy.
    destruct (ordered_from_rows_shape _ _ _ Hg x Hx) as (j1 & t1 & _ & Hj1).
    destruct (ordered_from_rows_shape _ _ _ Hrest y Hy) as (j2 & t2 & Hle & Hj2).
    rewrite Hr, <- app_assoc in Hj1. simpl in Hj1.
    eapply (row_lt_branch o _ _ (i + 1) j2); eauto. lia.
Qed.

Lemma StronglySorted_row_lt_by_ordinals l :
  StronglySorted row_lt l -> Sorted by_ordinals l.
Proof.
  intros H. apply StronglySorted_Sorted.
  induction H as [|x l _ IH Hx]; constructor; [exact IH|].
  eapply Forall_impl; [exact Hx|]. by intros y [Hy _].
Qed.

Lemma StronglySorted_row_lt_inj l x y :
  StronglySorted row_lt l -> x ∈ l -> y ∈ l -> ordinals x = ordinals y -> x = y.
Proof.
  induction 1 as [|z l _ IH Hz]; intros Hx Hy Heq; [inversion Hx|].
  rewrite Forall_forall in Hz.
  apply elem_of_cons in Hx as [->|Hx]; apply elem_of_cons in Hy as [->|Hy]; auto.
  - by destruct (Hz y Hy) as [_ Hne].
  - destruct (Hz x Hx) as [_ Hne]. by symmetry in Heq.
Qed.

(** Sorting a permutation of such rows gives back these rows. *)
Lemma order_by_ordinals_sorted o i forest l :
  ordered_from o i forest -> l ≡ₚ forest_rows forest ->
  order_by_ordinals l = forest_rows forest.
Proof.
  intros Hord Hperm.
  pose proof (ordered_from_rows_sorted _ _ _ Hord) as Hsorted.
  unfold order_by_ordinals.
  apply (Sorted_unique_strong by_ordinals).
  - intros x1 x2 Hx1 Hx2 H12 H21.
    apply (StronglySorted_row_lt_inj (forest_rows forest)); auto.
    + rewrite <- Hperm, <- (merge_sort_Permutation by_ordinals l). exact Hx1.
    + by apply ordinals_leb_antisym.
  - apply Sorted_merge_sort. apply _.
  - by apply StronglySorted_row_lt_by_ordinals.
  - by rewrite merge_sort_Permutation.
Qed.

(** *** Appending to the children of a position *)

Lemma append_at_children forest pos x :
  valid_pos forest pos ->
  children_at (append_at forest pos x) pos = children_at forest pos ++ [x].
Proof.
  revert forest. induction pos as [|i pos IH]; intros forest Hv; simpl in *; [done|].
  destruct (forest !! i) as [c|] eqn:Hc; [|done].
  rewrite list_lookup_insert_eq by (eapply lookup_lt_Some; eauto).
  simpl. by apply IH.
Qed.

Lemma append_at_valid forest p q x :
  valid_pos forest q -> valid_pos (append_at forest p x) q.
Proof.
  revert forest q. induction p as [|i p IH]; intros forest q Hv; simpl.
  - destruct q as [|j q]; simpl in *; [done|].
    destruct (forest !! j) as [c|] eqn:Hc; [|done].
    by rewrite (lookup_app_l_Some _ _ _ _ Hc).
  - destruct (forest !! i) as [c|] eqn:Hc; [|done].
    destruct q as [|j q]; simpl in *; [done|].
    destruct (decide (i = j)) as [<-|Hne].
    + rewrite list_lookup_insert_eq by (eapply lookup_lt_Some; eauto).
      rewrite Hc in Hv. simpl. by apply IH.
    + by rewrite list_lookup_insert_ne.
Qed.

Lemma append_at_new_valid forest pos x :
  valid_pos forest pos ->
  valid_pos (append_at forest pos x) (pos ++ [length (children_at forest pos)]).
Proof.
  revert forest. induction pos as [|i pos IH]; intros forest Hv; simpl in *.
  - by rewrite list_lookup_middle.
  - destruct (forest !! i) as [c|] eqn:Hc; [|done].
    rewrite list_lookup_insert_eq by (eapply lookup_lt_Some; eauto).
    simpl. by apply IH.
Qed.

Lemma append_at_new_children forest pos x :
  valid_pos forest pos ->
  children_at (append_at forest pos x) (pos ++ [length (children_at forest pos)])
  = children x.
Proof.
  revert forest. induction pos as [|i pos IH]; intros forest Hv; simpl in *.
  - by rewrite list_lookup_middle.
  - destruct (forest !! i) as [c|] eqn:Hc; [|done].
    rewrite list_lookup_insert_eq by (eapply lookup_lt_Some; eauto).
    simpl. by apply IH.
Qed.

Lemma append_at_nested forest pos r cs y :
  valid_pos forest pos ->
  append_at (append_at forest pos (Node r cs))
    (pos ++ [length (children_at forest pos)]) y
  = append_at forest pos (Node r (cs ++ [y])).
Proof.
  revert forest. induction pos as [|i pos IH]; intros forest Hv; simpl in *.
  - rewrite list_lookup_middle by done. simpl.
    replace (length forest) with (length forest + 0)%nat at 1 by lia.
    by rewrite insert_app_r.
  - destruct (forest !! i) as [c|] eqn:Hc; [|done].
    rewrite list_lookup_insert_eq by (eapply lookup_lt_Some; eauto).
    simpl. rewrite list_insert_insert_eq. by rewrite IH.
Qed.

Lemma forest_rows_app f1 f2 : forest_rows (f1 ++ f2) = forest_rows f1 ++ forest_rows f2.
Proof. apply flat_map_app. Qed.

Lemma append_at_rows forest pos x :
  valid_pos forest pos ->
  forest_rows (append_at forest pos x) ≡ₚ forest_rows forest ++ rows x.
Proof.
  revert forest. induction pos as [|i pos IH]; intros forest Hv; simpl in *.
  - rewrite forest_rows_app. unfold forest_rows at 2. simpl. by rewrite app_nil_r.
  - destruct (forest !! i) as [c|] eqn:Hc; [|done].
    rewrite insert_take_drop by (eapply lookup_lt_Some; eauto).
    rewrite <- (take_drop_middle forest i c Hc) at 3.
    rewrite !forest_rows_app.
    change (forest_rows (?a :: ?l)) with (rows a ++ forest_rows l).
    destruct c as [r cs]. simpl in *.
    rewrite (IH cs Hv).
    change (flat_map rows cs) with (forest_rows cs).
    rewrite <- !app_assoc. apply Permutation_app_head. simpl. apply perm_skip.
    rewrite <- !app_assoc. apply Permutation_app_head. apply Permutation_app_comm.
Qed.

(** *** Loading the tree of a casebook *)

Lemma find_parent_valid st rev_parent_ords :
  positions_valid st -> valid_pos st.2 (Casebook.find_parent st.1 rev_parent_ords).
Proof.
  intros Hinv. induction rev_parent_ords as [|z l IH]; simpl; [done|].
  destruct (st.1 !! reverse (z :: l)) as [pos|] eqn:Hpos; [|exact IH].
  eapply Hinv; eauto.
Qed.

Lemma load_step_valid st node :
  positions_valid st -> positions_valid (Casebook.load_step st node).
Proof.
  intros Hinv. pose proof (find_parent_valid st
    (reverse (take (length (ordinals node) - 1) (ordinals node))) Hinv) as Hparent.
  destruct st as [m top]. unfold Casebook.load_step. simpl in *.
  intros key pos Hkey. simpl in *.
  destruct (decide (ordinals node = key)) as [<-|Hne].
  - rewrite lookup_insert_eq in Hkey. injection Hkey as <-.
    by apply append_at_new_valid.
  - rewrite lookup_insert_ne in Hkey by done.
    apply append_at_valid. eapply (Hinv key); eauto.
Qed.

(** Every row handed to the loop ends up in the loaded tree, once. *)
Lemma load_fold_rows nodes st :
  positions_valid st ->
  forest_rows (foldl Casebook.load_step st nodes).2 ≡ₚ forest_rows st.2 ++ nodes.
Proof.
  revert st. induction nodes as [|node nodes IH]; intros st Hinv; simpl.
  - by rewrite app_nil_r.
  - rewrite IH by (by apply load_step_valid).
    pose proof (find_parent_valid st
      (reverse (take (length (ordinals node) - 1) (ordinals node))) Hinv) as Hparent.
    destruct st as [m top]. unfold Casebook.load_step. simpl in *.
    rewrite append_at_rows by done. simpl.
    by rewrite <- app_assoc.
Qed.

Lemma load_rows table casebook :
  forest_rows (Casebook.content_tree__load table casebook)
  ≡ₚ Casebook.contents table casebook.
Proof.
  unfold Casebook.content_tree__load.
  rewrite load_fold_rows; [done|]. intros key pos Hkey. simpl in Hkey.
  by rewrite lookup_empty in Hkey.
Qed.

Lemma append_forest_nested forest pos r gcs :
  valid_pos forest pos ->
  forall cs0,
    foldl (fun G x => append_at G (pos ++ [length (children_at forest pos)]) x)
      (append_at forest pos (Node r cs0)) gcs
    = append_at forest pos (Node r (cs0 ++ gcs)).
Proof.
  intros Hv. induction gcs as [|y gcs IH]; intros cs0; simpl.
  - by rewrite app_nil_r.
  - rewrite append_at_nested by done. rewrite IH.
    by rewrite <- app_assoc.
Qed.

Lemma append_forest_top forest0 forest :
  foldl (fun G x => append_at G [] x) forest0 forest = forest0 ++ forest.
Proof.
  revert forest0. induction forest as [|x forest IH]; intros forest0; simpl.
  - by rewrite app_nil_r.
  - rewrite IH. by rewrite <- app_assoc.
Qed.

(** Fed with the rows of a forest that has the path invariant, the loop
    rebuilds that forest below the position of its parent. *)
Lemma load_fold_ordered o i forest :
  ordered_from o i forest ->
  forall (m : gmap (list Z) (list nat)) (G : list Tree) (pos : list nat),
    valid_pos G pos ->
    (o = [] -> pos = []) ->
    (o <> [] -> m !! o = Some pos) ->
    Z.of_nat (length (children_at G pos)) = i ->
    exists m',
      foldl Casebook.load_step (m, G) (forest_rows forest)
      = (m', foldl (fun G x => append_at G pos x) G forest)
      /\ forall key, (length key <= length o)%nat -> m' !! key = m !! key.
Proof.
  induction 1 as [|o i r gcs rest Hr Hg IHg Hrest IHrest];
    intros m G pos Hv Hroot Hkey Hlen.
  { exists m. split; [reflexivity|auto]. }
  change (forest_rows (Node r gcs :: rest))
    with (r :: (forest_rows gcs ++ forest_rows rest)).
  cbn [foldl]. rewrite foldl_app.
  set (k := length (children_at G pos)).
  assert (Hstep : Casebook.load_step (m, G) r
                  = (<[ordinals r := pos ++ [k]]> m, append_at G pos (Node r []))).
  { unfold Casebook.load_step.
    assert (Htake : take (length (ordinals r) - 1) (ordinals r) = o).
    { rewrite Hr, length_app. simpl.
      replace (length o + 1 - 1)%nat with (length o) by lia.
      by rewrite take_app_length. }
    rewrite Htake.
    assert (Hparent : Casebook.find_parent m (reverse o) = pos).
    { destruct (decide (o = [])) as [->|Hne].
      - simpl. symmetry. by apply Hroot.
      - destruct (reverse o) as [|z l] eqn:Hrev.
        + apply (f_equal reverse) in Hrev. rewrite reverse_involutive in Hrev. done.
        + simpl. rewrite <- Hrev, reverse_involutive, (Hkey Hne). done. }
    rewrite Hparent. reflexivity. }
  rewrite Hstep.
  assert (Hne : ordinals r <> o).
  { rewrite Hr. intros Heq. apply (f_equal length) in Heq.
    rewrite length_app in Heq. simpl in Heq. lia. }
  destruct (IHg (<[ordinals r := pos ++ [k]]> m) (append_at G pos (Node r []))
              (pos ++ [k])) as (m2 & Hfold2 & Hm2).
  { by apply append_at_new_valid. }
  { intros Heq. rewrite Hr in Heq. by destruct o. }
  { intros _. by rewrite lookup_insert_eq. }
  { subst k. rewrite append_at_new_children by done. reflexivity. }
  rewrite Hfold2. subst k. rewrite append_forest_nested by done.
  rewrite app_nil_l.
  destruct (IHrest m2 (append_at G pos (Node r gcs)) pos) as (m3 & Hfold3 & Hm3).
  { by apply append_at_valid. }
  { exact Hroot. }
  { intros Ho. rewrite Hm2 by (rewrite Hr, length_app; simpl; lia).
    rewrite lookup_insert_ne by done. by apply Hkey. }
  { rewrite append_at_children by done. rewrite length_app. simpl. lia. }
  exists m3. split; [exact Hfold3|].
  intros key Hle. rewrite Hm3 by done.
  rewrite Hm2 by (rewrite Hr, length_app; simpl; lia).
  apply lookup_insert_ne. intros Heq. subst key.
  rewrite Hr, length_app in Hle. simpl in Hle. lia.
Qed.

Lemma load_ordered forest :
  ordered_from [] 0 forest ->
  (foldl Casebook.load_step (∅, []) (forest_rows forest)).2 = forest.
Proof.
  intros Hord.
  destruct (load_fold_ordered _ _ _ Hord ∅ [] []) as (m' & Hfold & _); try done.
  rewrite Hfold. simpl. apply append_forest_top.
Qed.

(** *** What the pass changes, and what it writes *)

Lemma update_ordinals_loop_cons so sd i d c rest :
  update_ordinals_loop so sd i d (c :: rest)
  = let d' := next_display_ordinal d (row c) in
    let node' := updated_row (so ++ [i + 1]) (sd ++ [d']) (row c) in
    let below := update_ordinals_loop (ordinals node') (display_ordinals node') 0 0
                   (children c) in
    let after := update_ordinals_loop so sd (i + 1) d' rest in
    (Node node' below.1 :: after.1,
     (if needs_update (so ++ [i + 1]) (sd ++ [d']) (row c) then [node'] else [])
       ++ below.2 ++ after.2).
Proof.
  cbn [update_ordinals_loop]. destruct c as [r gcs].
  rewrite update_ordinals_from_unfold. cbn [row children].
  unfold updated_row, needs_update, next_display_ordinal.
  destruct (update_ordinals_loop _ _ 0 0 gcs).
  by destruct (update_ordinals_loop so sd (i + 1) _ rest).
Qed.

Lemma casebook_update_ordinals_loop_cons i d c rest :
  Casebook.update_ordinals_loop i d (c :: rest)
  = let d' := next_display_ordinal d (row c) in
    let node' := Casebook.updated_row i d' (row c) in
    let below := update_ordinals_loop (ordinals node') (display_ordinals node') 0 0
                   (children c) in
    let after := Casebook.update_ordinals_loop (i + 1) d' rest in
    (Node node' below.1 :: after.1,
     (if Casebook.needs_update i d' (row c) then [node'] else [])
       ++ below.2 ++ after.2).
Proof.
  cbn [Casebook.update_ordinals_loop]. destruct c as [r gcs].
  rewrite update_ordinals_from_unfold. cbn [row children].
  unfold Casebook.updated_row, Casebook.needs_update, next_display_ordinal.
  destruct (update_ordinals_loop _ _ 0 0 gcs).
  by destruct (Casebook.update_ordinals_loop (i + 1) _ rest).
Qed.

Lemma same_but_ordinals_refl r : same_but_ordinals r r.
Proof. by destruct r. Qed.

Lemma updated_row_changed c dn node :
  dn <> [] ->
  same_but_ordinals node (updated_row c dn node)
  /\ (if needs_update c dn node then [updated_row c dn node] else [])
     = (if decide (node = updated_row c dn node) then [] else [updated_row c dn node]).
Proof.
  intros Hdn. unfold updated_row. destruct (needs_update c dn node) eqn:Hch.
  - split; [reflexivity|]. rewrite decide_False; [done|].
    intros Heq.
    assert (H1 : ordinals node = c) by (by rewrite Heq).
    assert (H2 : display_ordinals node = dn) by (by rewrite Heq).
    unfold needs_update in Hch.
    rewrite (bool_decide_eq_true_2 _ H1), (bool_decide_eq_true_2 _ H2) in Hch.
    rewrite bool_decide_eq_false_2 in Hch by congruence. discriminate.
  - split; [apply same_but_ordinals_refl|]. by rewrite decide_True.
Qed.

Lemma casebook_updated_row_changed i d node :
  same_but_ordinals node (Casebook.updated_row i d node)
  /\ (if Casebook.needs_update i d node then [Casebook.updated_row i d node] else [])
     = (if decide (node = Casebook.updated_row i d node) then []
        else [Casebook.updated_row i d node]).
Proof.
  unfold Casebook.updated_row. destruct (Casebook.needs_update i d node) eqn:Hch.
  - split; [reflexivity|]. rewrite decide_False; [done|].
    intros Heq.
    assert (H1 : ordinals node = [i + 1]) by (by rewrite Heq).
    assert (H2 : display_ordinals node = [d]) by (by rewrite Heq).
    unfold Casebook.needs_update in Hch.
    rewrite (bool_decide_eq_true_2 _ H1) in Hch. rewrite H2 in Hch.
    simpl in Hch. rewrite bool_decide_eq_true_2 in Hch by done. discriminate.
  - split; [apply same_but_ordinals_refl|]. by rewrite decide_True.
Qed.

Lemma changed_rows_cons r r' l l' :
  changed_rows (r :: l) (r' :: l')
  = (if decide (r = r') then [] else [r']) ++ changed_rows l l'.
Proof. unfold changed_rows. simpl. by destruct (decide (r = r')). Qed.

Lemma changed_rows_app a a' b b' :
  length a = length a' ->
  changed_rows (a ++ b) (a' ++ b') = changed_rows a a' ++ changed_rows b b'.
Proof.
  intros Hlen. unfold changed_rows.
  rewrite zip_with_app by done. apply omap_app.
Qed.

Lemma pass_spec_cons r r' gcs gcs' rest rest' mine below after :
  same_but_ordinals r r' ->
  mine = (if decide (r = r') then [] else [r']) ->
  pass_spec gcs gcs' below ->
  pass_spec rest rest' after ->
  pass_spec (Node r gcs :: rest) (Node r' gcs' :: rest') (mine ++ below ++ after).
Proof.
  intros Hr -> [Hg ->] [Hrest ->]. unfold pass_spec.
  change (forest_rows (Node r gcs :: rest))
    with (r :: (forest_rows gcs ++ forest_rows rest)).
  change (forest_rows (Node r' gcs' :: rest'))
    with (r' :: (forest_rows gcs' ++ forest_rows rest')).
  split.
  - constructor; [exact Hr|]. by apply Forall2_app.
  - rewrite changed_rows_cons. f_equal.
    rewrite changed_rows_app; [done|]. by eapply Forall2_length.
Qed.

Lemma update_ordinals_loop_spec cs :
  forall so sd i d,
    pass_spec cs (update_ordinals_loop so sd i d cs).1
      (update_ordinals_loop so sd i d cs).2.
Proof.
  induction cs as [|c cs IH] using (list_ind (A := Tree)).
  - intros so sd i d. simpl. split; [constructor|reflexivity].
  - revert cs IH. induction c as [r gcs IHg] using Tree_ind. intros cs IH so sd i d.
    rewrite update_ordinals_loop_cons. cbn zeta. cbn [fst snd row children].
    destruct (updated_row_changed (so ++ [i + 1])
                (sd ++ [next_display_ordinal d r]) r) as [Hsame Hmine].
    { by destruct sd. }
    apply pass_spec_cons; [exact Hsame|exact Hmine| |apply IH].
    clear IH Hsame Hmine.
    generalize (ordinals (updated_row (so ++ [i + 1]) (sd ++ [next_display_ordinal d r]) r)).
    generalize (display_ordinals
                  (updated_row (so ++ [i + 1]) (sd ++ [next_display_ordinal d r]) r)).
    generalize 0 at 1 3. generalize 0.
    induction IHg as [|g gcs Hg _ IHgcs]; intros i' d' sd' so'.
    + simpl. split; [constructor|reflexivity].
    + apply Hg. intros so'' sd'' i'' d''. apply IHgcs.
Qed.

Lemma forest_ind (P : list Tree -> Prop) :
  P [] ->
  (forall r gcs rest, P gcs -> P rest -> P (Node r gcs :: rest)) ->
  forall cs, P cs.
Proof.
  intros Hnil Hcons.
  assert (Hall : forall x, forall rest, P rest -> P (x :: rest)).
  { induction x as [r gcs IH] using Tree_ind. intros rest Hrest.
    apply Hcons; [|exact Hrest].
    induction IH as [|g gcs Hg _ IHgcs]; [exact Hnil|]. by apply Hg. }
  induction cs as [|c cs IH]; [exact Hnil|]. by apply Hall.
Qed.

Lemma casebook_update_ordinals_loop_spec cs :
  forall i d,
    pass_spec cs (Casebook.update_ordinals_loop i d cs).1
      (Casebook.update_ordinals_loop i d cs).2.
Proof.
  induction cs as [|[r gcs] cs IH]; intros i d.
  - simpl. split; [constructor|reflexivity].
  - rewrite casebook_update_ordinals_loop_cons. cbn zeta. cbn [fst snd row children].
    destruct (casebook_updated_row_changed i (next_display_ordinal d r) r)
      as [Hsame Hmine].
    apply pass_spec_cons; [exact Hsame|exact Hmine| |apply IH].
    apply update_ordinals_loop_spec.
Qed.

(** Written back by primary key, the yielded rows turn the rows before the
    pass into the rows after it. *)
Lemma changed_rows_elem before after y :
  Forall2 same_but_ordinals before after ->
  y ∈ changed_rows before after <->
  exists j r, before !! j = Some r /\ after !! j = Some y /\ r <> y.
Proof.
  induction 1 as [|r r' l l' Hr _ IH].
  - split; [intros Hy; inversion Hy|]. by intros (j & r & Hj & _).
  - rewrite changed_rows_cons, elem_of_app, IH. split.
    + intros [Hy|(j & r0 & Hj & Hj' & Hne)].
      * destruct (decide (r = r')) as [|Hne]; [inversion Hy|].
        apply list_elem_of_singleton in Hy. subst y. by exists 0%nat, r.
      * by exists (S j), r0.
    + intros ([|j] & r0 & Hj & Hj' & Hne); simpl in Hj, Hj'.
      * injection Hj as <-. injection Hj' as <-. left.
        rewrite decide_False by done. apply list_elem_of_here.
      * right. by exists j, r0.
Qed.

Lemma bulk_update_changed before after :
  Forall2 same_but_ordinals before after ->
  NoDup (id <$> before) ->
  bulk_update_ordinals before (changed_rows before after) = after.
Proof.
  intros HF Hnd. apply list_eq. intros k. unfold bulk_update_ordinals.
  rewrite list_lookup_fmap.
  destruct (before !! k) as [r|] eqn:Hk; simpl.
  2:{ symmetry. apply lookup_ge_None. apply lookup_ge_None in Hk.
      by rewrite <- (Forall2_length _ _ _ HF). }
  destruct (Forall2_lookup_l _ _ _ _ _ HF Hk) as (r' & Hk' & Hrr').
  rewrite Hk'. f_equal.
  assert (Hsame_id : forall j rj y, before !! j = Some rj -> after !! j = Some y ->
                                    id y = id r -> j = k).
  { intros j rj y Hj Hj' Hid.
    pose proof (Forall2_lookup_lr _ _ _ _ _ _ HF Hj Hj') as Hy.
    apply (NoDup_lookup (id <$> before) j k (id r)); [done| |].
    - rewrite list_lookup_fmap, Hj. simpl. rewrite <- Hid, Hy. done.
    - by rewrite list_lookup_fmap, Hk. }
  destruct (find _ _) as [y|] eqn:Hfind.
  - apply find_some in Hfind as [Hy Hid]. apply bool_decide_eq_true in Hid.
    apply list_elem_of_In, (changed_rows_elem _ _ _ HF) in Hy as (j & rj & Hj & Hj' & _).
    assert (j = k) as -> by eauto.
    assert (y = r') as -> by congruence.
    by rewrite <- Hrr'.
  - destruct (decide (r = r')) as [|Hne]; [done|]. exfalso.
    assert (Hin : r' ∈ changed_rows before after).
    { apply (changed_rows_elem _ _ _ HF). by exists k, r. }
    apply list_elem_of_In in Hin.
    pose proof (find_none _ _ Hfind r' Hin) as Hno. simpl in Hno.
    apply bool_decide_eq_false in Hno. apply Hno. by rewrite Hrr'.
Qed.

(** *** A second pass finds nothing to do *)








Lemma content_tree__update_ordinals_eq self :
  content_tree__update_ordinals self
  = update_ordinals_loop (ordinals (row self)) (display_ordinals (row self)) 0 0
      (children self).
Proof. destruct self as [r cs]. apply update_ordinals_from_unfold. Qed.

Lemma content_tree__store_eq table self :
  content_tree__store table self
  = (Node (row self) (content_tree__update_ordinals self).1,
     row self :: (content_tree__update_ordinals self).2,
     bulk_update_ordinals table (row self :: (content_tree__update_ordinals self).2)).
Proof.
  unfold content_tree__store, store_rows.
  by destruct (content_tree__update_ordinals self).
Qed.

(** *** Repairing a casebook twice *)

Lemma bulk_update_ordinals_casebook table rows c :
  filter (fun n => casebook_id n = Some c) (bulk_update_ordinals table rows)
  = bulk_update_ordinals (filter (fun n => casebook_id n = Some c) table) rows.
Proof.
  unfold bulk_update_ordinals.
  induction table as [|x table IH]; [done|].
  rewrite fmap_cons, !filter_cons, IH.
  set (x' := match find _ rows with Some r => _ | None => x end).
  assert (Hcb : casebook_id x' = casebook_id x).
  { subst x'. by destruct (find _ rows). }
  rewrite Hcb. by destruct (decide (casebook_id x = Some c)).
Qed.


Lemma NoDup_id_filter (P : t -> Prop) `{forall x, Decision (P x)} table :
  NoDup (id <$> table) -> NoDup (id <$> filter P table).
Proof.
  induction table as [|x table IH]; [done|].
  rewrite fmap_cons, filter_cons. intros [Hx Hnd]%NoDup_cons.
  destruct (decide (P x)); [|by apply IH].
  rewrite fmap_cons. apply NoDup_cons. split; [|by apply IH].
  intros Hin. apply Hx. apply list_elem_of_fmap in Hin as (y & Hy & Hin).
  apply list_elem_of_filter in Hin as [_ Hin].
  apply list_elem_of_fmap. eauto.
Qed.

(** After a repair, the rows of the casebook in the table are those of the
    repaired tree, and loading them again gives that tree. *)
Lemma casebook_repair_reload table casebook :
  NoDup (id <$> table) ->
  Casebook.content_tree__load (Casebook.content_tree__repair table casebook).2 casebook
  = (Casebook.content_tree__repair table casebook).1.1.
Proof.
  intros Hnd. unfold Casebook.content_tree__repair, Casebook.content_tree__store,
    Casebook.content_tree__update_ordinals.
  set (F := Casebook.content_tree__load table casebook).
  pose proof (casebook_update_ordinals_loop_ordered F 0 0) as Hord.
  pose proof (casebook_update_ordinals_loop_spec F 0 0) as [Hsame Hys].
  destruct (Casebook.update_ordinals_loop 0 0 F) as [F' ys]. simpl in *.
  unfold Casebook.content_tree__load at 1. unfold Casebook.contents.
  rewrite bulk_update_ordinals_casebook.
  assert (Hperm : forest_rows F
                  ≡ₚ filter (fun n => casebook_id n = Some (Casebook.id casebook)) table).
  { subst F. rewrite load_rows. unfold Casebook.contents, order_by_ordinals.
    apply merge_sort_Permutation. }
  assert (HndF : NoDup (id <$> forest_rows F)).
  { rewrite Hperm. by apply NoDup_id_filter. }
  rewrite (order_by_ordinals_sorted [] 0 F').
  - by apply load_ordered.
  - exact Hord.
  - unfold bulk_update_ordinals at 1. rewrite <- Hperm.
    fold (bulk_update_ordinals (forest_rows F) ys).
    subst ys. by rewrite bulk_update_changed.
Qed.

(** *** Paths of ordinals and the walk of [content_tree__get_descendant] *)

Lemma walk_cons cs pos o rest :
  walk cs pos (o :: rest)
  = match py_index (imap (fun i c => (i, c)) cs) (o - 1) with
    | Ok (i, c) => walk (children c) (pos ++ [i]) rest
    | Raise e => Raise e
    end.
Proof. done. Qed.

Lemma objects_get_elem {A : Type} (rows : list A) x : objects_get rows = Ok x -> x ∈ rows.
Proof.
  destruct rows as [|y [|z rows]]; [done| |done]. intros [= ->]. apply list_elem_of_here.
Qed.













End tree_facts.

Section tree_claims.
Import ContentNode.

(** Claim C2, as stated, does not hold for the casebook's method: its
    display component is one past the largest final display ordinal of
    all children, whether or not they show ordinals. Here the only child
    shows no ordinal (so the claim asks for 1) and carries the display
    ordinals [5]: the method answers 6. *)
Lemma C2_counterexample :
  ~ (forall top_level_children : list Tree,
        (forall c, c ∈ top_level_children ->
                   ordinals (row c) <> [] /\ display_ordinals (row c) <> []) ->
        exists m md,
          Casebook.content_tree__get_next_available_child_ordinals top_level_children
          = Ok ([m + 1], [md + 1])
          /\ max_or_0 ((fun c => default 0 (last (ordinals (row c))))
                         <$> top_level_children) m
          /\ max_or_0 ((fun c => default 0 (last (ordinals (row c))))
                         <$> filter (fun c => does_display_ordinals (row c) = true)
                               top_level_children) md).
Proof.
  intros H.
  destruct (H [Node (mk 5 (Some 1) [1] [5] false [] None None) []])
    as (m & md & Hrun & _ & Hmd).
  - intros c Hc. apply list_elem_of_singleton in Hc. subst c. simpl. split; discriminate.
  - injection Hrun as Hm Hd. simpl in Hmd.
    destruct Hmd as [[_ ->]|[Hin _]]; [discriminate Hd|inversion Hin].
Qed.

(** Claim C2, amended. For a content node whose loaded children all have
    ordinals, the method returns the node's ordinals extended by one past
    the largest final ordinal of the children and, for the display
    sequence, by one past the largest final ordinal of the children that
    show ordinals (1 when there is none). For a casebook the first
    component is one past the largest final ordinal of the top-level
    children and the second one past the largest final display ordinal of
    all top-level children. *)
Theorem C2_next_available_child_ordinals :
  (forall self : Tree,
      (forall c, c ∈ children self -> ordinals (row c) <> []) ->
      exists m md,
        content_tree__get_next_available_child_ordinals self
        = Ok (ordinals (row self) ++ [m + 1], ordinals (row self) ++ [md + 1])
        /\ max_or_0 ((fun c => default 0 (last (ordinals (row c)))) <$> children self) m
        /\ max_or_0 ((fun c => default 0 (last (ordinals (row c))))
                       <$> filter (fun c => does_display_ordinals (row c) = true)
                             (children self)) md)
  /\ (forall top_level_children : list Tree,
        (forall c, c ∈ top_level_children ->
                   ordinals (row c) <> [] /\ display_ordinals (row c) <> []) ->
        exists m md,
          Casebook.content_tree__get_next_available_child_ordinals top_level_children
          = Ok ([m + 1], [md + 1])
          /\ max_or_0 ((fun c => default 0 (last (ordinals (row c))))
                         <$> top_level_children) m
          /\ max_or_0 ((fun c => default 0 (last (display_ordinals (row c))))
                         <$> top_level_children) md).
Proof.
  split.
  - intros self H.
    destruct (map_result_last_ordinals ordinals (children self) H) as (l & Hl & HF).
    destruct (map_result_last_ordinals ordinals
                (filter (fun c => does_display_ordinals (row c) = true) (children self)))
      as (ld & Hld & HFd).
    { intros c Hc. apply list_elem_of_filter in Hc as [_ Hc]. by apply H. }
    exists (py_max_or_0 l), (py_max_or_0 ld).
    unfold content_tree__get_next_available_child_ordinals. rewrite Hl, Hld.
    split; [reflexivity|].
    rewrite <- (Forall2_last_fmap _ _ _ HF), <- (Forall2_last_fmap _ _ _ HFd).
    split; apply py_max_or_0_spec.
  - intros top H.
    destruct (map_result_last_ordinals ordinals top) as (l & Hl & HF).
    { intros c Hc. by apply H. }
    destruct (map_result_last_ordinals display_ordinals top) as (ld & Hld & HFd).
    { intros c Hc. by apply H. }
    exists (py_max_or_0 l), (py_max_or_0 ld).
    unfold Casebook.content_tree__get_next_available_child_ordinals. rewrite Hl, Hld.
    split; [reflexivity|].
    rewrite <- (Forall2_last_fmap _ _ _ HF), <- (Forall2_last_fmap _ _ _ HFd).
    split; apply py_max_or_0_spec.
Qed.

Lemma C2_next_available_child_ordinals_witness :
  let hidden := Node (mk 11 (Some 1) [1; 1] [1; 0] false [] None None) [] in
  let shown := Node (mk 12 (Some 1) [1; 2] [1; 1] true [] None None) [] in
  let self := Node (mk 10 (Some 1) [1] [1] true [] None None) [hidden; shown] in
  exists m md,
    content_tree__get_next_available_child_ordinals self
    = Ok ([1] ++ [m + 1], [1] ++ [md + 1])
    /\ max_or_0 [1; 2] m /\ max_or_0 [2] md.
Proof.
  intros hidden shown self.
  apply (proj1 C2_next_available_child_ordinals self).
  intros c Hc. simpl in Hc.
  apply elem_of_cons in Hc as [->|Hc]; [discriminate|].
  apply list_elem_of_singleton in Hc. subst c. discriminate.
Defined.

(** Claim C9: [content_tree__descendants] yields exactly the nodes one and
    two levels below the node; in a tree whose primary keys are pairwise
    distinct, a node three or more levels down is not among them. *)
Theorem C9_descendants_two_levels (self : Tree) :
  (forall x, x ∈ content_tree__descendants self <->
             exists p, (length p = 1 \/ length p = 2)%nat /\ subtree_at self p = Some x)
  /\ (NoDup (id <$> rows self) ->
      forall p x, (3 <= length p)%nat -> subtree_at self p = Some x ->
                  forall y, y ∈ content_tree__descendants self -> id (row y) <> id (row x)).
Proof.
  assert (Hchar : forall x, x ∈ content_tree__descendants self <->
             exists p, (length p = 1 \/ length p = 2)%nat /\ subtree_at self p = Some x).
  { intros x. unfold content_tree__descendants. rewrite elem_of_flat_map. split.
    - intros (c & Hc & Hx). apply list_elem_of_lookup in Hc as [i Hi].
      apply elem_of_cons in Hx as [->|Hx].
      + exists [i]. split; [auto|]. simpl. by rewrite Hi.
      + apply list_elem_of_lookup in Hx as [j Hj].
        exists [i; j]. split; [auto|]. simpl. by rewrite Hi, Hj.
    - intros (p & Hlen & Hp).
      destruct p as [|i [|j [|k p]]]; simpl in Hlen;
        try (destruct Hlen; discriminate).
      + simpl in Hp. destruct (children self !! i) as [c|] eqn:Hc; [|done].
        injection Hp as <-. exists c.
        split; [eapply list_elem_of_lookup_2; eauto|apply list_elem_of_here].
      + simpl in Hp. destruct (children self !! i) as [c|] eqn:Hc; [|done].
        destruct (children c !! j) as [g|] eqn:Hg; [|done].
        injection Hp as <-. exists c.
        split; [eapply list_elem_of_lookup_2; eauto|].
        apply list_elem_of_further. eapply list_elem_of_lookup_2; eauto. }
  split; [exact Hchar|].
  intros Hnd p x Hlen Hx y Hy.
  apply Hchar in Hy as (q & Hq & Hy).
  eapply distinct_positions_distinct_ids; eauto.
  intros ->. lia.
Qed.

Lemma C9_descendants_two_levels_witness :
  let n i o := mk i (Some 1) o o true [] None None in
  let deep := Node (n 4 [1; 1; 1; 1]) [] in
  let self := Node (n 1 [1]) [Node (n 2 [1; 1]) [Node (n 3 [1; 1; 1]) [deep]]] in
  Forall (fun y => id (row y) <> 4) (content_tree__descendants self).
Proof.
  intros n deep self. apply Forall_forall.
  apply (proj2 (C9_descendants_two_levels self)) with (p := [0; 0; 0]%nat) (x := deep).
  - vm_compute. repeat (apply NoDup_cons; split; [rewrite ?elem_of_cons, ?elem_of_nil; intros H; repeat destruct H as [H|H]; try discriminate; try done|]). apply NoDup_nil_2.
  - simpl. lia.
  - reflexivity.
Defined.









End tree_claims.

(** ** The life cycle of a casebook *)

Section lifecycle_facts.
Import LifeCycle Casebook.

Lemma can_transition_to_value self tgt :
  can_transition_to self (Value (target_value tgt)) = can_transition_to self tgt.
Proof. reflexivity. Qed.

Lemma cleanse_headnote_cleansed cl is_saved original h :
  cleansed cl h -> cleanse_headnote cl is_saved original h = h.
Proof.
  destruct h as [v|]; [|done]. intros (Hn & Hs & Ht).
  unfold cleanse_headnote, run_if_field_changed.
  destruct (negb (bool_decide (v = ""%string)) && _); rewrite ?Hn; [|].
  - destruct (negb (bool_decide (v = ""%string)) && _); rewrite ?Hs;
      destruct (negb (bool_decide (v = ""%string)) && _); by rewrite ?Ht.
  - destruct (negb (bool_decide (v = ""%string)) && _); rewrite ?Hs;
      destruct (negb (bool_decide (v = ""%string)) && _); by rewrite ?Ht.
Qed.

Lemma write_row_ids_NoDup table row :
  NoDup (id <$> table) -> NoDup (id <$> write_row table row).
Proof.
  intros Hnd. unfold write_row.
  destruct (existsb _ table) eqn:Hex.
  - assert (Heq : id <$> ((fun c => if bool_decide (id c = id row) then row else c) <$> table)
                  = id <$> table).
    { rewrite <- list_fmap_compose. apply list_fmap_ext. intros _ c _. simpl.
      by destruct (bool_decide_reflect (id c = id row)). }
    by rewrite Heq.
  - rewrite fmap_app. simpl. apply NoDup_app. split; [done|]. split.
    + intros k Hk Hrow. apply list_elem_of_singleton in Hrow. subst k.
      apply list_elem_of_fmap in Hk as (c & Hid & Hc).
      assert (existsb (fun c => bool_decide (id c = id row)) table = true) as Htrue.
      { apply existsb_exists. exists c. split; [by apply list_elem_of_In|].
        by apply bool_decide_eq_true. }
      congruence.
    + apply NoDup_singleton.
Qed.

Lemma filter_id_not_in table k :
  k ∉ id <$> table -> filter (fun c => id c = k) table = [].
Proof.
  induction table as [|c table IH]; [done|]. intros Hk.
  rewrite fmap_cons, not_elem_of_cons in Hk. destruct Hk as [Hne Hk].
  rewrite filter_cons, decide_False by done. by apply IH.
Qed.

Lemma filter_id_unique table c :
  NoDup (id <$> table) -> c ∈ table -> filter (fun x => id x = id c) table = [c].
Proof.
  induction table as [|x table IH]; intros Hnd Hc; [inversion Hc|].
  rewrite fmap_cons in Hnd. apply NoDup_cons in Hnd as [Hx Hnd].
  rewrite filter_cons. apply elem_of_cons in Hc as [->|Hc].
  - rewrite decide_True by done. f_equal. by apply filter_id_not_in.
  - rewrite decide_False; [by apply IH|].
    intros Heq. apply Hx. rewrite Heq. apply list_elem_of_fmap. eauto.
Qed.

Lemma filter_id_write_same table row :
  NoDup (id <$> table) ->
  filter (fun c => id c = id row) (write_row table row) = [row].
Proof.
  intros Hnd. unfold write_row. destruct (existsb _ table) eqn:Hex.
  - apply existsb_exists in Hex as (c & Hc & Hid).
    apply list_elem_of_In in Hc. apply bool_decide_eq_true in Hid.
    assert (Hmap : filter (fun c0 => id c0 = id row)
                     ((fun c0 => if bool_decide (id c0 = id row) then row else c0) <$> table)
                   = (fun _ => row) <$> filter (fun c0 => id c0 = id row) table).
    { clear. induction table as [|x table IH]; [done|].
      rewrite fmap_cons, !filter_cons, IH.
      destruct (bool_decide_reflect (id x = id row)) as [Heq|Hne].
      - by rewrite !decide_True.
      - by rewrite !decide_False. }
    rewrite Hmap, <- Hid, (filter_id_unique table c Hnd Hc). done.
  - rewrite filter_app, filter_id_not_in.
    + rewrite filter_cons, decide_True by done. done.
    + intros Hin. apply list_elem_of_fmap in Hin as (c & Hid & Hc).
      assert (existsb (fun c => bool_decide (id c = id row)) table = true) as Htrue.
      { apply existsb_exists. exists c. split; [by apply list_elem_of_In|].
        by apply bool_decide_eq_true. }
      congruence.
Qed.

Lemma filter_id_write_other table row k :
  id row <> k ->
  filter (fun c => id c = k) (write_row table row) = filter (fun c => id c = k) table.
Proof.
  intros Hne. unfold write_row. destruct (existsb _ table).
  - induction table as [|x table IH]; [done|].
    rewrite fmap_cons, !filter_cons, IH.
    destruct (bool_decide_reflect (id x = id row)) as [Heq|Hne'].
    + rewrite !decide_False by congruence. done.
    + done.
  - rewrite filter_app, filter_cons, decide_False by done.
    by rewrite filter_nil, app_nil_r.
Qed.

(** When the checks pass and the pass over the content nodes does not
    raise, [merge_draft] returns, and both rows are stored as merged. *)
Lemma merge_draft_ok cl db the_draft cached parent rows edits :
  NoDup (id <$> casebooks db) ->
  state the_draft = value DRAFT ->
  draft_of db the_draft cached = Ok parent ->
  id parent <> id the_draft ->
  merge_content_nodes db parent the_draft = Ok (rows, edits) ->
  cleansed cl (headnote parent) ->
  cleansed cl (headnote the_draft) ->
  exists draft' parent' db',
    merge_draft cl db the_draft cached = (Ok (draft', parent'), db')
    /\ id draft' = id the_draft /\ id parent' = id parent
    /\ stored db' (id the_draft) draft'
    /\ stored db' (id parent) parent'
    /\ merged the_draft parent draft' parent'.
Proof.
  intros Hnd Hstate Hparent Hne Hnodes Hcp Hcd.
  unfold merge_draft, is_draft. rewrite bool_decide_eq_true_2 by done. simpl.
  rewrite Hparent, Hnodes. unfold save. simpl.
  rewrite !cleanse_headnote_cleansed by done.
  eexists _, _, _. split; [reflexivity|].
  split; [reflexivity|]. split; [reflexivity|].
  unfold stored, set_headnote. simpl.
  split; [|split].
  - rewrite filter_id_write_other by done.
    pose proof (filter_id_write_same (casebooks db)
      (mk (id the_draft) (title parent) (subtitle parent) (headnote parent)
          (description parent) (value PREVIOUS_SAVE) None (provenance the_draft)
          (old_casebook the_draft) (common_title the_draft)) Hnd) as Hw.
    simpl in Hw. by rewrite Hw.
  - match goal with
    | |- context [write_row (write_row ?t ?d) ?p] =>
        pose proof (filter_id_write_same (write_row t d) p
                      (write_row_ids_NoDup t d Hnd)) as Hw
    end.
    simpl in Hw. by rewrite Hw.
  - by repeat split.
Qed.

End lifecycle_facts.

Section lifecycle_claims.
Import LifeCycle Casebook.

(** Claim C5: from PREVIOUS_SAVE, [can_transition_to] answers False for
    every state of the life cycle; and whenever [can_transition_to]
    answers False, [transition_to] raises a ValueError and neither the
    instance nor the database changes. *)
Theorem C5_previous_save_is_final :
  (forall (self : t) (tgt : LifeCycle.t),
      state self = value PREVIOUS_SAVE ->
      can_transition_to self (Member tgt) = Ok false
      /\ can_transition_to self (Value (value tgt)) = Ok false)
  /\ (forall (cl : Cleanser) (db : DB) (self : t) (tgt : target),
        can_transition_to self tgt = Ok false ->
        transition_to cl db self tgt
        = (Raise (ValueError "Cannot transition to desired state"), db)).
Proof.
  split.
  - intros self tgt Hstate. unfold can_transition_to. rewrite Hstate.
    by destruct tgt.
  - intros cl db self tgt Hno. unfold transition_to.
    by rewrite can_transition_to_value, Hno.
Qed.

Lemma C5_previous_save_is_final_witness :
  let snapshot := mk 7 "Torts" None None None "Previous" None [3] None None in
  let db := mk_db [snapshot] [] [] [] [] [] [] [] in
  transition_to (mk_cleanser (fun s => s) (fun s => s) (fun s => s)) db snapshot
    (Member PUBLISHED)
  = (Raise (ValueError "Cannot transition to desired state"), db).
Proof.
  intros snapshot db.
  apply (proj2 C5_previous_save_is_final).
  apply (proj1 C5_previous_save_is_final snapshot PUBLISHED). reflexivity.
Defined.

(** Claim C6. [transition_to(PUBLISHED)] on a casebook that has a draft,
    or that is itself a draft, merges: when the transition is allowed, the
    draft is in state DRAFT and the pass over the content nodes does not
    raise, both casebooks are stored with the draft in state
    PREVIOUS_SAVE, the parent in state PUBLISHED with no draft, and title,
    subtitle, description and (already cleansed) headnote exchanged; and
    [merge_draft] on a casebook that is not in state DRAFT raises a
    ValueError and leaves the database as it is. *)
Theorem C6_publish_merges_draft (cl : Cleanser) (db : DB) (self : t) :
  NoDup (id <$> casebooks db) ->
  (forall draft_id the_draft rows edits,
      can_transition_to self (Member PUBLISHED) = Ok true ->
      draft self = Some draft_id ->
      objects_get (filter (fun c => id c = draft_id) (casebooks db)) = Ok the_draft ->
      state the_draft = value DRAFT ->
      draft_id <> id self ->
      merge_content_nodes db self the_draft = Ok (rows, edits) ->
      cleansed cl (headnote self) -> cleansed cl (headnote the_draft) ->
      exists draft' parent' db',
        transition_to cl db self (Member PUBLISHED) = (Ok parent', db')
        /\ stored db' draft_id draft'
        /\ stored db' (id self) parent'
        /\ merged the_draft self draft' parent')
  /\ (forall parent rows edits,
        draft self = None ->
        state self = value DRAFT ->
        objects_get (filter (fun c => draft c = Some (id self)) (casebooks db)) = Ok parent ->
        id parent <> id self ->
        merge_content_nodes db parent self = Ok (rows, edits) ->
        cleansed cl (headnote parent) -> cleansed cl (headnote self) ->
        exists draft' parent' db',
          transition_to cl db self (Member PUBLISHED) = (Ok draft', db')
          /\ stored db' (id self) draft'
          /\ stored db' (id parent) parent'
          /\ merged self parent draft' parent')
  /\ (forall cached,
        state self <> value DRAFT ->
        merge_draft cl db self cached
        = (Raise (ValueError "Only draft casebooks may be merged"), db)).
Proof.
  intros Hnd. split; [|split].
  - intros draft_id the_draft rows edits Hcan Hdraft Hget Hstate Hne Hnodes Hcs Hcd.
    assert (Hid : id the_draft = draft_id).
    { unfold objects_get in Hget.
      destruct (filter _ (casebooks db)) as [|x [|y l]] eqn:Hf; try discriminate.
      injection Hget as ->.
      assert (Hin : the_draft ∈ filter (fun c => id c = draft_id) (casebooks db))
        by (rewrite Hf; apply list_elem_of_here).
      by apply list_elem_of_filter in Hin as [Hin _]. }
    subst draft_id.
    destruct (merge_draft_ok cl db the_draft (Some self) self rows edits)
      as (draft' & parent' & db' & Hrun & Hd & Hp & Hsd & Hsp & Hm); auto.
    exists draft', parent', db'. unfold transition_to.
    rewrite can_transition_to_value, Hcan. simpl.
    rewrite Hdraft, Hget, Hrun. done.
  - intros parent rows edits Hdraft Hstate Hget Hne Hnodes Hcp Hcs.
    destruct (merge_draft_ok cl db self None parent rows edits)
      as (draft' & parent' & db' & Hrun & Hd & Hp & Hsd & Hsp & Hm); auto.
    exists draft', parent', db'. unfold transition_to, can_transition_to.
    rewrite Hstate. simpl. rewrite Hdraft.
    unfold is_draft. rewrite Hstate. simpl. rewrite Hrun. done.
  - intros cached Hstate. unfold merge_draft, is_draft.
    by rewrite bool_decide_eq_false_2.
Qed.

Lemma C6_publish_merges_draft_witness :
  let cl := mk_cleanser (fun s => s) (fun s => s) (fun s => s) in
  let published := mk 1 "Torts" (Some "2nd ed."%string) (Some "<p>old</p>"%string) None
                      "Revising" (Some 2) [] None None in
  let the_draft := mk 2 "Torts, revised" None (Some "<p>new</p>"%string)
                     (Some "About torts"%string) "Draft" None [1] None None in
  let node i cb o prov := ContentNode.mk i (Some cb) o o true prov None None in
  let db := mk_db [published; the_draft]
              [node 10 1 [1] []; node 11 1 [2] []; node 20 2 [1] [10]; node 21 2 [2] []]
              [] [] [] [] [] [] in
  exists draft' parent' db',
    transition_to cl db published (Member PUBLISHED) = (Ok parent', db')
    /\ stored db' 2 draft'
    /\ stored db' (id published) parent'
    /\ merged the_draft published draft' parent'.
Proof.
  intros cl published the_draft node db.
  assert (Hnd : NoDup (id <$> casebooks db)).
  { simpl. apply NoDup_cons. split.
    - intros H. apply list_elem_of_singleton in H. discriminate H.
    - apply NoDup_cons. split; [intros H; inversion H|apply NoDup_nil_2]. }
  eapply (proj1 (C6_publish_merges_draft cl db published Hnd) 2 the_draft).
  - reflexivity.
  - reflexivity.
  - reflexivity.
  - reflexivity.
  - discriminate.
  - vm_compute. reflexivity.
  - simpl. auto.
  - simpl. auto.
Defined.

End lifecycle_claims.

(** ** Cloning a casebook *)

Section clone_facts.
Import LifeCycle Casebook.

Lemma collect_loop_spec db self nodes :
  forall acc acc',
    collect_loop db self acc nodes = Ok acc' ->
    cloned_content_nodes acc'
    = cloned_content_nodes acc ++ (clone_content_node self <$> nodes)
    /\ cloned_annotations acc'
       = cloned_annotations acc
         ++ annotation_copies db (length (cloned_content_nodes acc)) nodes
    /\ cloned_text_blocks acc'
       = cloned_text_blocks acc
         ++ text_block_copies db (length (cloned_content_nodes acc)) nodes
    /\ cloned_links acc'
       = cloned_links acc ++ link_copies db (length (cloned_content_nodes acc)) nodes.
Proof.
  induction nodes as [|old nodes IH]; intros acc acc' Hrun; simpl in Hrun.
  - injection Hrun as <-. simpl. by rewrite !app_nil_r.
  - destruct (collect_step db self acc old) as [acc1|] eqn:Hstep; [|done].
    destruct (IH acc1 acc' Hrun) as (Hn & Ha & Ht & Hl).
    assert (Hlen : length (cloned_content_nodes acc1)
                   = S (length (cloned_content_nodes acc))
            /\ cloned_content_nodes acc1
               = cloned_content_nodes acc ++ [clone_content_node self old]
            /\ cloned_annotations acc1
               = cloned_annotations acc
                 ++ ((fun a => (a, length (cloned_content_nodes acc)))
                       <$> annotations_of db old)
            /\ cloned_text_blocks acc1
               = cloned_text_blocks acc
                 ++ match text_block_to_copy db old with
                    | Some b => [(b, length (cloned_content_nodes acc))]
                    | None => []
                    end
            /\ cloned_links acc1
               = cloned_links acc
                 ++ match link_to_copy db old with
                    | Some b => [(b, length (cloned_content_nodes acc))]
                    | None => []
                    end).
    { unfold collect_step in Hstep. unfold text_block_to_copy, link_to_copy.
      destruct (copies_body old).
      - destruct (resource_of db old) as [[b|b|b]|]; try done;
          injection Hstep as <-; simpl; rewrite ?length_app, ?app_nil_r; simpl;
          repeat split; try done; lia.
      - injection Hstep as <-; simpl; rewrite ?length_app, ?app_nil_r; simpl.
        repeat split; try done; lia. }
    destruct Hlen as (Hlen & Hn1 & Ha1 & Ht1 & Hl1).
    rewrite Hlen in *. unfold text_block_copies, link_copies, annotation_copies in *. simpl.
    rewrite Hn, Ha, Ht, Hl, Hn1, Ha1, Ht1, Hl1, <- !app_assoc. simpl.
    repeat split; try done.
    + by destruct (text_block_to_copy db old).
    + by destruct (link_to_copy db old).
Qed.

Lemma next_id_fresh ids k : k ∈ ids -> k < next_id ids.
Proof.
  unfold next_id. induction ids as [|x ids IH]; intros Hin.
  - by apply elem_of_nil in Hin.
  - apply elem_of_cons in Hin as [->|Hin]; simpl; [lia|]. specialize (IH Hin). lia.
Qed.

Lemma body_copies_elem {B : Type} (to_copy : ContentNode.t -> option B) nodes :
  forall index b k,
    (b, k) ∈ body_copies to_copy index nodes ->
    exists i old, k = (index + i)%nat /\ nodes !! i = Some old /\ to_copy old = Some b.
Proof.
  induction nodes as [|old nodes IH]; intros index b k Hin; simpl in Hin.
  - by apply elem_of_nil in Hin.
  - assert (Hrest : (b, k) ∈ body_copies to_copy (S index) nodes ->
                    exists i old', k = (index + i)%nat
                                   /\ (old :: nodes) !! i = Some old'
                                   /\ to_copy old' = Some b).
    { intros H. destruct (IH _ _ _ H) as (i & old' & -> & Hi & Hc).
      exists (S i), old'. split_and!; [lia|done|done]. }
    destruct (to_copy old) as [b0|] eqn:Hc; [|by apply Hrest].
    apply elem_of_cons in Hin as [Heq|Hin]; [|by apply Hrest].
    injection Heq as -> ->. exists 0%nat, old. split_and!; [lia|done|done].
Qed.

Lemma body_copies_hit {B : Type} (to_copy : ContentNode.t -> option B) nodes :
  forall index i old b,
    nodes !! i = Some old -> to_copy old = Some b ->
    (b, (index + i)%nat) ∈ body_copies to_copy index nodes.
Proof.
  induction nodes as [|old0 nodes IH]; intros index i old b Hi Hc; [done|].
  destruct i as [|i]; simpl in *.
  - injection Hi as ->. rewrite Hc, Nat.add_0_r. apply elem_of_cons. by left.
  - replace (index + S i)%nat with (S index + i)%nat by lia.
    destruct (to_copy old0); [apply elem_of_cons; right|]; by eapply IH.
Qed.

Lemma annotation_copies_elem db nodes :
  forall index c,
    c ∈ annotation_copies db index nodes ->
    exists i old, c.2 = (index + i)%nat /\ nodes !! i = Some old
                  /\ c.1 ∈ annotations_of db old.
Proof.
  unfold annotation_copies.
  induction nodes as [|old nodes IH]; intros index c Hin; simpl in Hin.
  - by apply elem_of_nil in Hin.
  - apply elem_of_app in Hin as [Hin|Hin].
    + apply list_elem_of_fmap in Hin as (a & -> & Ha).
      exists 0%nat, old. split_and!; [simpl; lia|done|done].
    + destruct (IH _ _ Hin) as (i & old' & Hk & Hi & Ha).
      exists (S i), old'. split_and!; [lia|done|done].
Qed.

Lemma parent_resources_snoc ns rs r :
  parent_resources ns (rs ++ [r])
  = alter (set_resource_id r.1) r.2 (parent_resources ns rs).
Proof. unfold parent_resources. by rewrite foldl_app. Qed.

Lemma parent_resources_length ns rs :
  length (parent_resources ns rs) = length ns.
Proof.
  induction rs as [|r rs IH] using rev_ind; [done|].
  by rewrite parent_resources_snoc, length_alter.
Qed.

Lemma set_resource_id_twice k k' n :
  set_resource_id k (set_resource_id k' n) = set_resource_id k n.
Proof. done. Qed.

(** After the reparenting loop a node is as before when no pair names it,
    and otherwise carries the id of one of the resources paired with it. *)
Lemma parent_resources_lookup ns rs k n :
  ns !! k = Some n ->
  exists n',
    parent_resources ns rs !! k = Some n'
    /\ ((n' = n /\ forall r, r ∈ rs -> r.2 <> k)
        \/ exists j r, rs !! j = Some r /\ r.2 = k /\ n' = set_resource_id r.1 n).
Proof.
  intros Hn. induction rs as [|r rs IH] using rev_ind.
  - exists n. split; [done|]. left. split; [done|]. intros r Hr.
    by apply elem_of_nil in Hr.
  - destruct IH as (n1 & Hn1 & Hcase). rewrite parent_resources_snoc.
    destruct (decide (r.2 = k)) as [Hk|Hk].
    + exists (set_resource_id r.1 n). split.
      * rewrite Hk, list_lookup_alter, Hn1. simpl. rewrite decide_True by done.
        destruct Hcase as [[-> _]|(j & r' & _ & _ & ->)]; [done|].
        by rewrite set_resource_id_twice.
      * right. exists (length rs), r. split; [|done].
        by rewrite lookup_app_r, Nat.sub_diag by lia.
    + exists n1. split.
      * by rewrite list_lookup_alter_ne.
      * destruct Hcase as [[-> Hno]|(j & r' & Hj & Hr' & ->)].
        -- left. split; [done|]. intros r' Hr'.
           apply elem_of_app in Hr' as [Hr'|Hr']; [by apply Hno|].
           apply list_elem_of_singleton in Hr' as ->. done.
        -- right. exists j, r'. split; [|done].
           by apply lookup_app_l_Some.
Qed.

Lemma next_id_pos ids : 0 < next_id ids.
Proof. unfold next_id. induction ids as [|x ids IH]; simpl; lia. Qed.

Lemma find_app {A : Type} (p : A -> bool) l1 l2 :
  find p (l1 ++ l2) = match find p l1 with Some x => Some x | None => find p l2 end.
Proof. induction l1 as [|x l1 IH]; simpl; [done|]. by destruct (p x). Qed.

Lemma find_fresh {A : Type} (p : A -> bool) l :
  (forall x, x ∈ l -> p x = false) -> find p l = None.
Proof.
  induction l as [|x l IH]; intros Hno; simpl; [done|].
  rewrite (Hno x) by (apply elem_of_cons; by left).
  apply IH. intros y Hy. apply Hno, elem_of_cons. by right.
Qed.

(** Rows created with consecutive ids are found again by their id. *)
Lemma find_created {A B : Type} (idf : A -> Z) (mkf : B -> Z -> A) copies :
  (forall b k, idf (mkf b k) = k) ->
  forall first j r,
    copies !! j = Some r ->
    find (fun a => bool_decide (idf a = first + Z.of_nat j))
         (imap (fun j r => mkf r (first + Z.of_nat j)) copies)
    = Some (mkf r (first + Z.of_nat j)).
Proof.
  intros Hid. induction copies as [|c copies IH]; intros first j r Hj; [done|].
  rewrite imap_cons. simpl. rewrite Hid. destruct j as [|j]; simpl in Hj.
  - injection Hj as ->. by rewrite bool_decide_eq_true_2.
  - rewrite bool_decide_eq_false_2 by lia.
    replace (first + Z.of_nat (S j)) with (first + 1 + Z.of_nat j) by lia.
    rewrite (imap_ext _ (fun j r => mkf r ((first + 1) + Z.of_nat j))).
    + apply (IH (first + 1) j r Hj).
    + intros i x _. simpl. f_equal. lia.
Qed.

Lemma resource_of_text_block db n b :
  resource_of db n = Some (TextBlockBody b) ->
  exists k, ContentNode.resource_id n = Some k /\ k <> 0
            /\ ContentNode.resource_type n = Some "TextBlock"%string
            /\ find (fun b => bool_decide (TextBlock.id b = k)) (text_blocks db) = Some b.
Proof.
  unfold resource_of. destruct (ContentNode.resource_id n) as [k|]; [|done].
  case_bool_decide; [done|]. case_bool_decide as Ht.
  - intros Hf. exists k. split_and!; try done.
    destruct (find _ (text_blocks db)); simpl in Hf; congruence.
  - case_bool_decide; [|case_bool_decide; [|done]];
      match goal with |- context [find ?p ?l] => destruct (find p l) end; done.
Qed.

Lemma resource_of_link db n b :
  resource_of db n = Some (LinkBody b) ->
  exists k, ContentNode.resource_id n = Some k /\ k <> 0
            /\ ContentNode.resource_type n = Some "Link"%string
            /\ find (fun b => bool_decide (Link.id b = k)) (links db) = Some b.
Proof.
  unfold resource_of. destruct (ContentNode.resource_id n) as [k|]; [|done].
  case_bool_decide; [done|]. case_bool_decide as Ht.
  - by destruct (find _ (text_blocks db)).
  - case_bool_decide as Hl.
    + intros Hf. exists k. split_and!; try done.
      destruct (find _ (links db)); simpl in Hf; congruence.
    + case_bool_decide; [|done]. by destruct (find _ (legal_documents db)).
Qed.

Lemma resource_of_legal_document db n b :
  resource_of db n = Some (LegalDocumentBody b) ->
  exists k, ContentNode.resource_id n = Some k /\ k <> 0
            /\ ContentNode.resource_type n = Some "LegalDocument"%string
            /\ find (fun b => bool_decide (LegalDocument.id b = k)) (legal_documents db)
               = Some b.
Proof.
  unfold resource_of. destruct (ContentNode.resource_id n) as [k|]; [|done].
  case_bool_decide; [done|]. case_bool_decide as Ht.
  - by destruct (find _ (text_blocks db)).
  - case_bool_decide as Hl.
    + by destruct (find _ (links db)).
    + case_bool_decide; [|done]. intros Hf. exists k. split_and!; try done.
      destruct (find _ (legal_documents db)); simpl in Hf; congruence.
Qed.

Lemma text_block_to_copy_spec db old b :
  text_block_to_copy db old = Some b <-> resource_of db old = Some (TextBlockBody b).
Proof.
  unfold text_block_to_copy. split.
  - destruct (copies_body old); [|done].
    destruct (resource_of db old) as [[]|]; congruence.
  - intros Hr. destruct (resource_of_text_block _ _ _ Hr) as (k & Hk & Hk0 & Ht & _).
    unfold copies_body, truthy_id. rewrite Hk, Ht, Hr.
    rewrite bool_decide_eq_false_2 by done.
    rewrite bool_decide_eq_false_2 by (intros [?|?]; congruence). done.
Qed.

Lemma link_to_copy_spec db old b :
  link_to_copy db old = Some b <-> resource_of db old = Some (LinkBody b).
Proof.
  unfold link_to_copy. split.
  - destruct (copies_body old); [|done].
    destruct (resource_of db old) as [[]|]; congruence.
  - intros Hr. destruct (resource_of_link _ _ _ Hr) as (k & Hk & Hk0 & Ht & _).
    unfold copies_body, truthy_id. rewrite Hk, Ht, Hr.
    rewrite bool_decide_eq_false_2 by done.
    rewrite bool_decide_eq_false_2 by (intros [?|?]; congruence). done.
Qed.

Lemma copies_body_legal_document db old b :
  resource_of db old = Some (LegalDocumentBody b) -> copies_body old = false.
Proof.
  intros Hr. destruct (resource_of_legal_document _ _ _ Hr) as (k & Hk & Hk0 & Ht & _).
  unfold copies_body. rewrite Ht, (bool_decide_eq_true_2 _); [|by right].
  apply andb_false_r.
Qed.

(** One pass of [save_and_parent_cloned_resources] over the copies of one
    kind of body, created with the ids [first], [first + 1], ... *)
Lemma parent_pass {B : Type} (to_copy : ContentNode.t -> option B) first ns nodes k old n :
  nodes !! k = Some old -> ns !! k = Some n ->
  exists n',
    parent_resources ns
      (imap (fun j r => (first + Z.of_nat j, r.2)) (body_copies to_copy 0 nodes)) !! k
    = Some n'
    /\ match to_copy old with
       | None => n' = n
       | Some b => exists j, body_copies to_copy 0 nodes !! j = Some (b, k)
                             /\ n' = set_resource_id (first + Z.of_nat j) n
       end.
Proof.
  intros Hold Hn.
  destruct (parent_resources_lookup ns
              (imap (fun j r => (first + Z.of_nat j, r.2)) (body_copies to_copy 0 nodes))
              k n Hn) as (n' & Hn' & Hcase).
  exists n'. split; [done|].
  destruct Hcase as [[-> Hno]|(j & r & Hj & Hr & ->)].
  - destruct (to_copy old) as [b|] eqn:Hc; [|done]. exfalso.
    pose proof (body_copies_hit to_copy nodes 0 k old b Hold Hc) as Hin.
    apply list_elem_of_lookup in Hin as [j Hj].
    apply (Hno (first + Z.of_nat j, k)); [|done].
    apply list_elem_of_lookup. exists j. by rewrite list_lookup_imap, Hj.
  - rewrite list_lookup_imap in Hj.
    destruct (body_copies to_copy 0 nodes !! j) as [[b k']|] eqn:Hc; [|done].
    injection Hj as <-. simpl in Hr. subst k'.
    destruct (body_copies_elem to_copy nodes 0 b k) as (i & old' & Hk & Hi & Hb).
    { by eapply list_elem_of_lookup_2. }
    simpl in Hk. subst i. rewrite Hold in Hi. injection Hi as <-.
    rewrite Hb. by exists j.
Qed.

Lemma resource_of_created_text_block db' n first (copies : list (TextBlock.t * nat))
    old_rows j b i :
  text_blocks db'
  = old_rows ++ imap (fun j r => set_text_block_id r.1 (first + Z.of_nat j)) copies ->
  first = next_id (TextBlock.id <$> old_rows) ->
  copies !! j = Some (b, i) ->
  ContentNode.resource_id n = Some (first + Z.of_nat j) ->
  ContentNode.resource_type n = Some "TextBlock"%string ->
  resource_of db' n = Some (TextBlockBody (set_text_block_id b (first + Z.of_nat j))).
Proof.
  intros Hrows Hfirst Hj Hid Htype. unfold resource_of.
  pose proof (next_id_pos (TextBlock.id <$> old_rows)) as Hpos.
  rewrite Hid, Htype, Hrows, bool_decide_eq_false_2 by lia.
  rewrite bool_decide_eq_true_2 by done.
  rewrite find_app, find_fresh.
  - rewrite (find_created TextBlock.id (fun r k => set_text_block_id r.1 k) copies
               (fun _ _ => eq_refl) first j (b, i) Hj).
    done.
  - intros x Hx. apply bool_decide_eq_false_2. intros Heq.
    assert (TextBlock.id x < first); [|lia].
    rewrite Hfirst. apply next_id_fresh, list_elem_of_fmap. by exists x.
Qed.

Lemma resource_of_created_link db' n first (copies : list (Link.t * nat))
    old_rows j b i :
  links db' = old_rows ++ imap (fun j r => set_link_id r.1 (first + Z.of_nat j)) copies ->
  first = next_id (Link.id <$> old_rows) ->
  copies !! j = Some (b, i) ->
  ContentNode.resource_id n = Some (first + Z.of_nat j) ->
  ContentNode.resource_type n = Some "Link"%string ->
  resource_of db' n = Some (LinkBody (set_link_id b (first + Z.of_nat j))).
Proof.
  intros Hrows Hfirst Hj Hid Htype. unfold resource_of.
  pose proof (next_id_pos (Link.id <$> old_rows)) as Hpos.
  rewrite Hid, Htype, Hrows, bool_decide_eq_false_2 by lia.
  rewrite bool_decide_eq_false_2 by done.
  rewrite bool_decide_eq_true_2 by done.
  rewrite find_app, find_fresh.
  - rewrite (find_created Link.id (fun r k => set_link_id r.1 k) copies
               (fun _ _ => eq_refl) first j (b, i) Hj).
    done.
  - intros x Hx. apply bool_decide_eq_false_2. intros Heq.
    assert (Link.id x < first); [|lia].
    rewrite Hfirst. apply next_id_fresh, list_elem_of_fmap. by exists x.
Qed.

Lemma resource_of_shared db db' old new b :
  legal_documents db' = legal_documents db ->
  ContentNode.resource_id new = ContentNode.resource_id old ->
  ContentNode.resource_type new = ContentNode.resource_type old ->
  resource_of db old = Some (LegalDocumentBody b) ->
  resource_of db' new = Some (LegalDocumentBody b).
Proof.
  intros Hdocs Hid Htype Hr.
  destruct (resource_of_legal_document _ _ _ Hr) as (k & Hk & Hk0 & Ht & Hf).
  unfold resource_of. rewrite Hid, Htype, Hk, Ht, Hdocs.
  rewrite bool_decide_eq_false_2 by done.
  rewrite bool_decide_eq_false_2 by done.
  rewrite bool_decide_eq_false_2 by done.
  rewrite bool_decide_eq_true_2 by done.
  by rewrite Hf.
Qed.

Lemma to_copy_none db old :
  copies_body old = false ->
  text_block_to_copy db old = None /\ link_to_copy db old = None.
Proof. unfold text_block_to_copy, link_to_copy. by intros ->. Qed.

Lemma clone_nodes_spec db self nodes db' :
  clone_nodes db self nodes = Ok db' ->
  exists news new_annotations,
    content_nodes db' = content_nodes db ++ news
    /\ length news = length nodes
    /\ annotations db' = annotations db ++ new_annotations
    /\ Forall2 (fun c a' => exists new,
                    news !! c.2 = Some new
                    /\ annotation_copied_to c.1 (ContentNode.id new) a')
               (annotation_copies db 0 nodes) new_annotations
    /\ legal_documents db' = legal_documents db
    /\ forall k old new,
         nodes !! k = Some old -> news !! k = Some new ->
         cloned_from db db' self old new.
Proof.
  unfold clone_nodes, collect_cloning_nodes. intros Hrun.
  destruct (collect_loop db self (mk_cloning [] [] [] []) nodes) as [acc|] eqn:Hacc;
    [|done].
  destruct (collect_loop_spec _ _ _ _ _ Hacc) as (Hn & Ha & Ht & Hl).
  simpl in Hn, Ha, Ht, Hl. rewrite Hn, Ha, Ht, Hl in Hrun. clear Hn Ha Ht Hl Hacc acc.
  set (first_text_block := next_id (TextBlock.id <$> text_blocks db)) in *.
  set (first_link := next_id (Link.id <$> links db)) in *.
  set (first_node := next_id (ContentNode.id <$> content_nodes db)) in *.
  set (nodes1 := parent_resources (clone_content_node self <$> nodes)
                   (imap (fun j r => (first_text_block + Z.of_nat j, r.2))
                         (text_block_copies db 0 nodes))).
  set (nodes2 := parent_resources nodes1
                   (imap (fun j r => (first_link + Z.of_nat j, r.2))
                         (link_copies db 0 nodes))).
  set (news := imap (fun k n => set_node_id n (first_node + Z.of_nat k)) nodes2).
  assert (Hlen : length news = length nodes).
  { unfold news, nodes2, nodes1.
    by rewrite length_imap, !parent_resources_length, length_fmap. }
  set (new_annotations :=
         imap (fun j r =>
                 ContentAnnotation.mk
                   (next_id (ContentAnnotation.id <$> annotations db) + Z.of_nat j)
                   (ContentAnnotation.kind r.1) (ContentAnnotation.content r.1)
                   (ContentAnnotation.global_start_offset r.1)
                   (ContentAnnotation.global_end_offset r.1)
                   (default 0 (ContentNode.id <$> news !! r.2)))
              (annotation_copies db 0 nodes)).
  rewrite !fmap_imap in Hrun.
  change (Ok (mk_db (casebooks db) (content_nodes db ++ news)
                (annotations db ++ new_annotations)
                (text_blocks db
                 ++ imap (fun j r => set_text_block_id r.1
                                       (first_text_block + Z.of_nat j))
                      (text_block_copies db 0 nodes))
                (links db
                 ++ imap (fun j r => set_link_id r.1 (first_link + Z.of_nat j))
                      (link_copies db 0 nodes))
                (legal_documents db) (edit_log db) (collaborators db))
          = Ok db') in Hrun.
  injection Hrun as <-. cbn [content_nodes annotations text_blocks links legal_documents].
  exists news, new_annotations. split_and!; [done|done|done| |done| ].
  - apply Forall2_same_length_lookup_2; [by unfold new_annotations; rewrite length_imap|].
    intros i c a' Hc Ha'. unfold new_annotations in Ha'.
    rewrite list_lookup_imap, Hc in Ha'. injection Ha' as <-.
    destruct (annotation_copies_elem db nodes 0 c) as (k & old & Hk & Hold & _).
    { by eapply list_elem_of_lookup_2. }
    destruct (lookup_lt_is_Some_2 news c.2) as [new Hnew].
    { rewrite Hlen, Hk. by eapply lookup_lt_Some. }
    exists new. split; [done|]. unfold annotation_copied_to. cbn.
    split_and!; try done. by rewrite Hnew.
  - intros k old new Hold Hnew.
    destruct (parent_pass (text_block_to_copy db) first_text_block
                (clone_content_node self <$> nodes) nodes k old
                (clone_content_node self old) Hold) as (n1 & Hn1 & Hcase1).
    { by rewrite list_lookup_fmap, Hold. }
    destruct (parent_pass (link_to_copy db) first_link nodes1 nodes k old n1 Hold Hn1)
      as (n2 & Hn2 & Hcase2).
    unfold news in Hnew. rewrite list_lookup_imap in Hnew.
    change (nodes2 !! k = Some n2) in Hn2. rewrite Hn2 in Hnew. injection Hnew as <-.
    assert (Hfresh : ~ (first_node + Z.of_nat k ∈ (ContentNode.id <$> content_nodes db))).
    { intros Hin. apply next_id_fresh in Hin. fold first_node in Hin. lia. }
    unfold cloned_from.
    destruct (text_block_to_copy db old) as [tb|] eqn:Htb;
      destruct (link_to_copy db old) as [lk|] eqn:Hlk.
    + apply text_block_to_copy_spec in Htb. apply link_to_copy_spec in Hlk. congruence.
    + destruct Hcase1 as (j & Hj & ->). subst n2.
      apply text_block_to_copy_spec in Htb.
      split_and!; try done.
      * intros Hno. apply (to_copy_none db) in Hno as [Hno _].
        apply text_block_to_copy_spec in Htb. congruence.
      * intros b Hb. congruence.
      * intros b Hb. assert (b = tb) as -> by congruence.
        exists (first_text_block + Z.of_nat j). split.
        -- intros Hin. apply next_id_fresh in Hin. fold first_text_block in Hin. lia.
        -- destruct (resource_of_text_block _ _ _ Htb) as (k0 & _ & _ & Htype & _).
           by eapply (resource_of_created_text_block _ _ first_text_block
                        (text_block_copies db 0 nodes) (text_blocks db) j tb k).
      * intros b Hb. congruence.
    + destruct Hcase2 as (j & Hj & ->). subst n1.
      apply link_to_copy_spec in Hlk.
      split_and!; try done.
      * intros Hno. apply (to_copy_none db) in Hno as [_ Hno].
        apply link_to_copy_spec in Hlk. congruence.
      * intros b Hb. congruence.
      * intros b Hb. congruence.
      * intros b Hb. assert (b = lk) as -> by congruence.
        exists (first_link + Z.of_nat j). split.
        -- intros Hin. apply next_id_fresh in Hin. fold first_link in Hin. lia.
        -- destruct (resource_of_link _ _ _ Hlk) as (k0 & _ & _ & Htype & _).
           by eapply (resource_of_created_link _ _ first_link
                        (link_copies db 0 nodes) (links db) j lk k).
    + subst n1 n2. split_and!; try done.
      * intros b Hb. split; [done|]. by apply (resource_of_shared db _ old _ b).
      * intros b Hb. apply text_block_to_copy_spec in Hb. congruence.
      * intros b Hb. apply link_to_copy_spec in Hb. congruence.
Qed.

Lemma collect_loop_total db self nodes :
  bodies_found db nodes = true ->
  forall acc, exists acc', collect_loop db self acc nodes = Ok acc'.
Proof.
  induction nodes as [|old nodes IH]; intros Hfound acc; [by eexists|].
  simpl in Hfound. apply andb_true_iff in Hfound as [Hold Hfound].
  assert (Hstep : exists acc1, collect_step db self acc old = Ok acc1).
  { unfold collect_step. destruct (copies_body old) eqn:Hc; [|by eexists].
    destruct (resource_of db old) as [[b|b|b]|] eqn:Hr; [by eexists|by eexists| |done].
    apply copies_body_legal_document in Hr. congruence. }
  destruct Hstep as [acc1 Hstep]. simpl. rewrite Hstep. apply IH, Hfound.
Qed.

Lemma clone_nodes_total db self nodes :
  bodies_found db nodes = true -> exists db', clone_nodes db self nodes = Ok db'.
Proof.
  intros Hfound. unfold clone_nodes, collect_cloning_nodes.
  destruct (collect_loop_total db self nodes Hfound (mk_cloning [] [] [] []))
    as [acc ->].
  by eexists.
Qed.

End clone_facts.

Section clone_claims.
Import LifeCycle Casebook.

(** Claim C7: cloning a casebook whose nodes to copy all have their body in the
    tables returns a new casebook and adds to the content-node table
    exactly one new node per content node of the source, in order; the new
    node belongs to the clone and its provenance is the source node's
    provenance followed by the source node's id. Every annotation of every
    source node has a copy attached to the corresponding new node. A text
    block or a link body is a new row, under an id that no row of the
    table had, with the fields of the source body; a legal document body
    is not copied: the table of legal documents is unchanged and the new
    node refers to the row of the source node. *)
Theorem C7_clone_copies cl db self current_user draft_mode :
  bodies_found db (contents (content_nodes db) self) = true ->
  exists cloned db',
    clone cl db self current_user draft_mode = (Ok cloned, db')
    /\ provenance cloned = provenance self ++ [id self]
    /\ exists news new_annotations,
         content_nodes db' = content_nodes db ++ news
         /\ length news = length (contents (content_nodes db) self)
         /\ annotations db' = annotations db ++ new_annotations
         /\ Forall2 (fun c a' => exists new,
                         news !! c.2 = Some new
                         /\ annotation_copied_to c.1 (ContentNode.id new) a')
                    (annotation_copies db 0 (contents (content_nodes db) self))
                    new_annotations
         /\ legal_documents db' = legal_documents db
         /\ forall k old new,
              contents (content_nodes db) self !! k = Some old ->
              news !! k = Some new ->
              cloned_from db db' cloned old new.
Proof.
  intros Hfound. unfold clone.
  set (cloned := mk (next_id (id <$> casebooks db)) _ _ _ _ _ _ _ _ _).
  destruct draft_mode; [|destruct current_user as [user|]];
    match goal with
    | |- context [clone_nodes ?db2 cloned ?ns] =>
        destruct (clone_nodes_total db2 cloned ns Hfound) as [db' Hrun];
        rewrite Hrun; exists cloned, db';
        split; [done|split; [done|]];
        exact (clone_nodes_spec db2 cloned ns db' Hrun)
    end.
Qed.

Lemma C7_clone_copies_witness :
  let cl := mk_cleanser (fun s => s) (fun s => s) (fun s => s) in
  let source := mk 1 "Torts" None (Some "<p>notes</p>"%string) None "Public" None []
                  None None in
  let node i o prov kind body := ContentNode.mk i (Some 1) o o true prov kind body in
  let db := mk_db [source]
              [node 10 [1] [] None None;
               node 11 [1; 1] [9] (Some "TextBlock"%string) (Some 5);
               node 12 [2] [] (Some "Link"%string) (Some 1);
               node 13 [3] [] (Some "LegalDocument"%string) (Some 4)]
              [ContentAnnotation.mk 1 "note" None (Some 1) (Some 2) 11;
               ContentAnnotation.mk 2 "highlight" None (Some (-1)) (Some (-1)) 13]
              [TextBlock.mk 5 "a" None "old" None]
              [Link.mk 1 None None "http://a" None]
              [LegalDocument.mk 4 None "case"] []
              [ContentCollaborator.mk 1 true true 77 (Some 1)] in
  bodies_found db (contents (content_nodes db) source) = true
  /\ exists cloned db',
       clone cl db source (Some 3) true = (Ok cloned, db')
       /\ length (content_nodes db') = 8%nat.
Proof.
  intros cl source node db.
  assert (Hfound : bodies_found db (contents (content_nodes db) source) = true)
    by (vm_compute; reflexivity).
  split; [exact Hfound|].
  destruct (C7_clone_copies cl db source (Some 3) true Hfound)
    as (cloned & db' & Hrun & _ & news & _ & Hnodes & Hlen & _).
  exists cloned, db'. split; [done|].
  rewrite Hnodes, length_app, Hlen. vm_compute. reflexivity.
Defined.

End clone_claims.

(** ** Further properties of the content tree *)

Section tree_extras.
Import ContentNode.

Lemma bulk_update_ordinals_frame table rows :
  Forall2 same_but_ordinals table (bulk_update_ordinals table rows).
Proof.
  unfold bulk_update_ordinals. induction table as [|old table IH]; [constructor|].
  rewrite fmap_cons. constructor; [|exact IH].
  destruct (find _ rows) as [r|]; [|apply same_but_ordinals_refl].
  unfold same_but_ordinals. by destruct old.
Qed.

Lemma Forall2_same_but_ordinals_refl table : Forall2 same_but_ordinals table table.
Proof. induction table; constructor; [apply same_but_ordinals_refl|done]. Qed.

Lemma casebook_store_frame table cs :
  Forall2 same_but_ordinals table (Casebook.content_tree__store table cs).2.
Proof.
  unfold Casebook.content_tree__store.
  destruct (Casebook.content_tree__update_ordinals cs) as [cs' ys]. simpl.
  apply bulk_update_ordinals_frame.
Qed.

Lemma loaded_store_frame table l :
  Forall2 same_but_ordinals table (ContentTree.store table l).2.
Proof.
  destruct l as [c cs|n]; simpl.
  - pose proof (casebook_store_frame table cs) as H.
    by destruct (Casebook.content_tree__store table cs) as [[cs' ys] table'].
  - rewrite content_tree__store_eq. simpl. apply bulk_update_ordinals_frame.
Qed.

(** Property X2: storing a tree (of a node or of a casebook) and moving a
    node never add, remove or reorder rows of the table, and change no
    column but [ordinals] and [display_ordinals]. *)
Theorem X2_tree_writes_only_ordinals :
  (forall table self,
      Forall2 same_but_ordinals table (content_tree__store table self).2)
  /\ (forall table top_level_children,
        Forall2 same_but_ordinals table
          (Casebook.content_tree__store table top_level_children).2)
  /\ (forall casebooks table self new_ordinals,
        Forall2 same_but_ordinals table
          (ContentTree.content_tree__move_to casebooks table self new_ordinals).2).
Proof.
  split_and!.
  - intros table self. rewrite content_tree__store_eq. apply bulk_update_ordinals_frame.
  - apply casebook_store_frame.
  - intros casebooks table self new_ordinals.
    unfold ContentTree.content_tree__move_to.
    repeat case_match; simpl; try apply Forall2_same_but_ordinals_refl;
      match goal with
      | H : ContentTree.store table _ = _ |- _ =>
          apply (f_equal snd) in H; simpl in H; rewrite <- H; apply loaded_store_frame
      end.
Qed.

Lemma bulk_update_ordinals_miss table rows i r :
  table !! i = Some r ->
  (forall y, y ∈ rows -> id y <> id r) ->
  bulk_update_ordinals table rows !! i = Some r.
Proof.
  intros Hi Hmiss. unfold bulk_update_ordinals. rewrite list_lookup_fmap, Hi. simpl.
  destruct (find _ rows) as [y|] eqn:Hf; [|done].
  apply find_some in Hf as [Hin Hid]. apply bool_decide_eq_true_1 in Hid.
  exfalso. apply (Hmiss y); [|done]. by apply list_elem_of_In.
Qed.

Lemma same_but_ordinals_id r r' : same_but_ordinals r r' -> id r' = id r.
Proof. unfold same_but_ordinals. by intros ->. Qed.

Lemma pass_spec_yielded_ids before after yielded y :
  pass_spec before after yielded -> y ∈ yielded ->
  exists r, r ∈ forest_rows before /\ id y = id r.
Proof.
  intros [Hsame ->] Hy. apply (changed_rows_elem _ _ _ Hsame) in Hy as (j & r & Hb & Ha & _).
  exists r. split; [by eapply list_elem_of_lookup_2|].
  eapply same_but_ordinals_id, Forall2_lookup_lr; eauto.
Qed.

Lemma NoDup_fmap_inj {A B : Type} (f : A -> B) (l : list A) a b :
  NoDup (f <$> l) -> a ∈ l -> b ∈ l -> f a = f b -> a = b.
Proof.
  intros Hnd Ha Hb Hf.
  apply list_elem_of_lookup in Ha as [i Hi]. apply list_elem_of_lookup in Hb as [j Hj].
  assert (i = j) as ->; [|congruence].
  apply (NoDup_lookup (f <$> l) i j (f a)); [done| |].
  - by rewrite list_lookup_fmap, Hi.
  - by rewrite list_lookup_fmap, Hj, Hf.
Qed.

(** Property X1: loading the tree of a casebook places every content node
    of the casebook in the tree, exactly once. *)
Theorem X1_casebook_load_keeps_every_node table casebook :
  forest_rows (Casebook.content_tree__load table casebook)
  ≡ₚ Casebook.contents table casebook.
Proof. apply load_rows. Qed.

(** Property X3: repairing a casebook leaves the rows of the other
    casebooks as they are (primary keys being distinct). *)
Theorem X3_repair_leaves_other_casebooks table casebook i r :
  NoDup (id <$> table) ->
  table !! i = Some r ->
  casebook_id r <> Some (Casebook.id casebook) ->
  (Casebook.content_tree__repair table casebook).2 !! i = Some r.
Proof.
  intros Hnd Hi Hother.
  unfold Casebook.content_tree__repair, Casebook.content_tree__store,
    Casebook.content_tree__update_ordinals.
  pose proof (casebook_update_ordinals_loop_spec
                (Casebook.content_tree__load table casebook) 0 0) as Hspec.
  destruct (Casebook.update_ordinals_loop 0 0 _) as [cs' yielded]. simpl in *.
  apply bulk_update_ordinals_miss; [done|].
  intros y Hy Hid.
  destruct (pass_spec_yielded_ids _ _ _ _ Hspec Hy) as (r0 & Hr0 & Hid0).
  rewrite (load_rows table casebook) in Hr0.
  unfold Casebook.contents, order_by_ordinals in Hr0.
  rewrite merge_sort_Permutation in Hr0.
  apply list_elem_of_filter in Hr0 as [Hcb Hin].
  assert (r0 = r); [|congruence].
  apply (NoDup_fmap_inj id table); [done|done|by eapply list_elem_of_lookup_2|congruence].
Qed.

Lemma X3_repair_leaves_other_casebooks_witness :
  let n i cb o := mk i (Some cb) o o true [] None None in
  let table := [n 1 1 [3]; n 2 2 [5]; n 3 1 [3; 4]] in
  let casebook := Casebook.mk 1 "Torts" None None None "Fresh" None [] None None in
  (Casebook.content_tree__repair table casebook).2 !! 1%nat = Some (n 2 2 [5]).
Proof.
  intros n table casebook.
  apply (X3_repair_leaves_other_casebooks table casebook 1 (n 2 2 [5])).
  - vm_compute. repeat (apply NoDup_cons; split; [rewrite ?elem_of_cons, ?elem_of_nil; intros H; repeat destruct H as [H|H]; try discriminate; try done|]). apply NoDup_nil_2.
  - reflexivity.
  - discriminate.
Defined.

(** Property X4: after a repair, loading the casebook again rebuilds
    exactly the tree that the repair stored. *)
Theorem X4_repair_then_load table casebook :
  NoDup (id <$> table) ->
  Casebook.content_tree__load (Casebook.content_tree__repair table casebook).2 casebook
  = (Casebook.content_tree__repair table casebook).1.1.
Proof. apply casebook_repair_reload. Qed.

Lemma X4_repair_then_load_witness :
  let n i cb o := mk i (Some cb) o o true [] None None in
  let table := [n 1 1 [3]; n 2 2 [5]; n 3 1 [3; 4]] in
  let casebook := Casebook.mk 1 "Torts" None None None "Fresh" None [] None None in
  Casebook.content_tree__load (Casebook.content_tree__repair table casebook).2 casebook
  = [Node (n 1 1 [1]) [Node (n 3 1 [1; 1]) []]].
Proof.
  intros n table casebook.
  rewrite (X4_repair_then_load table casebook).
  - vm_compute. reflexivity.
  - vm_compute. repeat (apply NoDup_cons; split; [rewrite ?elem_of_cons, ?elem_of_nil; intros H; repeat destruct H as [H|H]; try discriminate; try done|]). apply NoDup_nil_2.
Defined.

(** Property X5: [content_tree__update_ordinals] only rewrites the two
    ordinal columns of the rows of the tree, and yields exactly the rows
    that it changed. *)
Theorem X5_update_ordinals_yields_changed :
  (forall self : Tree,
      let before := forest_rows (children self) in
      let after := forest_rows (content_tree__update_ordinals self).1 in
      Forall2 same_but_ordinals before after
      /\ forall y, y ∈ (content_tree__update_ordinals self).2 <->
                   exists j old, before !! j = Some old /\ after !! j = Some y /\ old <> y)
  /\ (forall top_level_children : list Tree,
        let before := forest_rows top_level_children in
        let after :=
          forest_rows (Casebook.content_tree__update_ordinals top_level_children).1 in
        Forall2 same_but_ordinals before after
        /\ forall y, y ∈ (Casebook.content_tree__update_ordinals top_level_children).2 <->
                     exists j old, before !! j = Some old /\ after !! j = Some y /\ old <> y).
Proof.
  split.
  - intros self before after. subst before after.
    rewrite content_tree__update_ordinals_eq.
    destruct (update_ordinals_loop_spec (children self) (ordinals (row self))
                (display_ordinals (row self)) 0 0) as [Hsame Hy].
    split; [done|]. intros y. rewrite Hy. by apply changed_rows_elem.
  - intros cs before after. subst before after.
    unfold Casebook.content_tree__update_ordinals.
    destruct (casebook_update_ordinals_loop_spec cs 0 0) as [Hsame Hy].
    split; [done|]. intros y. rewrite Hy. by apply changed_rows_elem.
Qed.
End tree_extras.

Section tree_extras2.
Import ContentNode.

Lemma shown_cons c cs : shown (c :: cs) = next_display_ordinal 0 (row c) + shown cs.
Proof.
  unfold shown, next_display_ordinal. rewrite filter_cons.
  destruct (does_display_ordinals (row c)) eqn:Hd.
  - rewrite decide_True by done. simpl length. lia.
  - rewrite decide_False by done. lia.
Qed.

Lemma next_display_ordinal_plus d r : next_display_ordinal d r = d + next_display_ordinal 0 r.
Proof. unfold next_display_ordinal. destruct (does_display_ordinals r); lia. Qed.

Lemma updated_row_display c dn node :
  display_ordinals (updated_row c dn node) = dn.
Proof.
  unfold updated_row, needs_update.
  destruct (bool_decide (ordinals node = c)); simpl; [|done].
  destruct (bool_decide (display_ordinals node = [])); simpl; [done|].
  case_bool_decide; simpl; done.
Qed.

Lemma updated_row_does_display c dn node :
  does_display_ordinals (updated_row c dn node) = does_display_ordinals node.
Proof. unfold updated_row. by destruct (needs_update c dn node). Qed.

Lemma update_ordinals_loop_displayed cs :
  forall so sd i d, displayed_from sd d (update_ordinals_loop so sd i d cs).1.
Proof.
  induction cs as [|r gcs rest IHg IHrest] using forest_ind; intros so sd i d.
  - constructor.
  - rewrite update_ordinals_loop_cons. cbn zeta. cbn [fst].
    change (row (Node r gcs)) with r. change (children (Node r gcs)) with gcs.
    assert (Hd : next_display_ordinal d (updated_row (so ++ [i + 1])
                   (sd ++ [next_display_ordinal d r]) r) = next_display_ordinal d r).
    { unfold next_display_ordinal. by rewrite updated_row_does_display. }
    constructor.
    + by rewrite Hd, updated_row_display.
    + apply IHg.
    + rewrite Hd. apply IHrest.
Qed.

Lemma displayed_from_lookup sd d cs :
  displayed_from sd d cs ->
  forall j c, cs !! j = Some c ->
    display_ordinals (row c) = sd ++ [d + shown (take (S j) cs)]
    /\ displayed_from (display_ordinals (row c)) 0 (children c).
Proof.
  induction 1 as [|sd d r gcs rest Hr Hg _ Hrest IH]; intros j c Hj; [done|].
  destruct j as [|j]; simpl in Hj.
  - injection Hj as <-. simpl. split; [|done].
    rewrite Hr, take_0, shown_cons. unfold shown. simpl.
    rewrite (next_display_ordinal_plus d). do 2 f_equal. lia.
  - destruct (IH j c Hj) as [-> Hc]. split; [|done].
    rewrite (firstn_cons (S j)), shown_cons. simpl.
    rewrite (next_display_ordinal_plus d). do 2 f_equal. lia.
Qed.

Lemma displayed_from_subtree (self : Tree) p parent :
  displayed_from (display_ordinals (row self)) 0 (children self) ->
  subtree_at self p = Some parent ->
  displayed_from (display_ordinals (row parent)) 0 (children parent).
Proof.
  revert self. induction p as [|i p IH]; intros self Hself Hp; simpl in Hp.
  - by injection Hp as <-.
  - destruct (children self !! i) as [c|] eqn:Hc; [|done].
    apply (IH c); [|done]. by destruct (displayed_from_lookup _ _ _ Hself i c Hc).
Qed.

Lemma casebook_update_ordinals_loop_displayed cs :
  forall i d k top,
    (Casebook.update_ordinals_loop i d cs).1 !! k = Some top ->
    last (display_ordinals (row top))
    = Some (d + shown (take (S k) (Casebook.update_ordinals_loop i d cs).1))
    /\ displayed_from (display_ordinals (row top)) 0 (children top).
Proof.
  induction cs as [|c rest IH]; intros i d k top Hk; [done|].
  rewrite casebook_update_ordinals_loop_cons in Hk |- *. cbn zeta in Hk |- *.
  cbn [fst] in Hk |- *.
  set (d' := next_display_ordinal d (row c)) in *.
  set (node' := Casebook.updated_row i d' (row c)) in *.
  assert (Hdisp : does_display_ordinals node' = does_display_ordinals (row c)).
  { unfold node', Casebook.updated_row. by destruct (Casebook.needs_update i d' (row c)). }
  assert (Hlast : last (display_ordinals node') = Some d').
  { unfold node', Casebook.updated_row, Casebook.needs_update.
    destruct (bool_decide (ordinals (row c) = [i + 1])); simpl; [|done].
    destruct (bool_decide (display_ordinals (row c) = [])); simpl; [done|].
    case_bool_decide; simpl; done. }
  assert (Hone : next_display_ordinal 0 node' = d' - d).
  { unfold d', next_display_ordinal. rewrite Hdisp.
    destruct (does_display_ordinals (row c)); lia. }
  destruct k as [|k]; simpl in Hk.
  - injection Hk as <-. simpl. split.
    + rewrite Hlast. f_equal. rewrite take_0, shown_cons. simpl. rewrite Hone.
      unfold shown. simpl. lia.
    + apply update_ordinals_loop_displayed.
  - destruct (IH (i + 1) d' k top Hk) as [-> Htop]. split; [|done].
    f_equal. rewrite (firstn_cons (S k)), shown_cons. simpl. rewrite Hone. lia.
Qed.

(** Property X6: after [content_tree__store], the display ordinals of a
    child are those of its parent followed by the number of the siblings
    up to and including it that display their ordinals; for the top-level
    children of a casebook this holds of the last component. *)
Theorem X6_store_display_ordinals :
  (forall (table : list t) (self : Tree) (p : list nat) (parent child : Tree) (i : nat),
      subtree_at (content_tree__store table self).1.1 p = Some parent ->
      children parent !! i = Some child ->
      display_ordinals (row child)
      = display_ordinals (row parent) ++ [shown (take (S i) (children parent))])
  /\ (forall (table : list t) (top_level_children : list Tree) (k : nat) (top : Tree),
        let stored := (Casebook.content_tree__store table top_level_children).1.1 in
        stored !! k = Some top ->
        last (display_ordinals (row top)) = Some (shown (take (S k) stored))
        /\ forall (p : list nat) (parent child : Tree) (i : nat),
             subtree_at top p = Some parent ->
             children parent !! i = Some child ->
             display_ordinals (row child)
             = display_ordinals (row parent) ++ [shown (take (S i) (children parent))]).
Proof.
  split.
  - intros table self p parent child i Hp Hi.
    rewrite content_tree__store_eq, content_tree__update_ordinals_eq in Hp. cbn [fst] in Hp.
    pose proof (update_ordinals_loop_displayed (children self) (ordinals (row self))
                  (display_ordinals (row self)) 0 0) as Hdisp.
    pose proof (displayed_from_subtree (Node (row self) _) p parent Hdisp Hp) as Hparent.
    destruct (displayed_from_lookup _ _ _ Hparent i child Hi) as [-> _].
    do 2 f_equal; lia.
  - intros table cs k top stored Hk. subst stored.
    unfold Casebook.content_tree__store, Casebook.content_tree__update_ordinals in Hk |- *.
    pose proof (casebook_update_ordinals_loop_displayed cs 0 0 k top) as Hdisp.
    destruct (Casebook.update_ordinals_loop 0 0 cs) as [cs' yielded].
    cbn [fst] in Hk, Hdisp |- *.
    destruct (Hdisp Hk) as [-> Hbelow]. split; [f_equal; lia|].
    intros p parent child i Hp Hi.
    pose proof (displayed_from_subtree top p parent Hbelow Hp) as Hparent.
    destruct (displayed_from_lookup _ _ _ Hparent i child Hi) as [-> _].
    do 2 f_equal; lia.
Qed.

Lemma X6_store_display_ordinals_witness :
  let n i o shows := mk i (Some 1) o o shows [] None None in
  let self := Node (n 1 [4] true) [Node (n 2 [9; 9] false) []; Node (n 3 [4; 1] true) []] in
  let stored := (content_tree__store [] self).1.1 in
  display_ordinals (mk 3 (Some 1) [4; 2] [4; 1] true [] None None)
  = display_ordinals (row stored) ++ [shown (take 2 (children stored))].
Proof.
  intros n self stored.
  apply (proj1 X6_store_display_ordinals [] self [] stored
           (Node (mk 3 (Some 1) [4; 2] [4; 1] true [] None None) []) 1%nat).
  - reflexivity.
  - reflexivity.
Defined.

Lemma py_index_imap (cs : list Tree) (j : nat) c :
  cs !! j = Some c ->
  py_index (imap (fun i c => (i, c)) cs) (Z.of_nat j + 1 - 1) = Ok (j, c).
Proof.
  intros Hj. unfold py_index.
  replace (Z.of_nat j + 1 - 1) with (Z.of_nat j) by lia.
  cbn zeta. rewrite !(proj2 (Z.ltb_ge (Z.of_nat j) 0)) by lia.
  by rewrite Nat2Z.id, list_lookup_imap, Hj.
Qed.

Lemma walk_path p :
  forall cs pos j c x,
    cs !! j = Some c -> subtree_at c p = Some x ->
    walk cs pos (Z.of_nat j + 1 :: path_ordinals p) = Ok (pos ++ j :: p).
Proof.
  induction p as [|j' p IH]; intros cs pos j c x Hj Hx;
    rewrite walk_cons, (py_index_imap cs j c Hj).
  - done.
  - simpl in Hx. destruct (children c !! j') as [c'|] eqn:Hc'; [|done].
    change (path_ordinals (j' :: p)) with (Z.of_nat j' + 1 :: path_ordinals p).
    rewrite (IH (children c) (pos ++ [j]) j' c' x Hc' Hx).
    by rewrite <- app_assoc.
Qed.

Lemma ordinals_of_position p :
  forall o i cs j c x,
    ordered_from o i cs -> cs !! j = Some c -> subtree_at c p = Some x ->
    ordinals (row x) = o ++ (i + Z.of_nat j + 1) :: path_ordinals p.
Proof.
  induction p as [|j' p IH]; intros o i cs j c x Hord Hj Hx; simpl in Hx.
  - injection Hx as <-. by destruct (ordered_from_lookup _ _ _ Hord j c Hj) as [-> _].
  - destruct (children c !! j') as [c'|] eqn:Hc'; [|done].
    destruct (ordered_from_lookup _ _ _ Hord j c Hj) as [Hc Hbelow].
    rewrite (IH _ _ _ _ _ _ Hbelow Hc' Hx), Hc, <- app_assoc. simpl.
    do 3 f_equal; lia.
Qed.

(** Property X7: in a stored tree, [content_tree__get_descendant] called
    with the ordinals of a node returns that node. *)
Theorem X7_get_descendant_finds_node :
  (forall (table : list t) (self : Tree) (p : list nat) (x : Tree),
      let stored := (content_tree__store table self).1.1 in
      subtree_at stored p = Some x ->
      content_tree__get_descendant stored (ordinals (row x)) = Ok p)
  /\ (forall (table : list t) (top_level_children : list Tree) (k : nat) (top : Tree)
             (p : list nat) (x : Tree),
        let stored := (Casebook.content_tree__store table top_level_children).1.1 in
        stored !! k = Some top ->
        subtree_at top p = Some x ->
        Casebook.content_tree__get_descendant stored (ordinals (row x)) = Ok (k :: p)).
Proof.
  split.
  - intros table self p x stored Hx. subst stored.
    rewrite content_tree__store_eq, content_tree__update_ordinals_eq in Hx |- *.
    cbn [fst] in Hx |- *.
    pose proof (update_ordinals_loop_ordered (ordinals (row self))
                  (display_ordinals (row self)) (children self)) as Hord.
    specialize (Hord (proj2 (Forall_forall _ _)
                        (fun c _ => update_ordinals_from_ordered c)) 0 0).
    set (cs' := (update_ordinals_loop _ _ 0 0 (children self)).1) in *.
    unfold content_tree__get_descendant. cbn [row children].
    destruct p as [|j p]; simpl in Hx.
    + injection Hx as <-. cbn [row].
      unfold starts_with. rewrite firstn_all, bool_decide_eq_true_2 by done.
      by rewrite drop_all.
    + destruct (cs' !! j) as [c|] eqn:Hc; [|done].
      rewrite (ordinals_of_position p _ _ _ _ _ _ Hord Hc Hx).
      unfold starts_with. rewrite take_app_length, bool_decide_eq_true_2 by done.
      rewrite drop_app_length. cbn [negb].
      replace (0 + Z.of_nat j + 1) with (Z.of_nat j + 1) by lia.
      by rewrite (walk_path p cs' [] j c x Hc Hx).
  - intros table cs k top p x stored Hk Hx. subst stored.
    unfold Casebook.content_tree__store, Casebook.content_tree__update_ordinals in Hk |- *.
    pose proof (casebook_update_ordinals_loop_ordered cs 0 0) as Hord.
    destruct (Casebook.update_ordinals_loop 0 0 cs) as [cs' yielded].
    cbn [fst] in Hk, Hord |- *.
    rewrite (ordinals_of_position p _ _ _ _ _ _ Hord Hk Hx).
    unfold Casebook.content_tree__get_descendant. simpl app.
    replace (0 + Z.of_nat k + 1) with (Z.of_nat k + 1) by lia.
    by rewrite (walk_path p cs' [] k top x Hk Hx).
Qed.

Lemma X7_get_descendant_finds_node_witness :
  let n i o := mk i (Some 1) o o true [] None None in
  let self := Node (n 1 [4]) [Node (n 2 [9; 9]) [Node (n 3 [7]) []]; Node (n 4 [4; 1]) []] in
  content_tree__get_descendant (content_tree__store [] self).1.1 [4; 1; 1]
  = Ok [0; 0]%nat.
Proof.
  intros n self.
  apply (proj1 X7_get_descendant_finds_node [] self [0; 0]%nat (Node (n 3 [4; 1; 1]) [])).
  reflexivity.
Defined.

(** Property X8: [content_tree__get_descendant] raises a ValueError for
    ordinals that do not start with the node's own, an IndexError for a
    component beyond the number of children (or below minus that number),
    and, Python indexing from the end, returns the last child for the
    component 0. *)
Theorem X8_get_descendant_edges (self : Tree) :
  (forall ords,
      starts_with ords (ordinals (row self)) = false ->
      content_tree__get_descendant self ords
      = Raise (ValueError "Ordinal value is not a descendant of self"))
  /\ (forall o rest,
        Z.of_nat (length (children self)) < o \/ o <= - Z.of_nat (length (children self)) ->
        content_tree__get_descendant self (ordinals (row self) ++ o :: rest)
        = Raise IndexError)
  /\ (forall c,
        last (children self) = Some c ->
        content_tree__get_descendant self (ordinals (row self) ++ [0])
        = Ok [(length (children self) - 1)%nat]).
Proof.
  unfold content_tree__get_descendant. split_and!.
  - by intros ords ->.
  - intros o rest Ho. unfold starts_with.
    rewrite take_app_length, bool_decide_eq_true_2 by done.
    rewrite drop_app_length. simpl. unfold py_index. rewrite length_imap.
    destruct (Z.ltb_spec (o - 1) 0) as [Hneg|Hneg].
    + rewrite (proj2 (Z.ltb_lt _ _)) by lia. done.
    + rewrite (proj2 (Z.ltb_ge _ _)) by lia.
      rewrite lookup_ge_None_2; [done|]. rewrite length_imap. lia.
  - intros c Hc. unfold starts_with.
    rewrite take_app_length, bool_decide_eq_true_2 by done.
    rewrite drop_app_length. simpl. unfold py_index. rewrite length_imap.
    rewrite last_lookup in Hc.
    assert (Hlen : (0 < length (children self))%nat).
    { destruct (children self); [done|simpl; lia]. }
    change (0 - 1 <? 0) with true. cbn match.
    rewrite (proj2 (Z.ltb_ge _ _)) by lia.
    replace (Z.to_nat (0 - 1 + Z.of_nat (length (children self))))
      with (pred (length (children self))) by lia.
    rewrite list_lookup_imap, Hc. simpl. do 2 f_equal. lia.
Qed.

Lemma X8_get_descendant_edges_witness :
  let n i o := mk i (Some 1) o o true [] None None in
  let self := Node (n 1 [4]) [Node (n 2 [4; 1]) []; Node (n 3 [4; 2]) []] in
  content_tree__get_descendant self [4; 0] = Ok [1%nat]
  /\ content_tree__get_descendant self [4; 3; 1] = Raise IndexError
  /\ content_tree__get_descendant self [5; 1]
     = Raise (ValueError "Ordinal value is not a descendant of self").
Proof.
  intros n self. split_and!.
  - apply (proj2 (proj2 (X8_get_descendant_edges self)) (Node (n 3 [4; 2]) [])). reflexivity.
  - apply (proj1 (proj2 (X8_get_descendant_edges self)) 3 [1]). simpl. lia.
  - apply (proj1 (X8_get_descendant_edges self)). reflexivity.
Defined.

Lemma shown_take_le k cs : shown (take k cs) <= shown cs.
Proof.
  rewrite <- (take_drop k cs) at 2. unfold shown.
  rewrite filter_app, length_app. lia.
Qed.

Lemma shown_nonneg cs : 0 <= shown cs.
Proof. unfold shown. lia. Qed.

(** The maximum of the last components, when the one of the [k]-th tree is
    [h k], [h] does not exceed [top] and reaches it on the last tree. *)
Lemma py_max_of_last (f : t -> list Z) (h : nat -> Z) (top : Z) (cs : list Tree) :
  (forall k c, cs !! k = Some c -> last (f (row c)) = Some (h k)) ->
  (forall k, (k < length cs)%nat -> h k <= top) ->
  (cs = [] -> top = 0) ->
  (cs <> [] -> h (pred (length cs)) = top) ->
  exists l, map_result (fun x => py_last (f (row x))) cs = Ok l /\ py_max_or_0 l = top.
Proof.
  intros Hlast Hle Hnil Hend.
  destruct (map_result_last_ordinals f cs) as (l & Hl & Hall).
  { intros c Hc Hf. apply list_elem_of_lookup in Hc as [k Hk].
    specialize (Hlast k c Hk). by rewrite Hf in Hlast. }
  exists l. split; [done|].
  apply Forall2_last_fmap in Hall. subst l.
  destruct (py_max_or_0_spec ((fun c => default 0 (last (f (row c)))) <$> cs))
    as [[Hempty ->]|[Hin Hmax]].
  - symmetry. apply Hnil. by apply fmap_nil_inv in Hempty.
  - apply list_elem_of_fmap in Hin as (c & Hm & Hc).
    apply list_elem_of_lookup in Hc as [k Hk].
    rewrite (Hlast k c Hk) in Hm. simpl in Hm.
    assert (Hne : cs <> []) by (intros ->; done).
    assert (Hk' : (k < length cs)%nat) by (by eapply lookup_lt_Some).
    destruct (lookup_lt_is_Some_2 cs (pred (length cs))) as [c' Hc']; [lia|].
    assert (top <= py_max_or_0 ((fun c => default 0 (last (f (row c)))) <$> cs)).
    { rewrite <- (Hend Hne). apply Hmax. apply list_elem_of_fmap. exists c'.
      split; [by rewrite (Hlast _ _ Hc')|by eapply list_elem_of_lookup_2]. }
    specialize (Hle k Hk'). lia.
Qed.

(** Property X9: after the tree of a casebook has been stored, the next
    available child ordinals are one more than the number of top-level
    children and, for display, one more than the number of those that
    display their ordinals. *)
Theorem X9_next_child_after_store (table : list t) (top_level_children : list Tree) :
  let stored := (Casebook.content_tree__store table top_level_children).1.1 in
  Casebook.content_tree__get_next_available_child_ordinals stored
  = Ok ([Z.of_nat (length stored) + 1], [shown stored + 1]).
Proof.
  intros stored. subst stored.
  unfold Casebook.content_tree__store, Casebook.content_tree__update_ordinals.
  pose proof (casebook_update_ordinals_loop_ordered top_level_children 0 0) as Hord.
  pose proof (casebook_update_ordinals_loop_displayed top_level_children 0 0) as Hdisp.
  destruct (Casebook.update_ordinals_loop 0 0 top_level_children) as [stored yielded].
  cbn [fst] in *.
  unfold Casebook.content_tree__get_next_available_child_ordinals.
  destruct (py_max_of_last ordinals (fun k => Z.of_nat k + 1)
              (Z.of_nat (length stored)) stored) as (l1 & -> & ->).
  { intros k c Hk. destruct (ordered_from_lookup _ _ _ Hord k c Hk) as [-> _].
    simpl. f_equal; lia. }
  { intros k Hk. lia. }
  { by intros ->. }
  { intros Hne. destruct stored; [done|simpl; lia]. }
  destruct (py_max_of_last display_ordinals (fun k => shown (take (S k) stored))
              (shown stored) stored) as (l2 & -> & ->).
  { intros k c Hk. destruct (Hdisp k c Hk) as [-> _]. f_equal; lia. }
  { intros k Hk. apply shown_take_le. }
  { by intros ->. }
  { intros Hne. destruct stored as [|c stored']; [done|].
    cbn [length pred]. change (S (length stored')) with (length (c :: stored')).
    by rewrite firstn_all. }
  done.
Qed.
End tree_extras2.

(** ** Further properties of the annotations *)

Section annotation_extras.
Import ContentAnnotation.

Lemma bulk_update_offsets_frame table rows :
  Forall2 (fun a a' => a' = set_offsets a (global_start_offset a') (global_end_offset a'))
          table (bulk_update_offsets table rows).
Proof.
  unfold bulk_update_offsets. induction table as [|old table IH]; [constructor|].
  rewrite fmap_cons. constructor; [|exact IH].
  destruct (find _ rows) as [r|]; by destruct old.
Qed.

(** Property X10: [update_annotations] never adds, removes or reorders
    annotation rows and changes no column but the two offsets: an
    annotation whose text has gone stays in the table. *)
Theorem X10_update_annotations_only_offsets
    (text_from_html : string -> string)
    (make_updater : string -> string -> AnnotationUpdater)
    (table queryset : list t) (before_html after_html : string)
    (to_update table' : list t) :
  update_annotations text_from_html make_updater table queryset before_html after_html
  = Ok (to_update, table') ->
  Forall2 (fun a a' => a' = set_offsets a (global_start_offset a') (global_end_offset a'))
          table table'.
Proof.
  unfold update_annotations. case_bool_decide as Hsame.
  - intros [= <- <-]. induction table as [|a table IH]; constructor; [by destruct a|done].
  - destruct (collect_updates _ _) as [us|e]; [|done]. intros [= <- <-].
    destruct us as [|u us].
    + induction table as [|a table IH]; constructor; [by destruct a|done].
    + apply bulk_update_offsets_frame.
Qed.

Lemma X10_update_annotations_only_offsets_witness :
  let a := mk 1 "highlight" None (Some 2) (Some 5) 7 in
  let upd := mk_updater 0 (fun o => match o with
                                    | Some x => Ok (x + 1)
                                    | None => Raise AttributeError
                                    end) in
  Forall2 (fun a a' => a' = set_offsets a (global_start_offset a') (global_end_offset a'))
          [a] [set_offsets a (Some 3) (Some 6)].
Proof.
  intros a upd.
  apply (X10_update_annotations_only_offsets (fun x => x) (fun _ _ => upd) [a] [a]
           "xabc" "abc" [set_offsets a (Some 3) (Some 6)]).
  reflexivity.
Defined.

Lemma update_annotations_untouched
    (text_from_html : string -> string)
    (make_updater : string -> string -> AnnotationUpdater)
    (table queryset : list t) (before_html after_html : string)
    (to_update table' : list t) (a : t) (i : nat) :
  NoDup (id <$> table) ->
  (forall q, q ∈ queryset -> q ∈ table) ->
  table !! i = Some a ->
  a ∉ queryset
  \/ end_offset_gte
       (get_first_delta_offset
          (make_updater (text_from_html before_html) (text_from_html after_html))) a
     = false ->
  update_annotations text_from_html make_updater table queryset before_html after_html
  = Ok (to_update, table') ->
  table' !! i = Some a.
Proof.
  intros Hnd Hsub Hi Hout. unfold update_annotations. case_bool_decide as Hsame.
  - by intros [= <- <-].
  - destruct (collect_updates _ _) as [us|e] eqn:Hus; [|done]. intros [= <- <-].
    destruct us as [|u us]; [done|].
    apply bulk_update_offsets_untouched; [done|].
    intros r Hr Hid.
    apply (collect_updates_spec _ _ _ Hus) in Hr as (q & Hq & Hone).
    apply list_elem_of_filter in Hq as [Hgte Hq].
    apply update_one_id in Hone.
    assert (q = a) as ->.
    { apply (NoDup_id_inj table); [done|by apply Hsub|by eapply list_elem_of_lookup_2|].
      congruence. }
    destruct Hout as [Hout|Hout]; [done|congruence].
Qed.

(** Property X11: [update_annotations] leaves as it is every annotation
    that is outside the queryset, or whose end offset is NULL or lies
    before the first changed offset. *)
Theorem X11_update_annotations_untouched
    (text_from_html : string -> string)
    (make_updater : string -> string -> AnnotationUpdater)
    (table queryset : list t) (before_html after_html : string)
    (to_update table' : list t) (a : t) (i : nat) :
  NoDup (id <$> table) ->
  (forall q, q ∈ queryset -> q ∈ table) ->
  table !! i = Some a ->
  a ∉ queryset
  \/ end_offset_gte
       (get_first_delta_offset
          (make_updater (text_from_html before_html) (text_from_html after_html))) a
     = false ->
  update_annotations text_from_html make_updater table queryset before_html after_html
  = Ok (to_update, table') ->
  table' !! i = Some a.
Proof. apply update_annotations_untouched. Qed.

Lemma X11_update_annotations_untouched_witness :
  let early := mk 1 "note" None (Some 0) (Some 1) 7 in
  let late := mk 2 "highlight" None (Some 4) (Some 6) 7 in
  let upd := mk_updater 3 (fun o => match o with
                                    | Some x => Ok (x + 1)
                                    | None => Raise AttributeError
                                    end) in
  [early; set_offsets late (Some 5) (Some 7)] !! 0%nat = Some early.
Proof.
  intros early late upd.
  apply (X11_update_annotations_untouched (fun x => x) (fun _ _ => upd)
           [early; late] [early; late] "abcxdef" "abcdef"
           [set_offsets late (Some 5) (Some 7)] _ early 0).
  - simpl. apply NoDup_cons. split.
    + intros H. apply list_elem_of_singleton in H. discriminate H.
    + apply NoDup_cons. split; [intros H; inversion H|apply NoDup_nil_2].
  - done.
  - reflexivity.
  - right. reflexivity.
  - reflexivity.
Defined.

(** Property X12: saving an annotated resource that has no primary key
    or whose content has not changed leaves the annotation table as it
    is; any save leaves alone the annotations that are not valid
    annotations of a node wrapping this resource. *)
Theorem X12_save_touches_related_only
    (text_from_html : string -> string)
    (make_updater : string -> string -> AnnotationUpdater)
    (nodes : list ContentNode.t) (annotations : list t) (self : AnnotatedModel.t) :
  (AnnotatedModel.pk_truthy self = false \/ AnnotatedModel.has_changed_content self = false ->
   exists self',
     AnnotatedModel.save text_from_html make_updater nodes annotations self
     = Ok (self', annotations))
  /\ (forall self' annotations' a i,
        NoDup (id <$> annotations) ->
        annotations !! i = Some a ->
        a ∉ AnnotatedModel.related_annotations nodes annotations self ->
        AnnotatedModel.save text_from_html make_updater nodes annotations self
        = Ok (self', annotations') ->
        annotations' !! i = Some a).
Proof.
  split.
  - intros Hno. unfold AnnotatedModel.save.
    destruct Hno as [-> | ->]; rewrite ?andb_false_r; by eexists.
  - intros self' annotations' a i Hnd Hi Hout. unfold AnnotatedModel.save.
    destruct (AnnotatedModel.pk_truthy self && AnnotatedModel.has_changed_content self).
    + destruct (AnnotatedModel.original_content self) as [before_html|]; [|done].
      destruct (AnnotatedModel.content self) as [after_html|]; [|done].
      destruct (update_annotations _ _ _ _ _ _) as [[us table']|e] eqn:Hup; [|done].
      intros [= <- <-].
      apply (update_annotations_untouched _ _ _ _ _ _ _ _ a i Hnd) in Hup; [done| |done|by left].
      intros q Hq. unfold AnnotatedModel.related_annotations in Hq.
      apply list_elem_of_filter in Hq as [_ Hq]. unfold valid in Hq.
      by apply list_elem_of_filter in Hq as [_ Hq].
    + by intros [= <- <-].
Qed.

Lemma X12_save_touches_related_only_witness :
  let a := mk 1 "note" None (Some 2) (Some 5) 7 in
  let upd := mk_updater 0 (fun o => match o with
                                    | Some x => Ok (x + 1)
                                    | None => Raise AttributeError
                                    end) in
  let block := AnnotatedModel.mk "TextBlock" None (Some "abc"%string) None in
  exists self',
    AnnotatedModel.save (fun x => x) (fun _ _ => upd) [] [a] block = Ok (self', [a]).
Proof.
  intros a upd block.
  apply (proj1 (X12_save_touches_related_only (fun x => x) (fun _ _ => upd) [] [a] block)).
  left. reflexivity.
Defined.
End annotation_extras.

(** ** Further properties of the life cycle and of cloning *)

Section lifecycle_extras.
Import LifeCycle Casebook.

Lemma transition_option_unknown current tgt :
  (forall s, current <> value s) -> transition_option current tgt = Raise KeyError.
Proof.
  intros Hunknown. unfold transition_option.
  rewrite find_fresh; [done|].
  intros e He. apply bool_decide_eq_false_2. intros [Hcur _].
  unfold transition_options in He.
  repeat (apply elem_of_cons in He as [->|He];
          [match type of Hcur with
           | _ = current => exact (Hunknown _ (eq_sym Hcur))
           end|]).
  by apply elem_of_nil in He.
Qed.

(** Property X13: for a casebook in one of the seven life-cycle states
    [can_transition_to] answers for every member of [LifeCycle], and it
    never allows a transition to the current state, into NEWLY_CLONED or
    DRAFT, or out of PREVIOUS_SAVE; for a casebook whose state is none of
    the seven values (and differs from the target) the lookup in the
    table raises a KeyError. *)
Theorem X13_transitions_closed :
  (forall (self : t) (s tgt : LifeCycle.t),
      state self = value s ->
      exists allowed,
        can_transition_to self (Member tgt) = Ok allowed
        /\ (allowed = true ->
            tgt <> s /\ tgt <> NEWLY_CLONED /\ tgt <> DRAFT /\ s <> PREVIOUS_SAVE))
  /\ (forall (self : t) (tgt : target),
        (forall s, state self <> value s) ->
        state self <> target_value tgt ->
        can_transition_to self tgt = Raise KeyError).
Proof.
  split.
  - intros self s tgt Hs. unfold can_transition_to. rewrite Hs.
    destruct s, tgt; vm_compute; eexists; (split; [reflexivity|]);
      intros; try discriminate; repeat split; discriminate.
  - intros self tgt Hunknown Hne. unfold can_transition_to.
    rewrite bool_decide_eq_false_2 by done. by apply transition_option_unknown.
Qed.

Lemma X13_transitions_closed_witness :
  can_transition_to (mk 7 "Torts" None None None "" None [] None None) (Member PUBLISHED)
  = Raise KeyError.
Proof.
  apply (proj2 X13_transitions_closed).
  - intros s. destruct s; discriminate.
  - discriminate.
Defined.

Lemma clone_nodes_other_tables db self nodes db' :
  clone_nodes db self nodes = Ok db' ->
  casebooks db' = casebooks db /\ collaborators db' = collaborators db
  /\ edit_log db' = edit_log db.
Proof.
  unfold clone_nodes. destruct (collect_cloning_nodes db self nodes); [|done].
  by intros [= <-].
Qed.

(** The casebook made by [clone], and the source as [clone] saves it in
    draft mode. *)
Lemma clone_casebook_effects cl db self current_user draft_mode cloned db' :
  clone cl db self current_user draft_mode = (Ok cloned, db') ->
  cloned = mk (next_id (id <$> casebooks db)) (title self) (subtitle self)
             (cleanse_headnote cl false None (headnote self)) (description self)
             (if draft_mode then value DRAFT else value NEWLY_CLONED)
             None (provenance self ++ [id self]) None None
  /\ casebooks db'
     = (if draft_mode
        then write_row (casebooks db ++ [cloned])
               (mk (id self) (title self) (subtitle self)
                  (cleanse_headnote cl true (headnote self) (headnote self))
                  (description self) (state self) (Some (id cloned)) (provenance self)
                  (old_casebook self) (common_title self))
        else casebooks db ++ [cloned])
  /\ collaborators db'
     = collaborators db
       ++ (if draft_mode
           then imap (fun j c =>
                        ContentCollaborator.mk
                          (next_id (ContentCollaborator.id <$> collaborators db)
                           + Z.of_nat j)
                          (ContentCollaborator.has_attribution c)
                          (ContentCollaborator.can_edit c)
                          (ContentCollaborator.user c) (Some (id cloned)))
                  (filter (fun c => ContentCollaborator.casebook c = Some (id self))
                          (collaborators db))
           else match current_user with
                | Some user =>
                    [ContentCollaborator.mk
                       (next_id (ContentCollaborator.id <$> collaborators db))
                       true true user (Some (id cloned))]
                | None => []
                end).
Proof.
  unfold clone.
  set (c := mk (next_id (id <$> casebooks db)) _ _ _ _ _ _ _ _ _).
  destruct draft_mode; [|destruct current_user as [user|]];
    match goal with
    | |- context [clone_nodes ?db2 c ?ns] =>
        destruct (clone_nodes db2 c ns) as [db3|e] eqn:Hrun; [|done];
        destruct (clone_nodes_other_tables _ _ _ _ Hrun) as (Hc & Hco & _);
        intros [= <- <-]; rewrite Hc, Hco; simpl;
        rewrite ?app_nil_r; done
    end.
Qed.

Lemma clone_total cl db self current_user draft_mode :
  bodies_found db (contents (content_nodes db) self) = true ->
  exists cloned db', clone cl db self current_user draft_mode = (Ok cloned, db').
Proof.
  intros Hfound. unfold clone.
  set (c := mk (next_id (id <$> casebooks db)) _ _ _ _ _ _ _ _ _).
  destruct draft_mode; [|destruct current_user as [user|]];
    match goal with
    | |- context [clone_nodes ?db2 c ?ns] =>
        destruct (clone_nodes_total db2 c ns Hfound) as [db' Hrun];
        rewrite Hrun; by eexists _, _
    end.
Qed.

Lemma filter_none {A : Type} (P : A -> Prop) `{forall x, Decision (P x)} (l : list A) :
  (forall x, x ∈ l -> ~ P x) -> filter P l = [].
Proof.
  induction l as [|x l IH]; intros Hno; [done|].
  rewrite filter_cons, decide_False by (apply Hno, elem_of_cons; by left).
  apply IH. intros y Hy. apply Hno, elem_of_cons. by right.
Qed.

(** Collaborator rows that agree on the user and the right to edit. *)
Lemma can_edit_users_copied k (l l' : list ContentCollaborator.t) user :
  Forall2 (fun c c' => ContentCollaborator.user c' = ContentCollaborator.user c
                       /\ ContentCollaborator.can_edit c' = ContentCollaborator.can_edit c
                       /\ ContentCollaborator.casebook c' = Some k) l l' ->
  existsb (fun c => bool_decide (ContentCollaborator.user c = user))
    (filter (fun c => ContentCollaborator.can_edit c = true)
       (filter (fun c => ContentCollaborator.casebook c = Some k) l'))
  = existsb (fun c => bool_decide (ContentCollaborator.user c = user))
      (filter (fun c => ContentCollaborator.can_edit c = true) l).
Proof.
  induction 1 as [|c c' l l' (Hu & He & Hk) _ IH]; [done|].
  rewrite (filter_cons _ c'), decide_True by done.
  rewrite (filter_cons _ c'), (filter_cons _ c), He.
  destruct (decide (ContentCollaborator.can_edit c = true)); [|done].
  simpl. by rewrite IH, Hu.
Qed.

(** Property X14: when no collaborator row points at a casebook that does
    not exist, a clone made in draft mode can be edited by exactly the
    users who can edit the source, and a clone made otherwise by the
    current user alone. *)
Theorem X14_clone_collaborators cl db self current_user draft_mode cloned db' :
  (forall c k, c ∈ collaborators db -> ContentCollaborator.casebook c = Some k ->
               k ∈ id <$> casebooks db) ->
  clone cl db self current_user draft_mode = (Ok cloned, db') ->
  forall user,
    has_collaborator db' cloned user
    = if draft_mode then has_collaborator db self user
      else bool_decide (current_user = Some user).
Proof.
  intros Hintegrity Hrun user.
  destruct (clone_casebook_effects _ _ _ _ _ _ _ Hrun) as (Hcloned & _ & Hco).
  assert (Hid : id cloned = next_id (id <$> casebooks db)) by (by rewrite Hcloned).
  unfold has_collaborator. rewrite Hco, filter_app.
  rewrite (filter_none _ (collaborators db)); cycle 1.
  { intros c Hc Hk. apply Hintegrity in Hk; [|done].
    apply next_id_fresh in Hk. lia. }
  rewrite app_nil_l. destruct draft_mode.
  - apply can_edit_users_copied.
    apply Forall2_same_length_lookup_2; [by rewrite length_imap|].
    intros i c c' Hc Hc'. rewrite list_lookup_imap, Hc in Hc'. by injection Hc' as <-.
  - destruct current_user as [u|]; simpl.
    + rewrite filter_cons, decide_True by done. rewrite filter_nil.
      rewrite filter_cons, decide_True by done. rewrite filter_nil. simpl.
      rewrite orb_false_r. apply bool_decide_ext. split; congruence.
    + done.
Qed.

Lemma X14_clone_collaborators_witness :
  let cl := mk_cleanser (fun s => s) (fun s => s) (fun s => s) in
  let source := mk 1 "Torts" None None None "Public" None [] None None in
  let db := mk_db [source] [] [] [] [] [] []
              [ContentCollaborator.mk 1 true true 77 (Some 1);
               ContentCollaborator.mk 2 true false 78 (Some 1)] in
  exists cloned db',
    clone cl db source None true = (Ok cloned, db')
    /\ has_collaborator db' cloned 77 = true
    /\ has_collaborator db' cloned 78 = false.
Proof.
  intros cl source db.
  destruct (clone cl db source None true) as [[cloned|e] db'] eqn:Hrun;
    [|vm_compute in Hrun; discriminate].
  exists cloned, db'. split; [done|].
  assert (Hint : forall c k, c ∈ collaborators db -> ContentCollaborator.casebook c = Some k ->
                             k ∈ id <$> casebooks db).
  { intros c k Hc Hk. simpl in Hc.
    repeat (apply elem_of_cons in Hc as [->|Hc]; [injection Hk as <-; simpl; set_solver|]).
    by apply elem_of_nil in Hc. }
  split; rewrite (X14_clone_collaborators cl db source None true cloned db' Hint Hrun);
    reflexivity.
Defined.

Lemma NoDup_ids_snoc_fresh table (c : t) :
  NoDup (id <$> table) -> id c = next_id (id <$> table) ->
  NoDup (id <$> (table ++ [c])).
Proof.
  intros Hnd Hid. rewrite fmap_app. apply NoDup_app. split_and!; [done| |].
  - intros k Hk Hk'. apply list_elem_of_singleton in Hk'. subst k.
    apply next_id_fresh in Hk. lia.
  - apply NoDup_singleton.
Qed.

Lemma filter_id_snoc_fresh table (c : t) k :
  k ∈ id <$> table -> id c = next_id (id <$> table) ->
  filter (fun x => id x = k) (table ++ [c]) = filter (fun x => id x = k) table.
Proof.
  intros Hk Hid. rewrite filter_app, filter_cons, decide_False, filter_nil, app_nil_r; [done|].
  intros Heq. apply next_id_fresh in Hk. lia.
Qed.

Lemma elem_of_write_row_other table row (c : t) :
  c ∈ table -> id c <> id row -> c ∈ write_row table row.
Proof.
  intros Hc Hne. unfold write_row. destruct (existsb _ table).
  - apply list_elem_of_fmap. exists c. by rewrite bool_decide_eq_false_2.
  - apply elem_of_app. by left.
Qed.

(** Property X15: after [clone], the source is the [version_tree__parent]
    of the new casebook (in draft mode with its [draft] set to it), and the
    new casebook is among the [version_tree__descendants] of the source. *)
Theorem X15_clone_version_tree cl db self current_user draft_mode cloned db' :
  NoDup (id <$> casebooks db) ->
  id self ∈ id <$> casebooks db ->
  clone cl db self current_user draft_mode = (Ok cloned, db') ->
  (exists parent,
      version_tree__parent db' cloned = Ok (Some parent)
      /\ id parent = id self
      /\ (draft_mode = true -> draft parent = Some (id cloned)))
  /\ cloned ∈ version_tree__descendants db' self.
Proof.
  intros Hnd Hself Hrun.
  destruct (clone_casebook_effects _ _ _ _ _ _ _ Hrun) as (Hcloned & Hcs & _).
  assert (Hid : id cloned = next_id (id <$> casebooks db)) by (by rewrite Hcloned).
  assert (Hprov : provenance cloned = provenance self ++ [id self]) by (by rewrite Hcloned).
  assert (Hne : id cloned <> id self).
  { intros Heq. apply next_id_fresh in Hself. lia. }
  pose proof (NoDup_ids_snoc_fresh _ _ Hnd Hid) as Hnd'.
  split.
  - unfold version_tree__parent. rewrite Hprov, last_snoc, Hcs. destruct draft_mode.
    + rewrite (filter_id_write_same (casebooks db ++ [cloned])
                 (mk (id self) _ _ _ _ _ _ _ _ _) Hnd').
      eexists. split; [done|]. by split.
    + rewrite (filter_id_snoc_fresh _ _ _ Hself Hid).
      apply list_elem_of_fmap in Hself as (row & Hrow & Hin).
      rewrite Hrow, (filter_id_unique _ _ Hnd Hin).
      exists row. split; [done|]. by split.
  - unfold version_tree__descendants. apply list_elem_of_filter. split.
    + rewrite Hprov. apply elem_of_app. right. by apply list_elem_of_singleton.
    + rewrite Hcs. destruct draft_mode.
      * apply elem_of_write_row_other; [|done]. apply elem_of_app. right.
        by apply list_elem_of_singleton.
      * apply elem_of_app. right. by apply list_elem_of_singleton.
Qed.

Lemma X15_clone_version_tree_witness :
  let cl := mk_cleanser (fun s => s) (fun s => s) (fun s => s) in
  let source := mk 1 "Torts" None None None "Public" None [] None None in
  let db := mk_db [source] [] [] [] [] [] [] [] in
  exists cloned db',
    clone cl db source (Some 5) false = (Ok cloned, db')
    /\ cloned ∈ version_tree__descendants db' source.
Proof.
  intros cl source db.
  destruct (clone cl db source (Some 5) false) as [[cloned|e] db'] eqn:Hrun;
    [|vm_compute in Hrun; discriminate].
  exists cloned, db'. split; [done|].
  apply (X15_clone_version_tree cl db source (Some 5) false cloned db').
  - simpl. apply NoDup_singleton.
  - simpl. set_solver.
  - exact Hrun.
Defined.

Lemma make_draft_published cl db self :
  state self = value PUBLISHED ->
  let saved1 := save cl db (headnote self) (set_state self (value REVISING)) in
  let saved2 := save cl saved1.2 (headnote saved1.1) saved1.1 in
  make_draft cl db self = clone cl saved2.2 saved2.1 None true.
Proof.
  intros Hs. unfold make_draft, transition_to, can_transition_to.
  rewrite Hs. reflexivity.
Qed.

(** Property X16: [make_draft] raises a ValueError, with nothing written,
    on a casebook in any state but PUBLISHED; on a PUBLISHED casebook whose
    nodes to copy have their bodies it returns a new casebook in state
    DRAFT, stored, with the source's provenance followed by the source's
    id, and leaves the source stored in state REVISING with its [draft]
    set. *)
Theorem X16_make_draft (cl : Cleanser) (db : DB) (self : t) :
  (forall s, state self = value s -> s <> PUBLISHED ->
             make_draft cl db self
             = (Raise (ValueError "Cannot transition to desired state"), db))
  /\ (state self = value PUBLISHED ->
      NoDup (id <$> casebooks db) ->
      bodies_found db (contents (content_nodes db) self) = true ->
      exists the_draft parent' db',
        make_draft cl db self = (Ok the_draft, db')
        /\ state the_draft = value DRAFT
        /\ provenance the_draft = provenance self ++ [id self]
        /\ stored db' (id the_draft) the_draft
        /\ stored db' (id self) parent'
        /\ state parent' = value REVISING
        /\ draft parent' = Some (id the_draft)).
Proof.
  split.
  - intros s Hs Hne. unfold make_draft, transition_to, can_transition_to.
    rewrite Hs. destruct s; try done; vm_compute; reflexivity.
  - intros Hs Hnd Hfound. rewrite (make_draft_published cl db self Hs). cbn zeta.
    set (saved1 := save cl db (headnote self) (set_state self (value REVISING))).
    set (db2 := (save cl saved1.2 (headnote saved1.1) saved1.1).2).
    set (self2 := (save cl saved1.2 (headnote saved1.1) saved1.1).1).
    assert (Hid2 : id self2 = id self) by done.
    assert (Hst2 : state self2 = value REVISING) by done.
    assert (Hprov2 : provenance self2 = provenance self) by done.
    assert (Hnd2 : NoDup (id <$> casebooks db2)).
    { unfold db2. simpl. by do 2 apply write_row_ids_NoDup. }
    destruct (clone_total cl db2 self2 None true) as (the_draft & db' & Hrun).
    { exact Hfound. }
    rewrite Hrun.
    destruct (clone_casebook_effects _ _ _ _ _ _ _ Hrun) as (Hcloned & Hcs & _).
    assert (Hid : id the_draft = next_id (id <$> casebooks db2)) by (by rewrite Hcloned).
    pose proof (NoDup_ids_snoc_fresh _ _ Hnd2 Hid) as Hnd'.
    assert (Hin2 : id self ∈ id <$> casebooks db2).
    {
      assert (Hw : forall table (row : t),
                 NoDup (id <$> table) -> id row ∈ id <$> write_row table row).
      { intros table row Hn. apply list_elem_of_fmap. exists row. split; [done|].
        assert (Hf : row ∈ filter (fun c => id c = id row) (write_row table row))
          by (rewrite filter_id_write_same by done; by apply list_elem_of_singleton).
        by apply list_elem_of_filter in Hf as [_ Hf]. }
      rewrite <- Hid2. apply (Hw (casebooks saved1.2) self2).
      by apply write_row_ids_NoDup. }
    assert (Hne : id the_draft <> id self).
    { intros Heq. apply next_id_fresh in Hin2. lia. }
    eexists the_draft, _, db'. split; [done|]. split_and!.
    + by rewrite Hcloned.
    + by rewrite Hcloned, Hprov2.
    + unfold stored. rewrite Hcs, filter_id_write_other by exact (fun Heq => Hne (eq_sym Heq)).
      rewrite filter_app, (filter_id_not_in (casebooks db2)).
      * rewrite filter_cons, decide_True by done. done.
      * intros Hin. apply next_id_fresh in Hin. lia.
    + unfold stored. rewrite Hcs, <- Hid2.
      rewrite (filter_id_write_same (casebooks db2 ++ [the_draft])
                 (mk (id self2) _ _ _ _ _ _ _ _ _) Hnd').
      reflexivity.
    + done.
    + done.
Qed.

Lemma X16_make_draft_witness :
  let cl := mk_cleanser (fun s => s) (fun s => s) (fun s => s) in
  let source := mk 1 "Torts" None None None "Public" None [] None None in
  let db := mk_db [source] [] [] [] [] [] [] [] in
  exists the_draft parent' db',
    make_draft cl db source = (Ok the_draft, db')
    /\ state the_draft = value DRAFT
    /\ provenance the_draft = [] ++ [1]
    /\ stored db' (id the_draft) the_draft
    /\ stored db' 1 parent'
    /\ state parent' = value REVISING
    /\ draft parent' = Some (id the_draft).
Proof.
  intros cl source db.
  apply (proj2 (X16_make_draft cl db source)).
  - reflexivity.
  - simpl. apply NoDup_singleton.
  - reflexivity.
Defined.
End lifecycle_extras.

(** ** Edit tracking and HTML cleansing *)

Section edit_tracked_extras.
Import EditTrackedModel.
Context {V : Type} `{EqDecision V}.

(** Property X17: [has_changed] raises a ValueError for a field that is
    not tracked; for a tracked field it answers True on an instance
    without primary key, False right after [reset_original_state] (as run
    by [save] and [refresh_from_db]), and after a later assignment True
    exactly when the value assigned differs from the one the field had (a
    deferred field counts as changed whatever is assigned). *)
Theorem X17_has_changed (self : t V) (field_name : string) :
  (field_name ∉ tracked_fields self ->
   has_changed self field_name = Raise (ValueError "is not in tracked_fields"))
  /\ (field_name ∈ tracked_fields self ->
      (unsaved self = true -> has_changed self field_name = Ok true)
      /\ (unsaved self = false ->
          has_changed (reset_original_state self) field_name = Ok false
          /\ forall v,
               has_changed (setattr (reset_original_state self) field_name v) field_name
               = Ok (negb (bool_decide (dict self !! field_name = Some v))))).
Proof.
  split.
  - intros Hno. unfold has_changed. by rewrite bool_decide_eq_false_2.
  - intros Hin. split.
    + intros Hnew. unfold has_changed. by rewrite bool_decide_eq_true_2, Hnew.
    + intros Hsaved. split.
      * unfold has_changed. cbn [tracked_fields reset_original_state pk dict original_state].
        rewrite bool_decide_eq_true_2 by done. cbn [negb].
        change (unsaved (reset_original_state self)) with (unsaved self). rewrite Hsaved.
        destruct (dict self !! field_name) as [current|] eqn:Hd; [|done].
        rewrite (map_lookup_filter_Some_2 _ _ field_name current Hd Hin).
        by rewrite bool_decide_eq_true_2.
      * intros v. unfold has_changed.
        cbn [tracked_fields reset_original_state setattr pk dict original_state].
        rewrite bool_decide_eq_true_2 by done. cbn [negb].
        change (unsaved (setattr (reset_original_state self) field_name v))
          with (unsaved self).
        rewrite Hsaved, lookup_insert_eq.
        destruct (dict self !! field_name) as [current|] eqn:Hd.
        -- rewrite (map_lookup_filter_Some_2 _ _ field_name current Hd Hin).
           do 2 f_equal. apply bool_decide_ext. split; congruence.
        -- rewrite (proj2 (map_lookup_filter_None _ _ field_name)); [done|].
           left. done.
Qed.
End edit_tracked_extras.

Section edit_tracked_witness.
Import EditTrackedModel.

Lemma X17_has_changed_witness :
  let self : t string :=
    mk ["content"%string] (Some 4) {["content"%string := "foo"%string]} ∅ in
  has_changed (setattr (reset_original_state self) "content" "bar"%string) "content"
  = Ok (negb (bool_decide (dict self !! "content"%string = Some "bar"%string))).
Proof.
  intros self.
  apply (proj2 (proj2 (X17_has_changed self "content")
                  ltac:(simpl; set_solver)) eq_refl).
Defined.
End edit_tracked_witness.

Section cleanse_extras.
Import Casebook.

Lemma run_if_unchanged func h : run_if_field_changed func true h h = h.
Proof.
  unfold run_if_field_changed. destruct h as [v|]; [|done].
  rewrite (bool_decide_eq_true_2 (Some v = Some v)) by done.
  cbn [negb orb]. by rewrite andb_false_r.
Qed.

Lemma run_if_changed func original v :
  v <> ""%string -> original <> Some v ->
  run_if_field_changed func true original (Some v) = Some (func v).
Proof.
  intros Hv Hne. unfold run_if_field_changed.
  rewrite (bool_decide_eq_false_2 (v = ""%string)) by done.
  by rewrite (bool_decide_eq_false_2 (original = Some v)) by done.
Qed.

Lemma run_if_unsaved func original v :
  v <> ""%string -> run_if_field_changed func false original (Some v) = Some (func v).
Proof.
  intros Hv. unfold run_if_field_changed.
  by rewrite (bool_decide_eq_false_2 (v = ""%string)) by done.
Qed.

(** Property X18: [cleanse_html_field] leaves alone a field that has not
    changed since the instance was loaded, an empty field and a NULL; on a
    saved instance it stops as soon as a step brings the field back to its
    original value; on an unsaved instance it applies the three steps in
    turn. *)
Theorem X18_cleanse_html_field (cl : Cleanser) :
  (forall h, cleanse_headnote cl true h h = h)
  /\ (forall is_saved original,
        cleanse_headnote cl is_saved original None = None
        /\ cleanse_headnote cl is_saved original (Some ""%string) = Some ""%string)
  /\ (forall original v,
        v <> ""%string -> original <> Some v ->
        Some (normalize_newlines cl v) = original ->
        cleanse_headnote cl true original (Some v) = original)
  /\ (forall original v,
        v <> ""%string -> normalize_newlines cl v <> ""%string ->
        sanitize cl (normalize_newlines cl v) <> ""%string ->
        cleanse_headnote cl false original (Some v)
        = Some (strip_trailing_block_level_whitespace cl
                  (sanitize cl (normalize_newlines cl v)))).
Proof.
  unfold cleanse_headnote. split_and!.
  - intros h. by rewrite !run_if_unchanged.
  - intros is_saved original. split; [done|].
    unfold run_if_field_changed.
    by rewrite (bool_decide_eq_true_2 (""%string = ""%string)).
  - intros original v Hv Hne <-.
    rewrite (run_if_changed _ _ v Hv Hne). by rewrite !run_if_unchanged.
  - intros original v Hv Hn Hs. by rewrite !run_if_unsaved.
Qed.

Lemma X18_cleanse_html_field_witness :
  let cl := mk_cleanser (fun s => "n"%string) (fun s => "s"%string) (fun s => "w"%string) in
  cleanse_headnote cl true (Some "n"%string) (Some "raw"%string) = Some "n"%string.
Proof.
  intros cl.
  apply (proj1 (proj2 (proj2 (X18_cleanse_html_field cl))) (Some "n"%string) "raw"%string);
    done.
Defined.
End cleanse_extras.

(** ** Merging a draft: the content nodes and the edit log *)

Section merge_extras.
Import LifeCycle Casebook.

Lemma publish_step_processed parent st n :
  processed (publish_step parent st n) = processed st ++ [published_row parent n].
Proof.
  unfold publish_step, published_row.
  destruct (last (ContentNode.provenance n)) as [k|] eqn:Hl; [done|].
  apply last_None in Hl. by rewrite Hl.
Qed.

Lemma publish_fold_processed parent l :
  forall st,
    processed (foldl (publish_step parent) st l)
    = processed st ++ (published_row parent <$> l).
Proof.
  induction l as [|n l IH]; intros st; simpl; [by rewrite app_nil_r|].
  by rewrite IH, publish_step_processed, <- app_assoc.
Qed.

Lemma retire_step_processed db parent draft st n st' :
  retire_step db parent draft st n = Ok st' ->
  exists n', processed st' = processed st ++ [n'] /\ retired_row draft n n'.
Proof.
  unfold retire_step, retired_row.
  destruct (swap_map st !! ContentNode.id n) as [original|].
  - destruct (ContentNode.is_resource original).
    + destruct (body_changed db original n) as [edited|e]; [|done].
      intros [= <-]. eexists. split; [done|]. eexists. split; [done|]. right. by eexists.
    + intros [= <-]. eexists. split; [done|]. eexists. split; [done|]. right. by eexists.
  - intros [= <-]. eexists. split; [done|]. eexists. split; [done|]. by left.
Qed.

Lemma retire_loop_processed db parent draft l :
  forall st st',
    retire_loop db parent draft st l = Ok st' ->
    exists l', processed st' = processed st ++ l' /\ Forall2 (retired_row draft) l l'.
Proof.
  induction l as [|n l IH]; intros st st' Hrun; simpl in Hrun.
  - injection Hrun as <-. exists []. by rewrite app_nil_r.
  - destruct (retire_step db parent draft st n) as [st1|e] eqn:Hstep; [|done].
    destruct (retire_step_processed _ _ _ _ _ _ Hstep) as (n' & Hp1 & Hn').
    destruct (IH _ _ Hrun) as (l' & Hp & Hl').
    exists (n' :: l'). split; [|by constructor].
    by rewrite Hp, Hp1, <- app_assoc.
Qed.

(** The first row with a given primary key among the images of rows with
    distinct primary keys. *)
Lemma find_image (R : ContentNode.t -> ContentNode.t -> Prop) l l' n :
  Forall2 R l l' ->
  (forall x y, R x y -> ContentNode.id y = ContentNode.id x) ->
  (forall x, x ∈ l -> ContentNode.id x = ContentNode.id n -> x = n) ->
  n ∈ l ->
  exists r,
    find (fun r => bool_decide (ContentNode.id r = ContentNode.id n)) l' = Some r
    /\ R n r.
Proof.
  intros Hall Hid. induction Hall as [|x y l l' Hxy _ IH]; intros Huniq Hin.
  - by apply elem_of_nil in Hin.
  - simpl. rewrite (Hid _ _ Hxy). case_bool_decide as Hx.
    + assert (x = n) as -> by (apply Huniq; [apply elem_of_cons; by left|done]).
      by exists y.
    + apply IH.
      * intros z Hz. apply Huniq, elem_of_cons. by right.
      * apply elem_of_cons in Hin as [->|Hin]; [done|done].
Qed.

Lemma find_no_image (R : ContentNode.t -> ContentNode.t -> Prop) l l' k :
  Forall2 R l l' ->
  (forall x y, R x y -> ContentNode.id y = ContentNode.id x) ->
  (forall x, x ∈ l -> ContentNode.id x <> k) ->
  find (fun r => bool_decide (ContentNode.id r = k)) l' = None.
Proof.
  intros Hall Hid Hno. apply find_fresh. intros y Hy.
  apply bool_decide_eq_false_2. intros Hk.
  apply list_elem_of_lookup in Hy as [i Hi].
  destruct (Forall2_lookup_r _ _ _ _ _ Hall Hi) as (x & Hx & Hxy).
  apply (Hno x); [by eapply list_elem_of_lookup_2|]. by rewrite <- (Hid _ _ Hxy).
Qed.

Lemma elem_of_contents table (c : t) n :
  n ∈ contents table c <-> n ∈ table /\ ContentNode.casebook_id n = Some (id c).
Proof.
  unfold contents, ContentNode.order_by_ordinals.
  rewrite merge_sort_Permutation, list_elem_of_filter. tauto.
Qed.

Lemma merge_draft_inv cl db self cached draft' parent' db' :
  merge_draft cl db self cached = (Ok (draft', parent'), db') ->
  exists parent rows edits,
    state self = value DRAFT
    /\ draft_of db self cached = Ok parent
    /\ merge_content_nodes db parent self = Ok (rows, edits)
    /\ content_nodes db' = bulk_update_casebook_provenance (content_nodes db) rows
    /\ edit_log db' = bulk_create_edits (edit_log db) edits.
Proof.
  unfold merge_draft, is_draft. case_bool_decide as Hs; [|done]. cbn [negb].
  destruct (draft_of db self cached) as [parent|e] eqn:Hp; [|done].
  destruct (merge_content_nodes db parent self) as [[rows edits]|e] eqn:Hm; [|done].
  unfold save. intros [= <- <- <-]. by exists parent, rows, edits.
Qed.

Lemma published_row_id parent n :
  ContentNode.id (published_row parent n) = ContentNode.id n.
Proof. done. Qed.

Lemma retired_row_id draft n n' : retired_row draft n n' -> ContentNode.id n' = ContentNode.id n.
Proof. by intros (p & -> & _). Qed.

(** Property X19: when primary keys are distinct and the draft is another
    casebook than its parent, a merge moves every content node of the
    draft to the parent, dropping the last entry of its provenance, and
    every content node of the parent to the draft, its provenance kept or
    extended by one id; rows of other casebooks are left as they are, and
    no row is added or removed. *)
Theorem X19_merge_swaps_nodes cl db self cached parent draft' parent' db' :
  NoDup (ContentNode.id <$> content_nodes db) ->
  draft_of db self cached = Ok parent ->
  id parent <> id self ->
  merge_draft cl db self cached = (Ok (draft', parent'), db') ->
  forall i n,
    content_nodes db !! i = Some n ->
    exists n',
      content_nodes db' !! i = Some n'
      /\ (ContentNode.casebook_id n = Some (id self) -> n' = published_row parent n)
      /\ (ContentNode.casebook_id n = Some (id parent) -> retired_row self n n')
      /\ (ContentNode.casebook_id n <> Some (id self) ->
          ContentNode.casebook_id n <> Some (id parent) -> n' = n).
Proof.
  intros Hnd Hparent Hne Hrun i n Hi.
  destruct (merge_draft_inv _ _ _ _ _ _ _ Hrun)
    as (parent0 & rows & edits & _ & Hparent0 & Hmerge & -> & _).
  assert (parent0 = parent) as -> by congruence.
  unfold merge_content_nodes in Hmerge.
  set (to_publish := contents (content_nodes db) self) in *.
  set (to_retire := contents (content_nodes db) parent) in *.
  destruct (retire_loop _ _ _ _ to_retire) as [retired|e] eqn:Hretire; [|done].
  injection Hmerge as <- _.
  destruct (retire_loop_processed _ _ _ _ _ _ Hretire) as (l' & Hl' & Hall).
  cbn [processed] in Hl'. rewrite app_nil_l in Hl'.
  rewrite Hl', publish_fold_processed. cbn [processed]. rewrite app_nil_l.
  assert (Hin : n ∈ content_nodes db) by (by eapply list_elem_of_lookup_2).
  assert (Huniq : forall x, x ∈ content_nodes db ->
                            ContentNode.id x = ContentNode.id n -> x = n).
  { intros x Hx Hid. by apply (NoDup_fmap_inj ContentNode.id (content_nodes db)). }
  assert (Hpub : Forall2 (fun x y => y = published_row parent x) to_publish
                   (published_row parent <$> to_publish)).
  { apply Forall2_fmap_r, Forall_Forall2_diag, Forall_forall. done. }
  unfold bulk_update_casebook_provenance. rewrite list_lookup_fmap, Hi. cbn [fmap option_fmap option_map].
  rewrite find_app.
  destruct (decide (ContentNode.casebook_id n = Some (id self))) as [Hdraft|Hdraft].
  - destruct (find_image _ _ _ n Hpub) as (r & -> & ->).
    + by intros x y ->.
    + intros x Hx. apply Huniq. by apply elem_of_contents in Hx as [Hx _].
    + by apply elem_of_contents.
    + eexists. split; [done|]. split_and!.
      * intros _. unfold published_row. by destruct n.
      * intros Hp. rewrite Hp in Hdraft. congruence.
      * done.
  - rewrite (find_no_image _ _ _ (ContentNode.id n) Hpub).
    + destruct (decide (ContentNode.casebook_id n = Some (id parent))) as [Hpar|Hpar].
      * destruct (find_image _ _ _ n Hall) as (r & -> & Hr).
        -- apply retired_row_id.
        -- intros x Hx. apply Huniq. by apply elem_of_contents in Hx as [Hx _].
        -- by apply elem_of_contents.
        -- eexists. split; [done|]. split_and!; [done| |done].
           intros _. destruct Hr as (p & -> & Hp). exists p. split; [|done].
           by destruct n.
      * rewrite (find_no_image _ _ _ (ContentNode.id n) Hall).
        -- eexists. split; [done|]. by split_and!.
        -- apply retired_row_id.
        -- intros x Hx Hid. apply elem_of_contents in Hx as [Hx Hc].
           apply Huniq in Hid; [|done]. congruence.
    + by intros x y ->.
    + intros x Hx Hid. apply elem_of_contents in Hx as [Hx Hc].
      apply Huniq in Hid; [|done]. congruence.
Qed.

Lemma X19_merge_swaps_nodes_witness :
  let cl := mk_cleanser (fun s => s) (fun s => s) (fun s => s) in
  let published := mk 1 "Torts" None None None "Revising" (Some 2) [] None None in
  let the_draft := mk 2 "Torts" None None None "Draft" None [1] None None in
  let node i cb prov := ContentNode.mk i (Some cb) [1] [1] true prov None None in
  let db := mk_db [published; the_draft] [node 10 1 []; node 20 2 [10]] [] [] [] [] [] [] in
  exists draft' parent' db',
    merge_draft cl db the_draft (Some published) = (Ok (draft', parent'), db')
    /\ content_nodes db' !! 1%nat = Some (published_row published (node 20 2 [10])).
Proof.
  intros cl published the_draft node db.
  destruct (merge_draft cl db the_draft (Some published)) as [[[draft' parent']|e] db'] eqn:Hrun;
    [|vm_compute in Hrun; discriminate].
  exists draft', parent', db'. split; [done|].
  destruct (X19_merge_swaps_nodes cl db the_draft (Some published) published draft' parent' db')
    with (i := 1%nat) (n := node 20 2 [10]) as (n' & -> & Hn' & _).
  - simpl. apply NoDup_cons. split.
    + intros H. apply list_elem_of_singleton in H. discriminate H.
    + apply NoDup_singleton.
  - reflexivity.
  - discriminate.
  - exact Hrun.
  - reflexivity.
  - by rewrite Hn'.
Defined.

Lemma publish_fold_edits parent l :
  forall st,
    exists es,
      significant_edits (foldl (publish_step parent) st l) = significant_edits st ++ es
      /\ Forall (fun e => CasebookEditLog.casebook e = id parent) es
      /\ forall n, n ∈ l -> ContentNode.provenance n = [] ->
                   ContentNode.is_resource n = true ->
                   edit parent n CasebookEditLog.ChangeType.ADDED ∈ es.
Proof.
  induction l as [|n l IH]; intros st; simpl.
  - exists []. rewrite app_nil_r. split_and!; [done|constructor|].
    intros n Hn. by apply elem_of_nil in Hn.
  - destruct (IH (publish_step parent st n)) as (es & -> & Hall & Hadded).
    unfold publish_step.
    destruct (last (ContentNode.provenance n)) as [k|] eqn:Hl; cbn [significant_edits].
    + exists es. split_and!; [done|done|].
      intros m Hm Hprov Hres. apply elem_of_cons in Hm as [->|Hm]; [|by apply Hadded].
      by rewrite Hprov in Hl.
    + destruct (ContentNode.is_resource n) eqn:Hres.
      * exists (edit parent n CasebookEditLog.ChangeType.ADDED :: es).
        rewrite <- app_assoc. split_and!; [done|by constructor|].
        intros m Hm Hprov Hm'. apply elem_of_cons in Hm as [->|Hm].
        -- apply elem_of_cons. by left.
        -- apply elem_of_cons. right. by apply Hadded.
      * exists es. split_and!; [done|done|].
        intros m Hm Hprov Hm'. apply elem_of_cons in Hm as [->|Hm]; [congruence|].
        by apply Hadded.
Qed.

Lemma publish_fold_swap_map parent l :
  forall st k,
    is_Some (swap_map (foldl (publish_step parent) st l) !! k) ->
    is_Some (swap_map st !! k)
    \/ exists n, n ∈ l /\ last (ContentNode.provenance n) = Some k.
Proof.
  induction l as [|n l IH]; intros st k Hk; simpl in Hk; [by left|].
  destruct (IH _ _ Hk) as [Hst|(m & Hm & Hlast)].
  - unfold publish_step in Hst.
    destruct (last (ContentNode.provenance n)) as [j|] eqn:Hl; cbn [swap_map] in Hst.
    + destruct (decide (j = k)) as [->|Hjk].
      * right. exists n. split; [apply elem_of_cons; by left|done].
      * rewrite lookup_insert_ne in Hst by done. by left.
    + by left.
  - right. exists m. split; [apply elem_of_cons; by right|done].
Qed.

Lemma retire_step_edits db parent draft st n st' :
  retire_step db parent draft st n = Ok st' ->
  exists es,
    significant_edits st' = significant_edits st ++ es
    /\ Forall (fun e => CasebookEditLog.casebook e = id parent) es
    /\ (swap_map st !! ContentNode.id n = None ->
        edit parent n CasebookEditLog.ChangeType.REMOVED ∈ es)
    /\ forall k, swap_map st !! k = None -> swap_map st' !! k = None.
Proof.
  unfold retire_step.
  destruct (swap_map st !! ContentNode.id n) as [original|] eqn:Hsw.
  - assert (Hdel : forall k, swap_map st !! k = None ->
                             delete (ContentNode.id n) (swap_map st) !! k = None).
    { intros k Hk. apply lookup_delete_None. by right. }
    destruct (ContentNode.is_resource original).
    + destruct (body_changed db original n) as [edited|e]; [|done].
      intros [= <-]. cbn [significant_edits swap_map].
      destruct edited;
        destruct (same_set (annotation_set db original) (annotation_set db n)).
      * exists [edit parent original CasebookEditLog.ChangeType.EDITED].
        split_and!; [done|by repeat constructor|done|done].
      * exists [edit parent original CasebookEditLog.ChangeType.EDITED;
                edit parent original CasebookEditLog.ChangeType.ANNOTATED].
        split_and!; [by rewrite <- app_assoc|by repeat constructor|done|done].
      * exists []. rewrite app_nil_r. split_and!; [done|constructor|done|done].
      * exists [edit parent original CasebookEditLog.ChangeType.ANNOTATED].
        split_and!; [done|by repeat constructor|done|done].
    + intros [= <-]. exists []. rewrite app_nil_r. split_and!; [done|constructor|done|done].
  - intros [= <-]. eexists. split_and!; [done| | |done].
    + by repeat constructor.
    + intros _. by apply list_elem_of_singleton.
Qed.

Lemma retire_loop_edits db parent draft l :
  forall st st',
    retire_loop db parent draft st l = Ok st' ->
    exists es,
      significant_edits st' = significant_edits st ++ es
      /\ Forall (fun e => CasebookEditLog.casebook e = id parent) es
      /\ forall n, n ∈ l -> swap_map st !! ContentNode.id n = None ->
                   edit parent n CasebookEditLog.ChangeType.REMOVED ∈ es.
Proof.
  induction l as [|n l IH]; intros st st' Hrun; simpl in Hrun.
  - injection Hrun as <-. exists []. rewrite app_nil_r. split_and!; [done|constructor|].
    intros n Hn. by apply elem_of_nil in Hn.
  - destruct (retire_step db parent draft st n) as [st1|e] eqn:Hstep; [|done].
    destruct (retire_step_edits _ _ _ _ _ _ Hstep) as (es1 & He1 & Hall1 & Hrem1 & Hmap).
    destruct (IH _ _ Hrun) as (es & He & Hall & Hrem).
    exists (es1 ++ es). split_and!.
    + by rewrite He, He1, <- app_assoc.
    + by apply Forall_app.
    + intros m Hm Hnone. apply elem_of_app.
      apply elem_of_cons in Hm as [->|Hm]; [left; by apply Hrem1|].
      right. apply Hrem; [done|]. by apply Hmap.
Qed.

Lemma elem_of_created_edits table entries e :
  e ∈ entries ->
  exists e', e' ∈ bulk_create_edits table entries
             /\ CasebookEditLog.casebook e' = CasebookEditLog.casebook e
             /\ CasebookEditLog.change e' = CasebookEditLog.change e
             /\ CasebookEditLog.content e' = CasebookEditLog.content e.
Proof.
  intros He. apply list_elem_of_lookup in He as [k Hk]. unfold bulk_create_edits.
  eexists. split.
  - apply elem_of_app. right. apply (elem_of_lookup_imap_2 _ entries e k Hk).
  - done.
Qed.

(** Property X20: a merge only appends to the edit log, and only entries
    of the parent casebook; it logs "Added" for every resource of the
    draft that has no provenance and "Removed" for every node of the
    parent that no node of the draft has as the last entry of its
    provenance. *)
Theorem X20_merge_edit_log cl db self cached parent draft' parent' db' :
  draft_of db self cached = Ok parent ->
  merge_draft cl db self cached = (Ok (draft', parent'), db') ->
  exists new,
    edit_log db' = edit_log db ++ new
    /\ Forall (fun e => CasebookEditLog.casebook e = id parent) new
    /\ (forall n,
          n ∈ contents (content_nodes db) self ->
          ContentNode.provenance n = [] -> ContentNode.is_resource n = true ->
          exists e, e ∈ edit_log db'
                    /\ CasebookEditLog.casebook e = id parent
                    /\ CasebookEditLog.content e = Some (ContentNode.id n)
                    /\ CasebookEditLog.change e
                       = CasebookEditLog.ChangeType.value CasebookEditLog.ChangeType.ADDED)
    /\ (forall n,
          n ∈ contents (content_nodes db) parent ->
          (forall m, m ∈ contents (content_nodes db) self ->
                     last (ContentNode.provenance m) <> Some (ContentNode.id n)) ->
          exists e, e ∈ edit_log db'
                    /\ CasebookEditLog.casebook e = id parent
                    /\ CasebookEditLog.content e = Some (ContentNode.id n)
                    /\ CasebookEditLog.change e
                       = CasebookEditLog.ChangeType.value
                           CasebookEditLog.ChangeType.REMOVED).
Proof.
  intros Hparent Hrun.
  destruct (merge_draft_inv _ _ _ _ _ _ _ Hrun)
    as (parent0 & rows & edits & _ & Hparent0 & Hmerge & _ & Hlog).
  assert (parent0 = parent) as -> by congruence.
  unfold merge_content_nodes in Hmerge.
  set (to_publish := contents (content_nodes db) self) in *.
  set (to_retire := contents (content_nodes db) parent) in *.
  destruct (publish_fold_edits parent to_publish (mk_merge_state ∅ [] []))
    as (es1 & He1 & Hall1 & Hadded).
  cbn [significant_edits] in He1. rewrite app_nil_l in He1.
  destruct (retire_loop _ _ _ _ to_retire) as [retired|e] eqn:Hretire; [|done].
  injection Hmerge as _ <-.
  destruct (retire_loop_edits _ _ _ _ _ _ Hretire) as (es2 & He2 & Hall2 & Hremoved).
  cbn [significant_edits swap_map] in He2, Hremoved. rewrite He1 in He2.
  rewrite Hlog, He2. eexists. split; [reflexivity|]. split_and!.
  - apply Forall_forall. intros e He. apply elem_of_lookup_imap_1 in He as (k & e0 & -> & Hk).
    cbn [CasebookEditLog.casebook].
    assert (He0 : e0 ∈ es1 ++ es2) by (by eapply list_elem_of_lookup_2).
    assert (Hall : Forall (fun e => CasebookEditLog.casebook e = id parent) (es1 ++ es2))
      by (by apply Forall_app).
    rewrite Forall_forall in Hall. by apply Hall.
  - intros n Hn Hprov Hres.
    destruct (elem_of_created_edits (edit_log db) (es1 ++ es2)
                (edit parent n CasebookEditLog.ChangeType.ADDED))
      as (e' & He' & Hc & Hch & Hco).
    { apply elem_of_app. left. by apply Hadded. }
    exists e'. by split_and!.
  - intros n Hn Hnew.
    destruct (elem_of_created_edits (edit_log db) (es1 ++ es2)
                (edit parent n CasebookEditLog.ChangeType.REMOVED))
      as (e' & He' & Hc & Hch & Hco).
    { apply elem_of_app. right. apply Hremoved; [done|].
      apply eq_None_not_Some. intros Hsome.
      apply publish_fold_swap_map in Hsome as [Hsome|(m & Hm & Hlast)].
      - cbn [swap_map] in Hsome. rewrite lookup_empty in Hsome. by destruct Hsome.
      - by apply (Hnew m). }
    exists e'. by split_and!.
Qed.

Lemma X20_merge_edit_log_witness :
  let cl := mk_cleanser (fun s => s) (fun s => s) (fun s => s) in
  let published := mk 1 "Torts" None None None "Revising" (Some 2) [] None None in
  let the_draft := mk 2 "Torts" None None None "Draft" None [1] None None in
  let node i cb prov := ContentNode.mk i (Some cb) [1] [1] true prov None None in
  let db := mk_db [published; the_draft] [node 10 1 []; node 21 2 [9]] [] [] [] [] [] [] in
  exists draft' parent' db' new,
    merge_draft cl db the_draft (Some published) = (Ok (draft', parent'), db')
    /\ edit_log db' = [] ++ new.
Proof.
  intros cl published the_draft node db.
  destruct (merge_draft cl db the_draft (Some published)) as [[[draft' parent']|e] db'] eqn:Hrun;
    [|vm_compute in Hrun; discriminate].
  destruct (X20_merge_edit_log cl db the_draft (Some published) published draft' parent' db')
    as (new & Hlog & _).
  - reflexivity.
  - exact Hrun.
  - by exists draft', parent', db', new.
Defined.
End merge_extras.

(** ** Deleting a content node *)

Section deletion_extras.
Import Casebook Deletion.

Lemma filter_not_elem_cons {A} (f : A -> Z) (a : Z) (l : list Z) (xs : list A) :
  filter (fun x => f x ∉ [a]) (filter (fun x => f x ∉ l) xs)
  = filter (fun x => f x ∉ a :: l) xs.
Proof.
  induction xs as [|x xs IH]; [done|].
  rewrite !filter_cons.
  destruct (decide (f x ∉ l)) as [Hl|Hl].
  - rewrite filter_cons.
    destruct (decide (f x ∉ [a])) as [Ha|Ha].
    + rewrite decide_True; [by rewrite IH|].
      rewrite not_elem_of_cons. split; [|done].
      intros Heq. apply Ha. by apply list_elem_of_singleton.
    + rewrite decide_False; [done|].
      intros Hx. apply Ha. intros Heq%list_elem_of_singleton.
      by apply not_elem_of_cons in Hx as [? _].
  - rewrite decide_False; [done|].
    intros Hx. by apply not_elem_of_cons in Hx as [_ ?].
Qed.

Lemma forget_content_cons a l e :
  forget_content [a] (forget_content l e) = forget_content (a :: l) e.
Proof.
  unfold forget_content. destruct e as [i cb ch [k|]]; simpl; [|done].
  case_bool_decide as Hl; simpl.
  - by rewrite bool_decide_eq_true_2 by (by apply list_elem_of_further).
  - case_bool_decide as Ha.
    + by rewrite bool_decide_eq_true_2
        by (apply list_elem_of_singleton in Ha as ->; apply list_elem_of_here).
    + rewrite bool_decide_eq_false_2; [done|].
      intros [->|?]%elem_of_cons; [|done]. apply Ha, list_elem_of_here.
Qed.

Lemma type_section_like self : is_section_like self = true -> type self = "section"%string.
Proof.
  unfold is_section_like, type. intros H. apply bool_decide_eq_true_1 in H.
  destruct (ContentNode.resource_type self) as [rt|]; [|done].
  destruct H as [H|[H|H]]; [done| |]; injection H as ->; done.
Qed.

Lemma repair_parent_frame db parent db' :
  repair_parent db parent = (Ok tt, db') ->
  Forall2 ContentNode.same_but_ordinals (content_nodes db) (content_nodes db')
  /\ annotations db' = annotations db
  /\ text_blocks db' = text_blocks db
  /\ links db' = links db
  /\ legal_documents db' = legal_documents db
  /\ casebooks db' = casebooks db
  /\ collaborators db' = collaborators db
  /\ edit_log db' = edit_log db.
Proof.
  unfold repair_parent. destruct parent as [n|[c|]]; [| |done].
  - unfold ContentNode.content_tree__repair.
    destruct (ContentNode.content_tree__load (content_nodes db) n) as [loaded|e]; [|done].
    rewrite content_tree__store_eq. intros [= <-]. cbn. split_and!; try done.
    apply bulk_update_ordinals_frame.
  - intros [= <-]. cbn. split_and!; try done. apply casebook_store_frame.
Qed.

Lemma delete_related_frame db self db1 :
  _delete_related_links_and_text_blocks db self = Ok db1 ->
  content_nodes db1 = content_nodes db
  /\ annotations db1 = annotations db
  /\ text_blocks db1 `sublist_of` text_blocks db
  /\ links db1 `sublist_of` links db
  /\ legal_documents db1 = legal_documents db
  /\ casebooks db1 = casebooks db
  /\ collaborators db1 = collaborators db
  /\ edit_log db1 = edit_log db.
Proof.
  unfold _delete_related_links_and_text_blocks.
  destruct (collect_to_delete db _) as [[link_ids text_block_ids]|e]; [|done].
  intros [= <-]. cbn. split_and!; try done; apply sublist_filter.
Qed.

Lemma delete_resource_frame db self db1 :
  delete_resource db self = Ok db1 ->
  content_nodes db1 = content_nodes db
  /\ annotations db1 = annotations db
  /\ text_blocks db1 `sublist_of` text_blocks db
  /\ links db1 `sublist_of` links db
  /\ legal_documents db1 = legal_documents db
  /\ casebooks db1 = casebooks db
  /\ collaborators db1 = collaborators db
  /\ edit_log db1 = edit_log db.
Proof.
  unfold delete_resource. destruct (ContentNode.resource_id self) as [k|]; [|done].
  case_bool_decide; [done|]. case_bool_decide.
  - destruct (objects_get _) as [b|e]; [|done]. intros [= <-]. cbn.
    split_and!; try done. apply sublist_filter.
  - destruct (objects_get _) as [b|e]; [|done]. intros [= <-]. cbn.
    split_and!; try done. apply sublist_filter.
Qed.

Lemma delete_frame (db : DB) (self : ContentNode.t) (db' : DB) :
  delete db self = (Ok tt, db') ->
  Forall2 ContentNode.same_but_ordinals
    (filter (fun n => ContentNode.id n ∉ removed_ids db self) (content_nodes db))
    (content_nodes db')
  /\ annotations db'
     = filter (fun a => ContentAnnotation.resource a ∉ removed_ids db self) (annotations db)
  /\ text_blocks db' `sublist_of` text_blocks db
  /\ links db' `sublist_of` links db
  /\ legal_documents db' = legal_documents db
  /\ casebooks db' = casebooks db
  /\ collaborators db' = collaborators db
  /\ edit_log db' = forget_content (removed_ids db self) <$> edit_log db.
Proof.
  unfold delete, removed_ids. destruct (find_parent db self) as [parent|e]; [|done].
  destruct (is_section_like self) eqn:Hsec.
  - destruct (_delete_related_links_and_text_blocks db self) as [db1|e] eqn:Hrel; [|done].
    destruct (delete_related_frame _ _ _ Hrel) as (Hn & Ha & Ht & Hl & Hd & Hc & Hco & He).
    intros Hrepair.
    destruct (repair_parent_frame _ _ _ Hrepair) as (Hn' & -> & -> & -> & -> & -> & -> & ->).
    simpl content_nodes in Hn'. simpl annotations. simpl text_blocks. simpl links.
    simpl legal_documents. simpl casebooks. simpl collaborators. simpl edit_log.
    rewrite Hn in Hn'. rewrite Ha, Hd, Hc, Hco, He.
    rewrite Hn. rewrite filter_not_elem_cons in Hn'. rewrite filter_not_elem_cons.
    split_and!; try done.
    rewrite <- list_fmap_compose. apply list_fmap_ext. intros i e _. simpl.
    by rewrite forget_content_cons.
  - assert (Hother : forall db2,
               content_nodes db2 = content_nodes db ->
               annotations db2 = annotations db ->
               text_blocks db2 `sublist_of` text_blocks db ->
               links db2 `sublist_of` links db ->
               legal_documents db2 = legal_documents db ->
               casebooks db2 = casebooks db ->
               collaborators db2 = collaborators db ->
               edit_log db2 = edit_log db ->
               repair_parent (delete_nodes db2 [ContentNode.id self]) parent = (Ok tt, db') ->
               Forall2 ContentNode.same_but_ordinals
                 (filter (fun n => ContentNode.id n ∉ [ContentNode.id self])
                         (content_nodes db))
                 (content_nodes db')
               /\ annotations db'
                  = filter (fun a => ContentAnnotation.resource a ∉ [ContentNode.id self])
                           (annotations db)
               /\ text_blocks db' `sublist_of` text_blocks db
               /\ links db' `sublist_of` links db
               /\ legal_documents db' = legal_documents db
               /\ casebooks db' = casebooks db
               /\ collaborators db' = collaborators db
               /\ edit_log db' = forget_content [ContentNode.id self] <$> edit_log db).
    { intros db2 Hn Ha Ht Hl Hd Hc Hco He Hrepair.
      destruct (repair_parent_frame _ _ _ Hrepair)
        as (Hn' & -> & -> & -> & -> & -> & -> & ->).
      simpl content_nodes in Hn'. simpl annotations. simpl text_blocks. simpl links.
      simpl legal_documents. simpl casebooks. simpl collaborators. simpl edit_log.
      rewrite Hn in Hn'. by rewrite Ha, Hd, Hc, Hco, He. }
    case_bool_decide.
    + destruct (delete_resource db self) as [db2|e] eqn:Hres; [|done].
      destruct (delete_resource_frame _ _ _ Hres) as (Hn & Ha & Ht & Hl & Hd & Hc & Hco & He).
      by apply Hother.
    + by apply Hother.
Qed.
(** Property X21: when [ContentNode.delete] succeeds, the rows of the node
    and, for a section, of everything below it are gone and the rows that
    remain differ from before in their ordinals at most; the annotations
    on the removed nodes are gone and no other; the edit-log entries that
    pointed at a removed node point at nothing; casebooks, collaborators
    and legal documents are as before, and no text block or link is added. *)
Theorem X21_delete_removes (db : DB) (self : ContentNode.t) (db' : DB) :
  delete db self = (Ok tt, db') ->
  Forall2 ContentNode.same_but_ordinals
    (filter (fun n => ContentNode.id n ∉ removed_ids db self) (content_nodes db))
    (content_nodes db')
  /\ annotations db'
     = filter (fun a => ContentAnnotation.resource a ∉ removed_ids db self) (annotations db)
  /\ text_blocks db' `sublist_of` text_blocks db
  /\ links db' `sublist_of` links db
  /\ legal_documents db' = legal_documents db
  /\ casebooks db' = casebooks db
  /\ collaborators db' = collaborators db
  /\ edit_log db' = forget_content (removed_ids db self) <$> edit_log db.
Proof. apply delete_frame. Qed.

Lemma X21_delete_removes_witness :
  let casebook := mk 1 "Torts" None None None "Fresh" None [] None None in
  let node i o rt rid := ContentNode.mk i (Some 1) o o true [] rt rid in
  let s_1 := node 10 [1] None None in
  let db :=
    mk_db [casebook]
      [s_1; node 11 [1; 1] (Some "TextBlock"%string) (Some 5); node 12 [2] None None]
      [ContentAnnotation.mk 1 "note" None (Some 1) (Some 2) 11;
       ContentAnnotation.mk 2 "note" None (Some 1) (Some 2) 12]
      [TextBlock.mk 5 "a" None "text" None] [] []
      [CasebookEditLog.mk (Some 1) 1 "Added" (Some 11)] [] in
  exists db',
    delete db s_1 = (Ok tt, db')
    /\ annotations db' = [ContentAnnotation.mk 2 "note" None (Some 1) (Some 2) 12]
    /\ edit_log db' = [CasebookEditLog.mk (Some 1) 1 "Added" None].
Proof.
  intros casebook node s_1 db.
  destruct (delete db s_1) as [[[]|e] db'] eqn:Hrun; [|vm_compute in Hrun; discriminate].
  exists db'. split; [done|].
  destruct (X21_delete_removes db s_1 db' Hrun) as (_ & -> & _ & _ & _ & _ & _ & ->).
  vm_compute. done.
Defined.

Lemma casebook_load_id table (c c0 : t) :
  id c0 = id c -> content_tree__load table c0 = content_tree__load table c.
Proof. intros Hid. unfold content_tree__load, contents. by rewrite Hid. Qed.

Lemma same_but_ordinals_casebook_id r r' :
  ContentNode.same_but_ordinals r r' -> ContentNode.casebook_id r' = ContentNode.casebook_id r.
Proof. unfold ContentNode.same_but_ordinals. by intros ->. Qed.

Lemma same_but_ordinals_filter_ids (k : Z) l l' :
  Forall2 ContentNode.same_but_ordinals l l' ->
  ContentNode.id <$> filter (fun n => ContentNode.casebook_id n = Some k) l'
  = ContentNode.id <$> filter (fun n => ContentNode.casebook_id n = Some k) l.
Proof.
  induction 1 as [|r r' l l' Hr _ IH]; [done|].
  rewrite !filter_cons, (same_but_ordinals_casebook_id _ _ Hr).
  destruct (decide (ContentNode.casebook_id r = Some k)); [|done].
  by rewrite !fmap_cons, IH, (same_but_ordinals_id _ _ Hr).
Qed.

(** Property X22: after deleting a top-level node of a casebook, the tree
    of the casebook loaded from the table is numbered without gaps (the
    path invariant holds from the top), and its rows are the rows that the
    casebook had before, less the removed ones. *)
Theorem X22_delete_top_level_renumbers (db : DB) (self : ContentNode.t) (c : t) (db' : DB) :
  NoDup (ContentNode.id <$> content_nodes db) ->
  (length (ContentNode.ordinals self) <= 1)%nat ->
  ContentNode.casebook_id self = Some (id c) ->
  delete db self = (Ok tt, db') ->
  let tree := content_tree__load (content_nodes db') c in
  ContentNode.ordered_from [] 0 tree
  /\ ContentNode.id <$> ContentNode.forest_rows tree
     ≡ₚ ContentNode.id <$>
          filter (fun n => ContentNode.casebook_id n = Some (id c))
            (filter (fun n => ContentNode.id n ∉ removed_ids db self) (content_nodes db)).
Proof.
  intros Hnd Hlen Hcb Hdel tree. split.
  - subst tree. revert Hdel. unfold delete, find_parent, casebook_of. rewrite Hcb.
    assert (removelast (ContentNode.ordinals self) = []) as ->.
    { destruct (ContentNode.ordinals self) as [|a [|b l]]; [done|done|simpl in Hlen; lia]. }
    destruct (objects_get _) as [c0|e] eqn:Hget; [|done].
    apply objects_get_elem, list_elem_of_filter in Hget as [Hid _].
    set (children_deleted := if is_section_like self then _ else _).
    assert (Hnd2 : forall db2, children_deleted = Ok db2 ->
                               NoDup (ContentNode.id <$> content_nodes db2)).
    { subst children_deleted. intros db2. destruct (is_section_like self).
      - destruct (_delete_related_links_and_text_blocks db self) as [db1|e] eqn:Hrel; [|done].
        destruct (delete_related_frame _ _ _ Hrel) as (Hn & _).
        intros [= <-]. simpl. rewrite Hn. by apply NoDup_id_filter.
      - case_bool_decide.
        + intros Hres. destruct (delete_resource_frame _ _ _ Hres) as (Hn & _).
          by rewrite Hn.
        + by intros [= <-]. }
    destruct children_deleted as [db2|e]; [|done].
    specialize (Hnd2 db2 eq_refl).
    unfold repair_parent. intros [= <-]. simpl content_nodes.
    rewrite <- (casebook_load_id _ c c0 Hid).
    rewrite casebook_repair_reload; [|by apply NoDup_id_filter].
    unfold content_tree__repair, content_tree__store, content_tree__update_ordinals.
    pose proof (casebook_update_ordinals_loop_ordered
                  (content_tree__load
                     (filter (fun n => ContentNode.id n ∉ [ContentNode.id self])
                        (content_nodes db2)) c0) 0 0) as Hord.
    by destruct (update_ordinals_loop 0 0 _).
  - subst tree. rewrite load_rows. unfold contents, ContentNode.order_by_ordinals.
    rewrite merge_sort_Permutation.
    destruct (delete_frame _ _ _ Hdel) as (Hn & _).
    by rewrite (same_but_ordinals_filter_ids _ _ _ Hn).
Qed.

Lemma collect_to_delete_spec db nodes link_ids text_block_ids :
  collect_to_delete db nodes = Ok (link_ids, text_block_ids) ->
  link_ids = body_ids "Link" nodes /\ text_block_ids = body_ids "TextBlock" nodes.
Proof.
  revert link_ids text_block_ids.
  induction nodes as [|n nodes IH]; intros ls ts; [by intros [= <- <-]|].
  simpl collect_to_delete. unfold body_ids. simpl omap. fold (body_ids "Link" nodes).
  fold (body_ids "TextBlock" nodes).
  unfold resource_of, truthy_id.
  destruct (ContentNode.resource_id n) as [k|]; simpl.
  - destruct (bool_decide (k = 0)); simpl.
    + destruct (collect_to_delete db nodes) as [[l2 t2]|e]; [|done].
      intros [= <- <-]. by apply IH.
    + destruct (bool_decide (ContentNode.resource_type n = Some "TextBlock"%string)) eqn:Ht.
      * apply bool_decide_eq_true_1 in Ht.
        rewrite (bool_decide_eq_true_2 (_ \/ _)) by (by right).
        rewrite (bool_decide_eq_false_2 (ContentNode.resource_type n = Some "Link"%string))
          by (by rewrite Ht).
        destruct (find _ (text_blocks db)); simpl; [|done].
        destruct (collect_to_delete db nodes) as [[l2 t2]|e]; [|done].
        intros [= <- <-]. destruct (IH _ _ eq_refl) as [-> ->]. done.
      * apply bool_decide_eq_false_1 in Ht.
        destruct (bool_decide (ContentNode.resource_type n = Some "Link"%string)) eqn:Hl.
        -- apply bool_decide_eq_true_1 in Hl.
           rewrite (bool_decide_eq_true_2 (_ \/ _)) by (by left).
           destruct (find _ (links db)); simpl; [|done].
           destruct (collect_to_delete db nodes) as [[l2 t2]|e]; [|done].
           intros [= <- <-]. destruct (IH _ _ eq_refl) as [-> ->]. done.
        -- apply bool_decide_eq_false_1 in Hl.
           rewrite (bool_decide_eq_false_2 (_ \/ _)) by tauto.
           destruct (collect_to_delete db nodes) as [[l2 t2]|e]; [|done].
           intros [= <- <-]. by apply IH.
  - destruct (collect_to_delete db nodes) as [[l2 t2]|e]; [|done].
    intros [= <- <-]. by apply IH.
Qed.

Lemma filter_not_elem_nil {A} (f : A -> Z) (xs : list A) :
  filter (fun x => f x ∉ []) xs = xs.
Proof.
  induction xs as [|x xs IH]; [done|].
  rewrite filter_cons, decide_True by apply not_elem_of_nil. by rewrite IH.
Qed.

Lemma filter_not_elem_singleton {A} (f : A -> Z) (k : Z) (xs : list A) :
  filter (fun x => f x ∉ [k]) xs = filter (fun x => f x <> k) xs.
Proof.
  induction xs as [|x xs IH]; [done|].
  rewrite !filter_cons, IH.
  destruct (decide (f x <> k)) as [Hk|Hk].
  - rewrite decide_True; [done|]. by intros ?%list_elem_of_singleton.
  - rewrite decide_False; [done|]. intros Hx. apply Hk. intros Heq. apply Hx.
    by apply list_elem_of_singleton.
Qed.

Lemma body_ids_section_like rt self nodes :
  is_section_like self = true -> rt <> ""%string -> rt <> "Section"%string ->
  body_ids rt (self :: nodes) = body_ids rt nodes.
Proof.
  intros Hsec H1 H2. unfold body_ids at 1. simpl omap.
  apply bool_decide_eq_true_1 in Hsec.
  rewrite (bool_decide_eq_false_2 (ContentNode.resource_type self = Some rt)).
  - by rewrite andb_false_r.
  - intros Heq. rewrite Heq in Hsec. destruct Hsec as [?|[[= ?]|[= ?]]]; done.
Qed.

Lemma X22_delete_top_level_renumbers_witness :
  let casebook := mk 1 "Torts" None None None "Fresh" None [] None None in
  let node i o rt rid := ContentNode.mk i (Some 1) o o true [] rt rid in
  let s_1 := node 10 [1] None None in
  let db :=
    mk_db [casebook]
      [s_1; node 11 [1; 1] (Some "TextBlock"%string) (Some 5); node 12 [2] None None;
       node 13 [2; 1] (Some "LegalDocument"%string) (Some 4)]
      [] [TextBlock.mk 5 "a" None "text" None] [] [LegalDocument.mk 4 None "case"] [] [] in
  exists db',
    delete db s_1 = (Ok tt, db')
    /\ ContentNode.ordered_from [] 0 (content_tree__load (content_nodes db') casebook)
    /\ ContentNode.id <$> ContentNode.forest_rows
                            (content_tree__load (content_nodes db') casebook)
       ≡ₚ [12; 13].
Proof.
  intros casebook node s_1 db.
  destruct (delete db s_1) as [[[]|e] db'] eqn:Hrun; [|vm_compute in Hrun; discriminate].
  exists db'. split; [done|].
  destruct (X22_delete_top_level_renumbers db s_1 casebook db') as [Hord Hrows].
  - simpl. repeat (apply NoDup_cons; split;
      [rewrite ?elem_of_cons, elem_of_nil; intros H; repeat destruct H as [H|H];
       try discriminate; done|]).
    apply NoDup_nil_2.
  - simpl. lia.
  - reflexivity.
  - exact Hrun.
  - split; [exact Hord|]. rewrite Hrows. vm_compute. done.
Defined.

(** Property X23: when [ContentNode.delete] succeeds, the text blocks and
    links that are gone are exactly those that a removed node of type
    TextBlock or Link points at with a nonzero [resource_id]; the
    [resource_id] of a section is not used, and legal documents are never
    deleted. *)
Theorem X23_delete_bodies (db : DB) (self : ContentNode.t) (db' : DB) :
  delete db self = (Ok tt, db') ->
  text_blocks db'
  = filter (fun b => TextBlock.id b ∉ body_ids "TextBlock" (removed_rows db self))
      (text_blocks db)
  /\ links db'
     = filter (fun b => Link.id b ∉ body_ids "Link" (removed_rows db self)) (links db)
  /\ legal_documents db' = legal_documents db.
Proof.
  unfold delete, removed_rows. destruct (find_parent db self) as [parent|e]; [|done].
  destruct (is_section_like self) eqn:Hsec.
  - rewrite !body_ids_section_like by done.
    unfold _delete_related_links_and_text_blocks.
    destruct (collect_to_delete db _) as [[ls ts]|e] eqn:Hcol; [|done].
    apply collect_to_delete_spec in Hcol as [-> ->].
    intros Hrepair.
    by destruct (repair_parent_frame _ _ _ Hrepair) as (_ & _ & -> & -> & -> & _).
  - unfold body_ids. simpl omap. case_bool_decide as Htl.
    + unfold delete_resource, truthy_id.
      destruct (ContentNode.resource_id self) as [k|]; [|done].
      destruct (bool_decide (k = 0)); [done|]. simpl negb. rewrite !andb_true_l.
      destruct (bool_decide (ContentNode.resource_type self = Some "TextBlock"%string)) eqn:Ht.
      * apply bool_decide_eq_true_1 in Ht.
        rewrite (bool_decide_eq_false_2 (ContentNode.resource_type self = Some "Link"%string))
          by (by rewrite Ht).
        destruct (objects_get _) as [b|e]; [|done]. intros Hrepair.
        destruct (repair_parent_frame _ _ _ Hrepair) as (_ & _ & -> & -> & -> & _).
        simpl. by rewrite filter_not_elem_singleton, filter_not_elem_nil.
      * apply bool_decide_eq_false_1 in Ht.
        rewrite (bool_decide_eq_true_2 (ContentNode.resource_type self = Some "Link"%string))
          by tauto.
        destruct (objects_get _) as [b|e]; [|done]. intros Hrepair.
        destruct (repair_parent_frame _ _ _ Hrepair) as (_ & _ & -> & -> & -> & _).
        simpl. by rewrite filter_not_elem_singleton, filter_not_elem_nil.
    + rewrite !(bool_decide_eq_false_2 (ContentNode.resource_type self = Some _)) by tauto.
      rewrite !andb_false_r. intros Hrepair.
      destruct (repair_parent_frame _ _ _ Hrepair) as (_ & _ & -> & -> & -> & _).
      simpl. by rewrite !filter_not_elem_nil.
Qed.

Lemma X23_delete_bodies_witness :
  let casebook := mk 1 "Torts" None None None "Fresh" None [] None None in
  let node i o rt rid := ContentNode.mk i (Some 1) o o true [] rt rid in
  let s_1 := node 10 [1] None (Some 7) in
  let db :=
    mk_db [casebook]
      [s_1; node 11 [1; 1] (Some "TextBlock"%string) (Some 5);
       node 12 [1; 2] (Some "LegalDocument"%string) (Some 4);
       node 13 [2] (Some "Link"%string) (Some 6)]
      []
      [TextBlock.mk 5 "a" None "text" None; TextBlock.mk 7 "b" None "text" None]
      [Link.mk 6 None None "http://a" None] [LegalDocument.mk 4 None "case"] [] [] in
  exists db',
    delete db s_1 = (Ok tt, db')
    /\ text_blocks db' = [TextBlock.mk 7 "b" None "text" None]
    /\ links db' = [Link.mk 6 None None "http://a" None]
    /\ legal_documents db' = [LegalDocument.mk 4 None "case"].
Proof.
  intros casebook node s_1 db.
  destruct (delete db s_1) as [[[]|e] db'] eqn:Hrun; [|vm_compute in Hrun; discriminate].
  exists db'. split; [done|].
  destruct (X23_delete_bodies db s_1 db' Hrun) as (-> & -> & ->).
  vm_compute. done.
Defined.

End deletion_extras.

(** ** Moving a node *)

Section move_extras.
Import ContentNode ContentTree.

(** Storing a forest that holds the rows of the casebook, and loading the
    casebook again, gives the forest as stored. *)
Lemma casebook_store_reload table casebook F :
  NoDup (id <$> table) ->
  forest_rows F ≡ₚ filter (fun n => casebook_id n = Some (Casebook.id casebook)) table ->
  Casebook.content_tree__load (Casebook.content_tree__store table F).2 casebook
  = (Casebook.content_tree__store table F).1.1.
Proof.
  intros Hnd Hperm. unfold Casebook.content_tree__store,
    Casebook.content_tree__update_ordinals.
  pose proof (casebook_update_ordinals_loop_ordered F 0 0) as Hord.
  pose proof (casebook_update_ordinals_loop_spec F 0 0) as [Hsame Hys].
  destruct (Casebook.update_ordinals_loop 0 0 F) as [F' ys]. simpl in *.
  unfold Casebook.content_tree__load at 1. unfold Casebook.contents.
  rewrite bulk_update_ordinals_casebook.
  assert (HndF : NoDup (id <$> forest_rows F)).
  { rewrite Hperm. by apply NoDup_id_filter. }
  rewrite (order_by_ordinals_sorted [] 0 F').
  - by apply load_ordered.
  - exact Hord.
  - unfold bulk_update_ordinals at 1. rewrite <- Hperm.
    fold (bulk_update_ordinals (forest_rows F) ys).
    subst ys. by rewrite bulk_update_changed.
Qed.

Lemma casebook_loop_top_ids cs :
  forall i d,
    (fun x => id (row x)) <$> (Casebook.update_ordinals_loop i d cs).1
    = (fun x => id (row x)) <$> cs.
Proof.
  induction cs as [|c cs IH]; intros i d; [done|].
  rewrite casebook_update_ordinals_loop_cons. cbn zeta. cbn [fst].
  rewrite !fmap_cons, IH. f_equal. cbn [row].
  destruct (casebook_updated_row_changed i (next_display_ordinal d (row c)) (row c))
    as [Hsame _].
  by apply same_but_ordinals_id.
Qed.

Lemma py_insert_index_in_range {A : Type} (l : list A) (j : Z) :
  0 <= j <= Z.of_nat (length l) -> py_insert_index l j = Z.to_nat j.
Proof.
  intros Hj. unfold py_insert_index.
  rewrite (proj2 (Z.ltb_ge j 0)) by lia. lia.
Qed.

Lemma py_insert_lookup {A : Type} (l : list A) (j : Z) (x : A) :
  0 <= j <= Z.of_nat (length l) -> py_insert l j x !! Z.to_nat j = Some x.
Proof.
  intros Hj. unfold py_insert. rewrite (py_insert_index_in_range l j Hj).
  rewrite lookup_app_r by (rewrite length_take; lia).
  rewrite length_take. replace (Z.to_nat j - Z.to_nat j `min` length l)%nat with 0%nat by lia.
  done.
Qed.

Lemma py_insert_delete {A : Type} (l : list A) (j : Z) (x : A) :
  0 <= j <= Z.of_nat (length l) -> delete (Z.to_nat j) (py_insert l j x) = l.
Proof.
  intros Hj. unfold py_insert. rewrite (py_insert_index_in_range l j Hj).
  set (k := Z.to_nat j).
  assert (Hk : length (take k l) = k) by (rewrite length_take; lia).
  rewrite <- Hk at 1. rewrite delete_middle. apply take_drop.
Qed.

Lemma py_insert_Permutation {A : Type} (l : list A) (j : Z) (x : A) :
  py_insert l j x ≡ₚ x :: l.
Proof.
  unfold py_insert. rewrite <- Permutation_middle. by rewrite take_drop.
Qed.

Lemma forest_rows_Permutation F G : F ≡ₚ G -> forest_rows F ≡ₚ forest_rows G.
Proof. intros H. unfold forest_rows. by apply Permutation_flat_map. Qed.

Lemma move_sibling_insert (F : list Tree) (i : nat) (j : Z) (x : Tree) :
  F !! i = Some x -> forest_rows (py_insert (delete i F) j x) ≡ₚ forest_rows F.
Proof.
  intros Hi. apply forest_rows_Permutation.
  rewrite py_insert_Permutation. symmetry. by apply delete_Permutation.
Qed.

(** Property X24: moving a top-level node of a casebook to another place
    among the top-level nodes succeeds; the instance gets the ordinals
    asked for; the tree loaded from the table afterwards is numbered
    without gaps, has the node at the place asked for, and has the other
    top-level nodes in the order they had. *)
Theorem X24_move_to_top_level (casebooks : list Casebook.t) (table : list t)
    (self : t) (c : Casebook.t) (a b : Z) (x : Tree) :
  NoDup (id <$> table) ->
  objects_get (filter (fun c => Some (Casebook.id c) = casebook_id self) casebooks) = Ok c ->
  ordinals self = [a] ->
  1 <= a ->
  Casebook.content_tree__load table c !! Z.to_nat (a - 1) = Some x ->
  id (row x) = id self ->
  1 <= b <= Z.of_nat (length (Casebook.content_tree__load table c)) ->
  a <> b ->
  exists table',
    content_tree__move_to casebooks table self [b]
    = (Ok (set_ordinals self [b] (display_ordinals self)), table')
    /\ let before := Casebook.content_tree__load table c in
       let after := Casebook.content_tree__load table' c in
       ordered_from [] 0 after
       /\ (exists y, after !! Z.to_nat (b - 1) = Some y
                     /\ id (row y) = id self /\ ordinals (row y) = [b])
       /\ delete (Z.to_nat (b - 1)) ((fun n => id (row n)) <$> after)
          = delete (Z.to_nat (a - 1)) ((fun n => id (row n)) <$> before).
Proof.
  intros Hnd Hc Ho Ha Hx Hid Hb Hab.
  set (F := Casebook.content_tree__load table c) in *.
  set (i := Z.to_nat (a - 1)) in *.
  assert (Hlen : (i < length F)%nat) by (by eapply lookup_lt_Some).
  set (F2 := py_insert (delete i F) (b - 1) x).
  assert (Hrange : 0 <= b - 1 <= Z.of_nat (length (delete i F))).
  { rewrite length_delete by (by exists x). lia. }
  exists (Casebook.content_tree__store table F2).2.
  assert (Hperm : forest_rows F2
                  ≡ₚ filter (fun n => casebook_id n = Some (Casebook.id c)) table).
  { unfold F2. rewrite (move_sibling_insert F i (b - 1) x Hx). unfold F.
    rewrite load_rows. unfold Casebook.contents, order_by_ordinals.
    apply merge_sort_Permutation. }
  pose proof (casebook_store_reload table c F2 Hnd Hperm) as Hreload.
  assert (Hstored : (Casebook.content_tree__store table F2).1.1
                    = (Casebook.update_ordinals_loop 0 0 F2).1).
  { unfold Casebook.content_tree__store, Casebook.content_tree__update_ordinals.
    by destruct (Casebook.update_ordinals_loop 0 0 F2). }
  set (F3 := (Casebook.update_ordinals_loop 0 0 F2).1) in *.
  assert (Hord : ordered_from [] 0 F3) by apply casebook_update_ordinals_loop_ordered.
  assert (Hids : (fun n => id (row n)) <$> F3 = (fun n => id (row n)) <$> F2)
    by apply casebook_loop_top_ids.
  assert (Hy : exists y, F3 !! Z.to_nat (b - 1) = Some y
                         /\ id (row y) = id self /\ ordinals (row y) = [b]).
  { assert (Hl : ((fun n => id (row n)) <$> F3) !! Z.to_nat (b - 1) = Some (id (row x))).
    { rewrite Hids, list_lookup_fmap. unfold F2. by rewrite py_insert_lookup. }
    rewrite list_lookup_fmap in Hl.
    destruct (F3 !! Z.to_nat (b - 1)) as [y|] eqn:Hy; [|done].
    injection Hl as Hl. exists y. split_and!; [done|congruence|].
    destruct (ordered_from_lookup _ _ _ Hord _ y Hy) as [-> _]. simpl. f_equal. lia. }
  split.
  - unfold content_tree__move_to. rewrite Ho.
    rewrite bool_decide_eq_false_2 by congruence.
    rewrite bool_decide_eq_false_2 by (simpl; lia).
    unfold is_legacy_casebook_node. rewrite Ho.
    rewrite bool_decide_eq_false_2 by done.
    unfold starts_with. rewrite bool_decide_eq_false_2 by (simpl; congruence).
    simpl take. simpl commonprefix.
    simpl get_same_tree_node_from_ordinals_loaded. rewrite Hc. fold F.
    change (get_descendant (LoadedCasebook c F) []) with (@Ok (list nat) []).
    cbv iota. change (is_resource_at (LoadedCasebook c F) []) with false. cbv iota.
    assert (Hwalk : get_descendant (LoadedCasebook c F) [a] = Ok [i]).
    { unfold get_descendant, Casebook.content_tree__get_descendant.
      replace a with (Z.of_nat i + 1) by lia.
      by rewrite walk_cons, (py_index_imap F i x Hx). }
    rewrite Hwalk. cbv iota. cbn [loaded_children row_at children_at remove_at].
    rewrite Hx. cbn [children_at]. rewrite Hid.
    rewrite bool_decide_eq_true_2 by done. cbn [negb position_after_removal].
    change (default 0 (last [b])) with b.
    cbn [insert_at children_at app with_children].
    replace (Node (row x) (children x)) with x by (by destruct x).
    fold F2. rewrite py_insert_index_in_range by done.
    cbn [store]. 
    destruct (Casebook.content_tree__store table F2) as [[cs' ys] table'] eqn:Hst.
    cbn [loaded_children row_at snd]. simpl in Hstored. subst cs'.
    destruct Hy as (y & -> & _ & ->). done.
  - cbv zeta. rewrite Hreload, Hstored. split_and!; [done|done|].
    rewrite Hids. unfold F2. rewrite <- !list_fmap_delete.
    by rewrite py_insert_delete.
Qed.

Lemma X24_move_to_top_level_witness :
  let c := Casebook.mk 1 "Torts" None None None "Fresh" None [] None None in
  let n i o := mk i (Some 1) o o true [] None None in
  let table := [n 10 [1]; n 11 [2]; n 12 [3]] in
  exists table',
    content_tree__move_to [c] table (n 10 [1]) [3] = (Ok (mk 10 (Some 1) [3] [1] true [] None None), table')
    /\ ordered_from [] 0 (Casebook.content_tree__load table' c)
    /\ delete 2%nat ((fun x => id (row x)) <$> Casebook.content_tree__load table' c)
       = [11; 12].
Proof.
  intros c n table.
  destruct (X24_move_to_top_level [c] table (n 10 [1]) c 1 3 (Node (n 10 [1]) []))
    as (table' & Hrun & Hord & _ & Hdel).
  - simpl. repeat (apply NoDup_cons; split;
      [rewrite ?elem_of_cons, elem_of_nil; intros H; repeat destruct H as [H|H];
       try discriminate; done|]).
    apply NoDup_nil_2.
  - reflexivity.
  - reflexivity.
  - lia.
  - vm_compute. reflexivity.
  - reflexivity.
  - split; [lia|]. vm_compute. discriminate.
  - lia.
  - exists table'. split; [exact Hrun|]. split; [exact Hord|].
    change (Z.to_nat (3 - 1)) with 2%nat in Hdel. rewrite Hdel. vm_compute. reflexivity.
Defined.

Lemma update_ordinals_loop_length cs :
  forall so sd i d, length (update_ordinals_loop so sd i d cs).1 = length cs.
Proof.
  induction cs as [|c cs IH]; intros so sd i d; [done|].
  rewrite update_ordinals_loop_cons. cbn zeta. cbn [fst length]. by rewrite IH.
Qed.

Lemma casebook_loop_lookup cs :
  forall i d j c,
    cs !! j = Some c ->
    exists y, (Casebook.update_ordinals_loop i d cs).1 !! j = Some y
              /\ length (children y) = length (children c).
Proof.
  induction cs as [|c0 cs IH]; intros i d j c Hj; [done|].
  rewrite casebook_update_ordinals_loop_cons. cbn zeta. cbn [fst].
  destruct j as [|j]; simpl in Hj.
  - injection Hj as ->. eexists. split; [done|]. cbn [children].
    apply update_ordinals_loop_length.
  - apply (IH (i + 1) (next_display_ordinal d (row c0)) j c Hj).
Qed.

(** Property X25: the new ordinals are read as a path before the node is
    taken out. A top-level node moved into another top-level section ends
    with the ordinal of that section as it is after the removal: one less
    than asked for when the node stood before the section. *)
Theorem X25_move_into_sibling_section (casebooks : list Casebook.t) (table : list t)
    (self : t) (c : Casebook.t) (a p k : Z) (x q : Tree) :
  objects_get (filter (fun c => Some (Casebook.id c) = casebook_id self) casebooks) = Ok c ->
  ordinals self = [a] ->
  1 <= a -> 1 <= p -> a <> p ->
  Casebook.content_tree__load table c !! Z.to_nat (a - 1) = Some x ->
  id (row x) = id self ->
  Casebook.content_tree__load table c !! Z.to_nat (p - 1) = Some q ->
  is_resource (row q) = false ->
  1 <= k <= Z.of_nat (length (children q)) + 1 ->
  exists table',
    content_tree__move_to casebooks table self [p; k]
    = (Ok (set_ordinals self [if bool_decide (a < p) then p - 1 else p; k]
             (display_ordinals self)),
       table').
Proof.
  intros Hc Ho Ha Hp Hap Hx Hid Hq Hres Hk.
  set (F := Casebook.content_tree__load table c) in *.
  set (i := Z.to_nat (a - 1)) in *. set (j := Z.to_nat (p - 1)) in *.
  assert (Hij : i <> j) by lia.
  set (j' := if bool_decide (i < j)%nat then pred j else j).
  assert (Hq' : delete i F !! j' = Some q).
  { unfold j'. case_bool_decide.
    - rewrite list_lookup_delete_ge by lia. by replace (S (pred j)) with j by lia.
    - by rewrite list_lookup_delete_lt by lia. }
  set (F2 := <[j' := Node (row q) (py_insert (children q) (k - 1) x)]> (delete i F)).
  exists (Casebook.content_tree__store table F2).2.
  assert (Hstored : (Casebook.content_tree__store table F2).1.1
                    = (Casebook.update_ordinals_loop 0 0 F2).1).
  { unfold Casebook.content_tree__store, Casebook.content_tree__update_ordinals.
    by destruct (Casebook.update_ordinals_loop 0 0 F2). }
  set (F3 := (Casebook.update_ordinals_loop 0 0 F2).1) in *.
  assert (Hord : ordered_from [] 0 F3) by apply casebook_update_ordinals_loop_ordered.
  assert (Hy : exists q' y, F3 !! j' = Some q' /\ children q' !! Z.to_nat (k - 1) = Some y
                            /\ ordinals (row y) = [Z.of_nat j' + 1; k]).
  { destruct (casebook_loop_lookup F2 0 0 j'
                (Node (row q) (py_insert (children q) (k - 1) x))) as (q' & Hq3 & Hlen).
    { unfold F2. apply list_lookup_insert_eq. by eapply lookup_lt_Some. }
    cbn [children] in Hlen.
    assert (Hlen' : length (children q') = S (length (children q))).
    { rewrite Hlen. unfold py_insert. rewrite length_app. simpl.
      rewrite length_take, length_drop. unfold py_insert_index. lia. }
    destruct (lookup_lt_is_Some_2 (children q') (Z.to_nat (k - 1))) as [y Hy]; [lia|].
    exists q', y. split_and!; [done|done|].
    rewrite (ordinals_of_position [Z.to_nat (k - 1)] [] 0 F3 j' q' y Hord Hq3).
    - unfold path_ordinals. simpl. do 2 f_equal; lia.
    - simpl. by rewrite Hy. }
  unfold content_tree__move_to. rewrite Ho.
  rewrite bool_decide_eq_false_2 by congruence.
  rewrite bool_decide_eq_false_2 by (simpl; lia).
  unfold is_legacy_casebook_node. rewrite Ho.
  rewrite bool_decide_eq_false_2 by done.
  unfold starts_with. rewrite bool_decide_eq_false_2 by (simpl; congruence).
  simpl take. cbn [commonprefix]. rewrite bool_decide_eq_false_2 by done.
  simpl get_same_tree_node_from_ordinals_loaded. rewrite Hc. fold F.
  assert (Hwalkp : get_descendant (LoadedCasebook c F) [p] = Ok [j]).
  { unfold get_descendant, Casebook.content_tree__get_descendant.
    replace p with (Z.of_nat j + 1) by lia.
    by rewrite walk_cons, (py_index_imap F j q Hq). }
  rewrite Hwalkp. cbv iota.
  unfold is_resource_at. cbn [loaded_children row_at]. rewrite Hq, Hres.
  assert (Hwalk : get_descendant (LoadedCasebook c F) [a] = Ok [i]).
  { unfold get_descendant, Casebook.content_tree__get_descendant.
    replace a with (Z.of_nat i + 1) by lia.
    by rewrite walk_cons, (py_index_imap F i x Hx). }
  rewrite Hwalk. cbv iota. cbn [loaded_children row_at children_at remove_at].
  rewrite Hx. cbn [children_at]. rewrite Hid.
  rewrite bool_decide_eq_true_2 by done. cbn [negb position_after_removal].
  rewrite (bool_decide_eq_false_2 (j = i)) by lia.
  replace (Node (row x) (children x)) with x by (by destruct x).
  change (default 0 (last [p; k])) with k.
  assert (Hpos : (if bool_decide (i < j)%nat then Some [pred j] else Some [j]) = Some [j']).
  { unfold j'. by case_bool_decide. }
  rewrite Hpos. cbn [insert_at children_at app with_children]. rewrite Hq'.
  cbn [children_at]. fold F2.
  rewrite py_insert_index_in_range by lia.
  cbn [store].
  destruct (Casebook.content_tree__store table F2) as [[cs' ys] table'] eqn:Hst.
  cbn [loaded_children row_at snd]. simpl in Hstored. subst cs'.
  destruct Hy as (q' & y & -> & -> & ->).
  replace (Z.of_nat j' + 1) with (if bool_decide (a < p) then p - 1 else p); [done|].
  unfold j', i, j. repeat case_bool_decide; lia.
Qed.

Lemma X25_move_into_sibling_section_witness :
  let c := Casebook.mk 1 "Torts" None None None "Fresh" None [] None None in
  let n i o := mk i (Some 1) o o true [] None None in
  let table := [n 10 [1]; n 11 [2]; n 12 [2; 1]] in
  exists table',
    content_tree__move_to [c] table (n 10 [1]) [2; 2]
    = (Ok (mk 10 (Some 1) [1; 2] [1] true [] None None), table').
Proof.
  intros c n table.
  destruct (X25_move_into_sibling_section [c] table (n 10 [1]) c 1 2 2
              (Node (n 10 [1]) []) (Node (n 11 [2]) [Node (n 12 [2; 1]) []]))
    as (table' & Hrun).
  - reflexivity.
  - reflexivity.
  - lia.
  - lia.
  - lia.
  - vm_compute. reflexivity.
  - reflexivity.
  - vm_compute. reflexivity.
  - reflexivity.
  - simpl. lia.
  - exists table'. exact Hrun.
Defined.
End move_extras.
